(** * The question-block parser of the classroom quiz scripts

    A shallow embedding of [parse_bloco], the function that turns pasted
    text into quiz questions, as written in
    [classroom_criar_atividade_com_teste_V5.py] (lines 133-232) and in
    [classroom_criar_atividade_com_teste_V3.py] (lines 137-246).

    Python strings are modelled as lists of 8-bit characters, each read as
    the code point of the same number (U+0000 to U+00FF).  The character
    classes below are the ones Python 3 uses for [str.strip],
    [str.splitlines] and the [re] module on that range. *)

From Stdlib Require Import String Ascii List Bool Arith ZArith NArith Lia.
From Stdlib Require Import DecimalString DecimalNat.
Import ListNotations.
Local Open Scope list_scope.
Local Open Scope bool_scope.

(** ** Python strings *)

Definition str := list ascii.

(** A string literal. *)
Definition lit (s : string) : str := list_ascii_of_string s.

Definition chr (n : nat) : ascii := ascii_of_nat n.

Definition in_range (lo hi c : ascii) : bool :=
  Ascii.leb lo c && Ascii.leb c hi.

(** [str.isspace] on one character; also the class [\s] of [re]. *)
Definition isspace (c : ascii) : bool :=
  in_range (chr 9) (chr 13) c || in_range (chr 28) (chr 32) c
  || Ascii.eqb c (chr 133) || Ascii.eqb c (chr 160).

(** The line boundaries of [str.splitlines]. *)
Definition is_linebreak (c : ascii) : bool :=
  in_range (chr 10) (chr 13) c || in_range (chr 28) (chr 30) c
  || Ascii.eqb c (chr 133).

(** The class [\d] of [re]. *)
Definition isdigit (c : ascii) : bool := in_range "0" "9" c.

(** The class [[A-Z]] of [re] under [re.IGNORECASE]. *)
Definition isletter (c : ascii) : bool :=
  in_range "A" "Z" c || in_range "a" "z" c.

(** The character [.] of [re] (without [re.DOTALL]). *)
Definition isdot (c : ascii) : bool := negb (Ascii.eqb c (chr 10)).

(** A literal character of a pattern under [re.IGNORECASE]. *)
Definition eqb_nocase (upper lower c : ascii) : bool :=
  Ascii.eqb c upper || Ascii.eqb c lower.

(** [str.lower] and [str.upper], one character at a time.  The parser
    applies them only to the letter captured by [[A-Z]]; of the upper-case
    table the three characters whose upper case leaves the range (U+00B5,
    U+00DF, U+00FF) are left as they are. *)
Definition lower_char (c : ascii) : ascii :=
  if in_range "A" "Z" c
     || (in_range (chr 192) (chr 222) c && negb (Ascii.eqb c (chr 215)))
  then chr (nat_of_ascii c + 32) else c.

Definition upper_char (c : ascii) : ascii :=
  if in_range "a" "z" c
     || (in_range (chr 224) (chr 254) c && negb (Ascii.eqb c (chr 247)))
  then chr (nat_of_ascii c - 32) else c.

Definition lower (s : str) : str := map lower_char s.
Definition upper (s : str) : str := map upper_char s.

(** [s.lstrip(chars)], [s.rstrip(chars)] and [s.strip(chars)], the set of
    characters given as a predicate. *)
Fixpoint lstrip_by (p : ascii -> bool) (s : str) : str :=
  match s with
  | [] => []
  | c :: s' => if p c then lstrip_by p s' else s
  end.

Fixpoint rstrip_by (p : ascii -> bool) (s : str) : str :=
  match s with
  | [] => []
  | c :: s' =>
      match rstrip_by p s' with
      | [] => if p c then [] else [c]
      | r => c :: r
      end
  end.

Definition strip_by (p : ascii -> bool) (s : str) : str :=
  rstrip_by p (lstrip_by p s).

(** [s.strip()] *)
Definition strip (s : str) : str := strip_by isspace s.

(** [s.strip("\n")] *)
Definition is_nl (c : ascii) : bool := Ascii.eqb c (chr 10).
Definition strip_nl (s : str) : str := strip_by is_nl s.

(** [s.splitlines()]: a line ends at a line boundary, the pair CR LF
    counts as one boundary, and no empty line follows a final boundary.
    [cur] holds the characters of the line being read, last one first. *)
Fixpoint splitlines_from (cur : str) (s : str) : list str :=
  match s with
  | [] => match cur with [] => [] | _ => [rev cur] end
  | c :: s' =>
      if is_linebreak c then
        rev cur ::
        match s' with
        | d :: s'' =>
            if Ascii.eqb c (chr 13) && Ascii.eqb d (chr 10)
            then splitlines_from [] s''
            else splitlines_from [] s'
        | [] => splitlines_from [] s'
        end
      else splitlines_from (c :: cur) s'
  end.

Definition splitlines (s : str) : list str := splitlines_from [] s.

(** [sep in s] and [s.split(sep, 1)[1]] for a one-character [sep]. *)
Definition contains (sep : ascii) (s : str) : bool :=
  existsb (Ascii.eqb sep) s.

Fixpoint after_first (sep : ascii) (s : str) : str :=
  match s with
  | [] => []
  | c :: s' => if Ascii.eqb c sep then s' else after_first sep s'
  end.

(** [l.index(x)]: the first position of [x], [None] where Python raises
    [ValueError]. *)
Fixpoint index_of (x : str) (l : list str) : option nat :=
  match l with
  | [] => None
  | y :: l' =>
      if list_eq_dec ascii_dec x y then Some 0
      else option_map S (index_of x l')
  end.

(** [x in l] *)
Definition member (x : str) (l : list str) : bool :=
  existsb (fun y => if list_eq_dec ascii_dec x y then true else false) l.

(** ** The three patterns *)

(** [re.match(r"^P\d*:", s, re.IGNORECASE)] *)
Definition re_inicio (s : str) : bool :=
  match s with
  | c :: s' =>
      eqb_nocase "P" "p" c &&
      match lstrip_by isdigit s' with
      | d :: _ => Ascii.eqb d ":"
      | [] => false
      end
  | [] => false
  end.

(** The last character of [s] that [.] matches, if any: where [\s*] has
    taken the rest of the line, [(.+)] starts there after backtracking. *)
Fixpoint last_dot (s : str) : option ascii :=
  match s with
  | [] => None
  | c :: s' =>
      match last_dot s' with
      | Some d => Some d
      | None => if isdot c then Some c else None
      end
  end.

Fixpoint take_dots (s : str) : str :=
  match s with
  | [] => []
  | c :: s' => if isdot c then c :: take_dots s' else []
  end.

(** [re.match(r"([A-Z])\)\s*(.+)", l, re.IGNORECASE)]: the groups 1 and 2
    of the match. *)
Definition re_alt (l : str) : option (str * str) :=
  match l with
  | c :: p :: rest =>
      if isletter c && Ascii.eqb p ")" then
        match take_dots (lstrip_by isspace rest) with
        | [] => option_map (fun d => ([c], [d])) (last_dot rest)
        | g2 => Some ([c], g2)
        end
      else None
  | _ => None
  end.

(** [re.match(r"G:\s*([A-Z])", l, re.IGNORECASE)]: the group 1 of the
    match. *)
Definition re_gab (l : str) : option str :=
  match l with
  | g :: p :: rest =>
      if eqb_nocase "G" "g" g && Ascii.eqb p ":" then
        match lstrip_by isspace rest with
        | c :: _ => if isletter c then Some [c] else None
        | [] => None
        end
      else None
  | _ => None
  end.

(** ** Process effects

    [parse_bloco] reports a failure with [print] and ends the program with
    [sys.exit(1)].  A run is the list of lines printed and the way the call
    ended. *)

Inductive outcome (A : Type) : Type :=
| Value (a : A)            (* the call returned [a] *)
| SystemExit (code : Z)    (* [sys.exit(code)] was raised *)
| ValueError.              (* [list.index] did not find its argument *)
Arguments Value {A} a.
Arguments SystemExit {A} code.
Arguments ValueError {A}.

Definition proc (A : Type) : Type := (list str * outcome A)%type.

Definition ret {A} (a : A) : proc A := ([], Value a).

Definition bind {A B} (m : proc A) (f : A -> proc B) : proc B :=
  match m with
  | (out, Value a) => let (out', r) := f a in (out ++ out', r)
  | (out, SystemExit code) => (out, SystemExit code)
  | (out, ValueError) => (out, ValueError)
  end.

Definition print (s : str) : proc unit := ([s], Value tt).
Definition sys_exit {A} (code : Z) : proc A := ([], SystemExit code).
Definition raise_ValueError {A} : proc A := ([], ValueError).

Declare Scope proc_scope.
Delimit Scope proc_scope with proc.
Notation "x <- m ;; k" := (bind m (fun x => k))
  (at level 61, m at next level, right associativity) : proc_scope.
Notation "m ;; k" := (bind m (fun _ => k))
  (at level 61, right associativity) : proc_scope.
Local Open Scope proc_scope.

(** Python's truth value of a list or string: empty is false. *)
Definition vazio {A} (l : list A) : bool :=
  match l with [] => true | _ => false end.

(** The dictionary built for a question. *)
Record Question : Type := mkQuestion {
  title : str;
  alternativas : list str;
  correta_idx : nat
}.

(** U+00E3, the a with tilde of the messages. *)
Definition a_til : str := [chr 227].

(** ** [parse_bloco], version 3 *)

Module V3.

(** The first loop, over [linhas]: the state is [(blocos, bloco_atual)]. *)
Definition agrupar (st : list (list str) * list str) (linha : str)
  : list (list str) * list str :=
  let '(blocos, bloco_atual) := st in
  let s := strip linha in
  if vazio s then
    if vazio bloco_atual then st else (blocos, bloco_atual ++ [[]])
  else if re_inicio s then
    let blocos :=
      if vazio bloco_atual then blocos else blocos ++ [bloco_atual] in
    let depois :=
      if contains ":" s then strip (after_first ":" s) else [] in
    if vazio depois then (blocos, []) else (blocos, [depois])
  else (blocos, bloco_atual ++ [linha]).

(** The loop over [linhas_p[1:]]: the state is
    [(alternativas_textos, alternativas_letras, letra_correta)]. *)
Definition ler_linha (st : list str * list str * option str) (l : str)
  : list str * list str * option str :=
  let '(alternativas_textos, alternativas_letras, letra_correta) := st in
  match re_alt l with
  | Some (g1, g2) =>
      let letra := lower g1 in
      let texto_alt := strip g2 in
      (alternativas_textos ++ [texto_alt], alternativas_letras ++ [letra],
       letra_correta)
  | None =>
      match re_gab l with
      | Some g1 => (alternativas_textos, alternativas_letras, Some (lower g1))
      | None => st
      end
  end.

Definition ler_linhas (corpo : list str) : list str * list str * option str :=
  fold_left ler_linha corpo ([], [], None).

(** [not letra_correta] *)
Definition sem_gabarito (letra_correta : option str) : bool :=
  match letra_correta with None => true | Some s => vazio s end.

(** The body of the loop over [blocos]: [None] is [continue], [Some q] the
    question appended to [perguntas]. *)
Definition montar_pergunta (bloco_p : list str) : proc (option Question) :=
  let linhas_p :=
    map strip (filter (fun l => negb (vazio (strip l))) bloco_p) in
  match linhas_p with
  | [] => ret None
  | enunciado :: corpo =>
      let '(alternativas_textos, alternativas_letras, letra_correta) :=
        ler_linhas corpo in
      (if length alternativas_textos <? 2 then
         print (lit "ERRO: pergunta sem alternativas suficientes -> "
                ++ enunciado) ;;
         sys_exit 1
       else ret tt) ;;
      (if sem_gabarito letra_correta then
         print (lit "ERRO: pergunta sem gabarito (linha 'G: X') -> "
                ++ enunciado) ;;
         sys_exit 1
       else ret tt) ;;
      let letra_correta :=
        match letra_correta with Some s => s | None => [] end in
      (if negb (member letra_correta alternativas_letras) then
         print (lit "ERRO: gabarito '" ++ upper letra_correta
                ++ lit "' n" ++ a_til ++ lit "o corresponde a "
                ++ lit "nenhuma alternativa em -> " ++ enunciado) ;;
         sys_exit 1
       else ret tt) ;;
      match index_of letra_correta alternativas_letras with
      | None => raise_ValueError
      | Some idx_correta =>
          ret (Some {| title := enunciado;
                       alternativas := alternativas_textos;
                       correta_idx := idx_correta |})
      end
  end.

Fixpoint montar (blocos : list (list str)) (perguntas : list Question)
  : proc (list Question) :=
  match blocos with
  | [] => ret perguntas
  | bloco_p :: resto =>
      q <- montar_pergunta bloco_p ;;
      montar resto
        (match q with Some q => perguntas ++ [q] | None => perguntas end)
  end.

(** Lines 161-184: the blocks of the lines of the text. *)
Definition separar_blocos (linhas : list str) : list (list str) :=
  let '(blocos, bloco_atual) := fold_left agrupar linhas ([], []) in
  if vazio bloco_atual then blocos else blocos ++ [bloco_atual].

Definition parse_bloco (bloco : str) : proc (list Question) :=
  let texto := strip_nl bloco in
  (if vazio texto then
     print (lit "Nenhum texto informado.") ;; sys_exit 1
   else ret tt) ;;
  let linhas := splitlines texto in
  let blocos := separar_blocos linhas in
  (if vazio blocos then
     print (lit "ERRO: Nenhum bloco de pergunta encontrado (P1:, P2:, ...).") ;;
     sys_exit 1
   else ret tt) ;;
  perguntas <- montar blocos [] ;;
  (if vazio perguntas then
     print (lit "ERRO: n" ++ a_til ++ lit "o consegui montar nenhuma pergunta.") ;;
     sys_exit 1
   else ret tt) ;;
  ret perguntas.

End V3.

(** ** [parse_bloco], version 5 *)

Module V5.

(** The first loop, over [linhas]: the state is [(blocos, bloco_atual)]. *)
Definition agrupar (st : list (list str) * list str) (linha : str)
  : list (list str) * list str :=
  let '(blocos, bloco_atual) := st in
  let s := strip linha in
  if vazio s then
    if vazio bloco_atual then st else (blocos, bloco_atual ++ [[]])
  else if re_inicio s then
    let blocos :=
      if vazio bloco_atual then blocos else blocos ++ [bloco_atual] in
    let depois :=
      if contains ":" s then strip (after_first ":" s) else [] in
    if vazio depois then (blocos, []) else (blocos, [depois])
  else (blocos, bloco_atual ++ [linha]).

(** The loop over [linhas_p[1:]]: the state is
    [(alternativas_textos, alternativas_letras, letra_correta)]. *)
Definition ler_linha (st : list str * list str * option str) (l : str)
  : list str * list str * option str :=
  let '(alternativas_textos, alternativas_letras, letra_correta) := st in
  match re_alt l with
  | Some (g1, g2) =>
      let letra := lower g1 in
      let texto_alt := strip g2 in
      (alternativas_textos ++ [texto_alt], alternativas_letras ++ [letra],
       letra_correta)
  | None =>
      match re_gab l with
      | Some g1 => (alternativas_textos, alternativas_letras, Some (lower g1))
      | None => st
      end
  end.

Definition ler_linhas (corpo : list str) : list str * list str * option str :=
  fold_left ler_linha corpo ([], [], None).

(** [not letra_correta] *)
Definition sem_gabarito (letra_correta : option str) : bool :=
  match letra_correta with None => true | Some s => vazio s end.

(** The body of the loop over [blocos]: [None] is [continue], [Some q] the
    question appended to [perguntas]. *)
Definition montar_pergunta (bloco_p : list str) : proc (option Question) :=
  let linhas_p :=
    map strip (filter (fun l => negb (vazio (strip l))) bloco_p) in
  match linhas_p with
  | [] => ret None
  | enunciado :: corpo =>
      let '(alternativas_textos, alternativas_letras, letra_correta) :=
        ler_linhas corpo in
      (if length alternativas_textos <? 2 then
         print (lit "ERRO: pergunta sem alternativas suficientes -> "
                ++ enunciado) ;;
         sys_exit 1
       else ret tt) ;;
      (if sem_gabarito letra_correta then
         print (lit "ERRO: pergunta sem gabarito (linha 'G: X') -> "
                ++ enunciado) ;;
         sys_exit 1
       else ret tt) ;;
      let letra_correta :=
        match letra_correta with Some s => s | None => [] end in
      (if negb (member letra_correta alternativas_letras) then
         print (lit "ERRO: gabarito '" ++ upper letra_correta
                ++ lit "' n" ++ a_til ++ lit "o corresponde a "
                ++ lit "nenhuma alternativa em -> " ++ enunciado) ;;
         sys_exit 1
       else ret tt) ;;
      match index_of letra_correta alternativas_letras with
      | None => raise_ValueError
      | Some idx_correta =>
          ret (Some {| title := enunciado;
                       alternativas := alternativas_textos;
                       correta_idx := idx_correta |})
      end
  end.

Fixpoint montar (blocos : list (list str)) (perguntas : list Question)
  : proc (list Question) :=
  match blocos with
  | [] => ret perguntas
  | bloco_p :: resto =>
      q <- montar_pergunta bloco_p ;;
      montar resto
        (match q with Some q => perguntas ++ [q] | None => perguntas end)
  end.

(** Lines 144-168: the blocks of the lines of the text. *)
Definition separar_blocos (linhas : list str) : list (list str) :=
  let '(blocos, bloco_atual) := fold_left agrupar linhas ([], []) in
  if vazio bloco_atual then blocos else blocos ++ [bloco_atual].

Definition parse_bloco (bloco : str) : proc (list Question) :=
  let texto := strip_nl bloco in
  (if vazio texto then
     print (lit "Nenhum texto informado.") ;; sys_exit 1
   else ret tt) ;;
  let linhas := splitlines texto in
  let blocos := separar_blocos linhas in
  (if vazio blocos then
     print (lit "ERRO: Nenhum bloco de pergunta encontrado (P1:, P2:, ...).") ;;
     sys_exit 1
   else ret tt) ;;
  perguntas <- montar blocos [] ;;
  (if vazio perguntas then
     print (lit "ERRO: n" ++ a_til ++ lit "o consegui montar nenhuma pergunta.") ;;
     sys_exit 1
   else ret tt) ;;
  ret perguntas.

End V5.

(** ** The vocabulary of the specification *)

Import V5.

(** Example texts are written line by line and joined with a line feed,
    as [main] joins the pasted lines. *)
Definition nl : str := [chr 10].

Fixpoint join_nl (linhas : list str) : str :=
  match linhas with
  | [] => []
  | [l] => l
  | l :: r => l ++ nl ++ join_nl r
  end.

Definition texto (linhas : list string) : str := join_nl (map lit linhas).

(** The failure kinds of the error taxonomy; the per-block kinds carry
    what the message reports. *)
Inductive Failure : Type :=
| EmptyInput
| NoQuestionBlocks
| InsufficientChoices (titulo : str)
| MissingAnswerKey (titulo : str)
| AnswerKeyMismatch (letra titulo : str)
| NoValidQuestions.

(** The message the source prints for each kind. *)
Definition mensagem (f : Failure) : str :=
  match f with
  | EmptyInput => lit "Nenhum texto informado."
  | NoQuestionBlocks =>
      lit "ERRO: Nenhum bloco de pergunta encontrado (P1:, P2:, ...)."
  | InsufficientChoices t =>
      lit "ERRO: pergunta sem alternativas suficientes -> " ++ t
  | MissingAnswerKey t =>
      lit "ERRO: pergunta sem gabarito (linha 'G: X') -> " ++ t
  | AnswerKeyMismatch k t =>
      lit "ERRO: gabarito '" ++ k ++ lit "' n" ++ a_til
      ++ lit "o corresponde a nenhuma alternativa em -> " ++ t
  | NoValidQuestions =>
      lit "ERRO: n" ++ a_til ++ lit "o consegui montar nenhuma pergunta."
  end.

(** A call fails with kind [f]: it prints the message of [f] and nothing
    else, and ends the program with status 1. *)
Definition falha {A} (f : Failure) : proc A := ([mensagem f], SystemExit 1).

(** The lines of a text, as [parse_bloco] reads them. *)
Definition linhas_de (bloco : str) : list str := splitlines (strip_nl bloco).

Definition blocos_de (bloco : str) : list (list str) :=
  separar_blocos (linhas_de bloco).

(** The non-empty lines of a block, trimmed. *)
Definition linhas_uteis (b : list str) : list str :=
  filter (fun l => negb (vazio l)) (map strip b).

Definition enunciado_de (b : list str) : option str := hd_error (linhas_uteis b).

Definition corpo_de (b : list str) : list str := tl (linhas_uteis b).

(** The alternatives of a block in encounter order, as pairs of the letter
    (lower case) and the text. *)
Definition alternativa_de (l : str) : list (str * str) :=
  match re_alt l with
  | Some (g1, g2) => [(lower g1, strip g2)]
  | None => []
  end.

Definition alternativas_de (b : list str) : list (str * str) :=
  flat_map alternativa_de (corpo_de b).

Definition letras_de (b : list str) : list str := map fst (alternativas_de b).
Definition textos_de (b : list str) : list str := map snd (alternativas_de b).

(** The letters (lower case) of the answer-key lines of a block, in
    encounter order. *)
Definition gabarito_da_linha (l : str) : list str :=
  match re_gab l with
  | Some g1 => [lower g1]
  | None => []
  end.

Definition gabaritos_de (b : list str) : list str :=
  flat_map gabarito_da_linha (corpo_de b).

Definition primeiro_gabarito (b : list str) : option str :=
  hd_error (gabaritos_de b).

Definition ultimo_gabarito (b : list str) : option str :=
  hd_error (rev (gabaritos_de b)).

(** [i] is the position of the letter [k] among [letras]. *)
Definition posicao (k : str) (letras : list str) (i : nat) : Prop :=
  nth_error letras i = Some k /\
  forall j, j < i -> nth_error letras j <> Some k.

(** A block validates: two alternatives or more, an answer key, and the
    key among the letters of the alternatives. *)
Definition bloco_valido (b : list str) : bool :=
  (2 <=? length (alternativas_de b)) &&
  match ultimo_gabarito b with
  | Some k => member k (letras_de b)
  | None => false
  end.

(** The question [q] is the one the block [b] describes. *)
Definition retrata (b : list str) (q : Question) : Prop :=
  enunciado_de b = Some (title q) /\
  alternativas q = textos_de b /\
  exists k, ultimo_gabarito b = Some k /\
            posicao k (letras_de b) (correta_idx q).

(** Question-start lines and the segments they open: the lines before the
    first question-start line, and for each question-start line the text
    after its colon followed by the lines up to the next one. *)
Definition e_inicio (linha : str) : bool := re_inicio (strip linha).

Definition depois_de (linha : str) : str :=
  strip (after_first ":" (strip linha)).

Fixpoint ate_inicio (linhas : list str) : list str :=
  match linhas with
  | [] => []
  | l :: r => if e_inicio l then [] else l :: ate_inicio r
  end.

Fixpoint segmentos (linhas : list str) : list (list str) :=
  match linhas with
  | [] => []
  | l :: r =>
      if e_inicio l then (depois_de l :: ate_inicio r) :: segmentos r
      else segmentos r
  end.

Definition com_conteudo (seg : list str) : bool :=
  negb (vazio (linhas_uteis seg)).

(** The question [q] comes from the segment [seg]: its title is the first
    non-empty line, and its [j]-th choice the text of the [j]-th
    alternative line. *)
Definition corresponde (seg : list str) (q : Question) : Prop :=
  enunciado_de seg = Some (title q) /\
  forall j, nth_error (alternativas q) j
            = option_map snd (nth_error (alternativas_de seg) j).

(** Two failures of the same kind. *)
Definition mesmo_tipo (f g : Failure) : bool :=
  match f, g with
  | EmptyInput, EmptyInput
  | NoQuestionBlocks, NoQuestionBlocks
  | InsufficientChoices _, InsufficientChoices _
  | MissingAnswerKey _, MissingAnswerKey _
  | AnswerKeyMismatch _ _, AnswerKeyMismatch _ _
  | NoValidQuestions, NoValidQuestions => true
  | _, _ => false
  end.

(** A line that opens or feeds no block: blank, or a question-start line
    with nothing after its colon. *)
Definition sem_conteudo (linha : str) : bool :=
  vazio (strip linha) || (e_inicio linha && vazio (depois_de linha)).

(** The blocks once the loop over the lines has ended (lines 167-168). *)
Definition fecha (st : list (list str) * list str) : list (list str) :=
  let '(blocos, bloco_atual) := st in
  if vazio bloco_atual then blocos else blocos ++ [bloco_atual].

Definition nao_vazias (us : list (list str)) : list (list str) :=
  filter (fun u => negb (vazio u)) us.

(** The kinds that blame one block. *)
Definition de_bloco (f : Failure) : bool :=
  match f with
  | InsufficientChoices _ | MissingAnswerKey _ | AnswerKeyMismatch _ _ => true
  | _ => false
  end.

(** What the loop body does with a block, read off the block: the first
    of the three checks that fails, or the question. *)
Definition julgar (b : list str) : proc (option Question) :=
  match enunciado_de b with
  | None => ret None
  | Some e =>
      if length (alternativas_de b) <? 2 then falha (InsufficientChoices e)
      else
        match ultimo_gabarito b with
        | None => falha (MissingAnswerKey e)
        | Some k =>
            match index_of k (letras_de b) with
            | None => falha (AnswerKeyMismatch (upper k) e)
            | Some i =>
                ret (Some {| title := e; alternativas := textos_de b;
                             correta_idx := i |})
            end
        end
  end.

(** ** Letter case of the three markers

    The canonical form of a text lowers the [P] of every question-start
    line, the letter of every alternative line, and the [G] and the letter
    of every answer-key line.  The first content line of a block is its
    title and is left as it is; [pendente] tells that the next content line
    is a title. *)

Fixpoint minuscula_inicio (l : str) : str :=
  match l with
  | [] => []
  | c :: r => if isspace c then c :: minuscula_inicio r else lower_char c :: r
  end.

Fixpoint minuscula_gabarito (l : str) : str :=
  match l with
  | [] => []
  | c :: r =>
      if isspace c then c :: minuscula_gabarito r
      else lower_char c ::
           match r with
           | p :: r' => p :: minuscula_inicio r'
           | [] => []
           end
  end.

Definition canonica_linha (pendente : bool) (linha : str) : str :=
  let s := strip linha in
  if vazio s then linha
  else if re_inicio s then minuscula_inicio linha
  else if pendente then linha
  else
    match re_alt s with
    | Some _ => minuscula_inicio linha
    | None =>
        match re_gab s with
        | Some _ => minuscula_gabarito linha
        | None => linha
        end
    end.

Definition titulo_pendente (pendente : bool) (linha : str) : bool :=
  let s := strip linha in
  if vazio s then pendente
  else if re_inicio s then vazio (depois_de linha)
  else false.

Fixpoint canonica (pendente : bool) (linhas : list str) : list str :=
  match linhas with
  | [] => []
  | l :: r =>
      canonica_linha pendente l :: canonica (titulo_pendente pendente l) r
  end.

(** ** The canonical form of a text

    [s.splitlines(keepends=True)], each line as the pair of its text and
    its line boundary (empty for a last line with no boundary). *)
Fixpoint linhas_e_fins_from (cur : str) (s : str) : list (str * str) :=
  match s with
  | [] => match cur with [] => [] | _ => [(rev cur, [])] end
  | c :: s' =>
      if is_linebreak c then
        match s' with
        | d :: s'' =>
            if Ascii.eqb c (chr 13) && Ascii.eqb d (chr 10)
            then (rev cur, [c; d]) :: linhas_e_fins_from [] s''
            else (rev cur, [c]) :: linhas_e_fins_from [] s'
        | [] => (rev cur, [c]) :: linhas_e_fins_from [] s'
        end
      else linhas_e_fins_from (c :: cur) s'
  end.

Definition linhas_e_fins (s : str) : list (str * str) :=
  linhas_e_fins_from [] s.

(** The text of lines with their boundaries. *)
Fixpoint colar (pares : list (str * str)) : str :=
  match pares with
  | [] => []
  | (l, fim) :: r => l ++ fim ++ colar r
  end.

(** The text with every line in canonical form and every line boundary
    as it is. *)
Definition canonica_texto (bloco : str) : str :=
  let pares := linhas_e_fins bloco in
  colar (combine (canonica true (map fst pares)) (map snd pares)).

(** Two characters that may stand at the same place of a text and of its
    canonical form. *)
Definition par_de_caixa (c c' : ascii) : Prop :=
  is_linebreak c = is_linebreak c' /\ (is_linebreak c = true -> c = c').

Definition mesma_forma (p p' : str * str) : Prop :=
  length (fst p) = length (fst p') /\ snd p = snd p'.

(** What the loop body reads of a block: its title, its alternatives and
    the letters of its answer-key lines. *)
Definition resumo (b : list str) : option str * list (str * str) * list str :=
  (enunciado_de b, alternativas_de b, gabaritos_de b).

(** ** Example texts *)

Local Open Scope string_scope.

(** Scenario 1 of the specification. *)
Definition cenario_1 : str :=
  texto ["P1: Why is safety important?"; "A) Reason one"; "B) Reason two";
         "G: B"].

(** Scenario 5: the key names no alternative. *)
Definition cenario_5 : str := texto ["P1: Q"; "A) x"; "B) y"; "G: C"].

(** One alternative only, and a key that names no alternative. *)
Definition uma_alternativa : str := texto ["P1: Q"; "A) x"; "G: C"].

(** Two answer-key lines in one block. *)
Definition dois_gabaritos : str :=
  texto ["P1: Q"; "A) x"; "B) y"; "G: A"; "G: B"].

(** A question written before the first question-start line. *)
Definition sem_primeiro_marcador : str :=
  texto ["Intro"; "A) x"; "B) y"; "G: A"; "P1: Q"; "A) u"; "B) v"; "G: B"].

(** Two questions, the second in lower case. *)
Definition duas_perguntas : str :=
  texto ["P1: Q1"; "A) x"; "B) y"; "G: A"; ""; "p2: Q2"; "a) u"; "b) v";
         "g: b"].

(** Scenario 1 in upper case and in lower case. *)
Definition em_maiusculas : str :=
  texto ["P1: Why is safety important?"; "A) Reason one"; "B) Reason two";
         "G: B"].

Definition em_minusculas : str :=
  texto ["p1: Why is safety important?"; "a) Reason one"; "b) Reason two";
         "g: b"].

(** A block whose title looks like an alternative, and its canonical
    form. *)
Definition titulo_com_letra : str :=
  texto ["P1:"; "A) x"; "B) y"; "C) z"; "G: C"].

Definition titulo_canonico : str :=
  texto ["p1:"; "A) x"; "b) y"; "c) z"; "g: c"].

Local Close Scope string_scope.

(** ** Further example texts *)

Local Open Scope string_scope.

(** Scenarios 3 and 4 of the specification. *)
Definition cenario_3 : str := texto ["P1: Q"; "A) only one"; "G: A"].
Definition cenario_4 : str := texto ["P1: Q"; "A) x"; "B) y"].

(** A block in which the letter [A] labels two alternatives. *)
Definition letra_repetida : str :=
  texto ["P1: Q"; "A) x"; "B) y"; "a) z"; "G: A"].

Local Close Scope string_scope.

(** The first alternative with the letter [k], as a pair of the letter
    and the text. *)
Definition primeira_com_letra (k : str) (alts : list (str * str))
  : option (str * str) :=
  find (fun p => if list_eq_dec ascii_dec (fst p) k then true else false) alts.

(** * The rest of the script

    The functions around [parse_bloco] in
    [classroom_criar_atividade_com_teste_V5.py] and
    [classroom_criar_atividade_com_teste_V3.py]: the choice of a course and
    of a topic, the requests that build the quiz and the assignment, and
    [main] from the point where it holds the services. *)

(** ** JSON values, for the bodies of the requests *)

Local Unset Elimination Schemes.

Inductive json : Type :=
| JNone
| JBool (b : bool)
| JInt (n : Z)
| JStr (s : str)
| JList (l : list json)
| JDict (d : list (str * json)).

Local Set Elimination Schemes.

(** [str(x)] for a string or [None], as [print] and f-strings show it. *)
Definition str_de (x : option str) : str :=
  match x with Some s => s | None => lit "None" end.

(** A string or [None] as a JSON value. *)
Definition json_de (x : option str) : json :=
  match x with Some s => JStr s | None => JNone end.

(** ** [int(s)] and [f"{i:2d}"] *)

(** The white space [int] skips at both ends: the ASCII white space of C,
    and the other white space of [str.isspace] outside ASCII. *)
Definition isspace_int (c : ascii) : bool :=
  in_range (chr 9) (chr 13) c || Ascii.eqb c " "
  || Ascii.eqb c (chr 133) || Ascii.eqb c (chr 160).

Definition valor_digito (c : ascii) : Z := Z.of_nat (nat_of_ascii c) - 48.

(** The digits of a number: one digit or more, single underscores between
    digits only.  [apos_digito] tells that the character before is a
    digit. *)
Fixpoint ler_digitos (acc : Z) (apos_digito : bool) (s : str) : option Z :=
  match s with
  | [] => if apos_digito then Some acc else None
  | c :: r =>
      if isdigit c then ler_digitos (10 * acc + valor_digito c) true r
      else if Ascii.eqb c "_" && apos_digito then ler_digitos acc false r
      else None
  end.

(** The longest number [int] converts, in digits
    ([sys.int_info.default_max_str_digits]). *)
Definition max_str_digits : nat := 4300.

(** [int(s)]: [None] where Python raises [ValueError], which it does too
    for a number of more than [max_str_digits] digits, leading zeros
    counted. *)
Definition py_int (s : str) : option Z :=
  let t := strip_by isspace_int s in
  if max_str_digits <? length (filter isdigit t) then None
  else
    match t with
    | "-"%char :: r => option_map Z.opp (ler_digitos 0 false r)
    | "+"%char :: r => ler_digitos 0 false r
    | r => ler_digitos 0 false r
    end.

(** The decimal digits of a natural number. *)
Definition decimal (n : nat) : str :=
  lit (NilEmpty.string_of_uint (Nat.to_uint n)).

(** [f"{i:2d}"]: the number in two columns or more, aligned to the
    right. *)
Definition fmt_2d (i : nat) : str :=
  let d := decimal i in
  repeat " "%char (2 - length d) ++ d.

(** ** String literals of the script

    A literal as [ascii] shows it in Python: [\n], [\\], [\'] and [\xHH]
    are escapes, every other character stands for itself. *)
Definition valor_hex (c : ascii) : nat :=
  if isdigit c then nat_of_ascii c - 48
  else if in_range "a" "f" c then nat_of_ascii c - 87
  else nat_of_ascii c - 55.

Fixpoint escapes (s : str) : str :=
  match s with
  | "\"%char :: "n"%char :: r => chr 10 :: escapes r
  | "\"%char :: "x"%char :: h :: l :: r =>
      chr (16 * valor_hex h + valor_hex l) :: escapes r
  | "\"%char :: c :: r => c :: escapes r
  | c :: r => c :: escapes r
  | [] => []
  end.

Definition py (s : string) : str := escapes (lit s).

(** ** The world of the script: standard input and output, and the
    services *)

(** What the script reads of a course and of a topic; both fields are
    always present in the answers of the service. *)
Record Curso : Type := mkCurso { curso_id : str; curso_name : str }.
Record Tema : Type := mkTema { tema_topicId : str; tema_name : str }.

(** The requests the script executes. *)
Inductive chamada : Type :=
| courses_list (pageSize : Z) (courseStates : list str)
               (pageToken : option str)
| topics_list (courseId : str)
| forms_create (body : json)
| permissions_create (fileId : str) (body : json) (fields : str)
| forms_batchUpdate (formId : str) (body : json)
| forms_get (formId : str)
| courseWork_create (courseId : str) (body : json).

(** What a run shows: the lines printed, the prompts of [input], and the
    requests executed, in order. *)
Inductive evento : Type :=
| Print (s : str)
| Prompt (s : str)
| Execute (c : chamada).

(** What [.execute()] gives: the part of the answer the script reads, or
    an [HttpError].  The answer to a request depends on the request
    only. *)
Inductive resposta (A : Type) : Type :=
| Corpo (a : A)
| ErroHttp (e : str).
Arguments Corpo {A} a.
Arguments ErroHttp {A} e.

Record Servidor : Type := {
  (* the courses of a page and its [nextPageToken] *)
  ao_courses_list : option str -> resposta (list Curso * option str);
  (* the topics of a course *)
  ao_topics_list : str -> resposta (list Tema);
  (* the [formId] of the form created *)
  ao_forms_create : json -> resposta str;
  ao_permissions_create : str -> json -> resposta unit;
  ao_forms_batchUpdate : str -> json -> resposta unit;
  (* the [responderUri] of a form, if it has one *)
  ao_forms_get : str -> resposta (option str);
  (* the [id] of the coursework created *)
  ao_courseWork_create : str -> json -> resposta str
}.

Inductive excecao : Type :=
| SysExit (code : Z)
| EOFError
| IndexError
| ValueErro
| HttpError (e : str).

(** How a call ends; [SemFim] is a [while True] over the pages of the
    service that did not stop within the steps allowed. *)
Inductive fim (A : Type) : Type :=
| Retorna (a : A)
| Levanta (x : excecao)
| SemFim.
Arguments Retorna {A} a.
Arguments Levanta {A} x.
Arguments SemFim {A}.

(** A piece of the script: from the services and the lines left on
    standard input to the events, the lines left, and the end. *)
Definition prog (A : Type) : Type :=
  Servidor -> list str -> list evento * list str * fim A.

Definition retorna {A} (a : A) : prog A := fun _ e => ([], e, Retorna a).

Definition seguir {A B} (m : prog A) (f : A -> prog B) : prog B :=
  fun srv e =>
    match m srv e with
    | (ev, e', Retorna a) =>
        let '(ev', e'', r) := f a srv e' in (ev ++ ev', e'', r)
    | (ev, e', Levanta x) => (ev, e', Levanta x)
    | (ev, e', SemFim) => (ev, e', SemFim)
    end.

Definition levanta {A} (x : excecao) : prog A :=
  fun _ e => ([], e, Levanta x).

Definition sem_fim {A} : prog A := fun _ e => ([], e, SemFim).

(** [print(s)] *)
Definition escreve (s : str) : prog unit :=
  fun _ e => ([Print s], e, Retorna tt).

(** [input(prompt)]: [EOFError] at the end of the input. *)
Definition input (prompt : str) : prog str :=
  fun _ e =>
    match e with
    | [] => ([Prompt prompt], [], Levanta EOFError)
    | linha :: resto => ([Prompt prompt], resto, Retorna linha)
    end.

(** [request.execute()] *)
Definition execute {A} (c : chamada) (r : Servidor -> resposta A) : prog A :=
  fun srv e =>
    match r srv with
    | Corpo a => ([Execute c], e, Retorna a)
    | ErroHttp x => ([Execute c], e, Levanta (HttpError x))
    end.

(** [try: m  except HttpError as e: h e] *)
Definition tentar {A} (m : prog A) (h : str -> prog A) : prog A :=
  fun srv e =>
    match m srv e with
    | (ev, e', Levanta (HttpError x)) =>
        let '(ev', e'', r) := h x srv e' in (ev ++ ev', e'', r)
    | o => o
    end.

(** A call of [parse_bloco] inside the script. *)
Definition de_proc {A} (p : proc A) : prog A :=
  fun _ e =>
    (map Print (fst p), e,
     match snd p with
     | Value a => Retorna a
     | SystemExit code => Levanta (SysExit code)
     | ValueError => Levanta ValueErro
     end).

Declare Scope prog_scope.
Delimit Scope prog_scope with prog.
Notation "x <- m ;; k" := (seguir m (fun x => k))
  (at level 61, m at next level, right associativity) : prog_scope.
Notation "m ;; k" := (seguir m (fun _ => k))
  (at level 61, right associativity) : prog_scope.

(** Python's truth value of a string or [None]. *)
Definition verdadeiro (x : option str) : bool :=
  match x with Some s => negb (vazio s) | None => false end.

(** ** The script, version 5 *)

Module Script_V5.

Local Open Scope prog_scope.

(** *** [escolher_turma] (lines 60-91) *)

(** The loop over the pages (lines 64-73), [n] pages at most; the state
    is [(cursos, page_token)]. *)
Fixpoint listar_paginas (n : nat) (page_token : option str)
         (cursos : list Curso) : prog (list Curso) :=
  match n with
  | 0 => sem_fim
  | S n' =>
      resp <- execute (courses_list 100 [lit "ACTIVE"] page_token)
                      (fun srv => ao_courses_list srv page_token) ;;
      let cursos := cursos ++ fst resp in
      let page_token := snd resp in
      if negb (verdadeiro page_token) then retorna cursos
      else listar_paginas n' page_token cursos
  end.

(** The loop of lines 80-81, [i] counting from 1. *)
Fixpoint imprimir_turmas (i : nat) (cursos : list Curso) : prog unit :=
  match cursos with
  | [] => retorna tt
  | c :: r =>
      escreve (fmt_2d i ++ lit " - " ++ curso_name c ++ lit " (ID "
               ++ curso_id c ++ lit ")") ;;
      imprimir_turmas (S i) r
  end.

(** The loop of lines 83-91: one line of input for each turn. *)
Fixpoint perguntar_turma (cursos : list Curso) (entrada : list str)
  : list evento * list str * fim Curso :=
  let prompt := Prompt (py "\nEscolha o n\xfamero da turma: ") in
  match entrada with
  | [] => ([prompt], [], Levanta EOFError)
  | linha :: resto =>
      let op := strip linha in
      let invalida :=
        let '(ev, e, r) := perguntar_turma cursos resto in
        (prompt :: Print (py "Op\xe7\xe3o inv\xe1lida.") :: ev, e, r) in
      match py_int op with
      | Some x =>
          if (1 <=? x)%Z && (x <=? Z.of_nat (length cursos))%Z then
            match nth_error cursos (Z.to_nat (x - 1)) with
            | Some c => ([prompt], resto, Retorna c)
            | None => ([prompt], resto, Levanta IndexError)
            end
          else invalida
      | None => invalida
      end
  end.

Definition escolher_turma (n : nat) : prog Curso :=
  cursos <- listar_paginas n None [] ;;
  (if vazio cursos then
     escreve (lit "Nenhuma turma ativa encontrada.") ;; levanta (SysExit 0)
   else retorna tt) ;;
  escreve (py "\n=== TURMAS DISPON\xcdVEIS ===") ;;
  imprimir_turmas 1 cursos ;;
  (fun _ => perguntar_turma cursos).

(** *** [escolher_tema] (lines 97-127) *)

Fixpoint imprimir_temas (i : nat) (temas : list Tema) : prog unit :=
  match temas with
  | [] => retorna tt
  | t :: r =>
      escreve (fmt_2d i ++ lit " - " ++ tema_name t ++ lit " (ID "
               ++ tema_topicId t ++ lit ")") ;;
      imprimir_temas (S i) r
  end.

(** The loop of lines 117-127. *)
Fixpoint perguntar_tema (temas : list Tema) (entrada : list str)
  : list evento * list str * fim (option str) :=
  let prompt :=
    Prompt (py "\nEscolha o n\xfamero do tema (0 para sem tema): ") in
  match entrada with
  | [] => ([prompt], [], Levanta EOFError)
  | linha :: resto =>
      let op := strip linha in
      let invalida :=
        let '(ev, e, r) := perguntar_tema temas resto in
        (prompt :: Print (py "Op\xe7\xe3o inv\xe1lida.") :: ev, e, r) in
      match py_int op with
      | Some x =>
          if (x =? 0)%Z then ([prompt], resto, Retorna None)
          else if (1 <=? x)%Z && (x <=? Z.of_nat (length temas))%Z then
            match nth_error temas (Z.to_nat (x - 1)) with
            | Some t => ([prompt], resto, Retorna (Some (tema_topicId t)))
            | None => ([prompt], resto, Levanta IndexError)
            end
          else invalida
      | None => invalida
      end
  end.

Definition escolher_tema (curso : Curso) : prog (option str) :=
  temas <- execute (topics_list (curso_id curso))
                   (fun srv => ao_topics_list srv (curso_id curso)) ;;
  if vazio temas then
    escreve (py "\nNenhum tema cadastrado para esta turma. A atividade ser\xe1 criada SEM tema.") ;;
    retorna None
  else
    escreve (py "\n=== TEMAS DISPON\xcdVEIS PARA A TURMA ===") ;;
    escreve (lit " 0 - (Sem tema)") ;;
    imprimir_temas 1 temas ;;
    (fun _ => perguntar_tema temas).

(** *** [criar_quiz_forms] (lines 238-316) *)

(** The first request (lines 265-275). *)
Definition updateSettings : json :=
  JDict [(lit "updateSettings",
    JDict [(lit "settings",
             JDict [(lit "quizSettings", JDict [(lit "isQuiz", JBool true)]);
                    (lit "emailCollectionType", JStr (lit "RESPONDER_INPUT"))]);
           (lit "updateMask",
             JStr (lit "quizSettings.isQuiz,emailCollectionType"))])].

(** The request appended for the question [q] at position [i]
    (lines 281-304). *)
Definition createItem (i : nat) (q : Question) (correta : str) : json :=
  let item :=
    JDict [(lit "title", JStr (title q));
           (lit "questionItem",
             JDict [(lit "question",
               JDict [(lit "required", JBool true);
                      (lit "choiceQuestion",
                        JDict [(lit "type", JStr (lit "RADIO"));
                               (lit "options",
                                 JList (map (fun a => JDict [(lit "value", JStr a)])
                                            (alternativas q)));
                               (lit "shuffle", JBool false)]);
                      (lit "grading",
                        JDict [(lit "pointValue", JInt 1);
                               (lit "correctAnswers",
                                 JDict [(lit "answers",
                                   JList [JDict [(lit "value", JStr correta)]])])])])])] in
  JDict [(lit "createItem",
    JDict [(lit "item", item);
           (lit "location", JDict [(lit "index", JInt (Z.of_nat i))])])].

(** The loop of lines 277-304; [alternativas[q["correta_idx"]]] raises
    [IndexError] out of range. *)
Fixpoint montar_requests (i : nat) (questoes : list Question)
         (requests : list json) : prog (list json) :=
  match questoes with
  | [] => retorna requests
  | q :: r =>
      match nth_error (alternativas q) (correta_idx q) with
      | None => levanta IndexError
      | Some correta =>
          montar_requests (S i) r (requests ++ [createItem i q correta])
      end
  end.

Definition criar_quiz_forms (titulo : str) (questoes : list Question)
  : prog (str * option str) :=
  let body := JDict [(lit "info", JDict [(lit "title", JStr titulo)])] in
  form_id <- execute (forms_create body)
                     (fun srv => ao_forms_create srv body) ;;
  let permissao :=
    JDict [(lit "type", JStr (lit "anyone")); (lit "role", JStr (lit "reader"))] in
  tentar
    (execute (permissions_create form_id permissao (lit "id"))
             (fun srv => ao_permissions_create srv form_id permissao) ;;
     escreve (py "Permiss\xe3o de acesso ao Forms definida para 'Qualquer pessoa com o link'."))
    (fun e =>
       escreve (py "ATEN\xc7\xc3O: N\xe3o foi poss\xedvel definir permiss\xe3o p\xfablica do Drive. Verifique a configura\xe7\xe3o do seu dom\xednio ou fa\xe7a manualmente: " ++ e)) ;;
  requests <- montar_requests 0 questoes [updateSettings] ;;
  let corpo := JDict [(lit "requests", JList requests)] in
  execute (forms_batchUpdate form_id corpo)
          (fun srv => ao_forms_batchUpdate srv form_id corpo) ;;
  responder_uri <- execute (forms_get form_id)
                           (fun srv => ao_forms_get srv form_id) ;;
  escreve (py "\nForm criado com sucesso.") ;;
  escreve (lit "Link para responder: " ++ str_de responder_uri) ;;
  retorna (form_id, responder_uri).

(** *** [criar_atividade_classroom] (lines 322-359) *)

Definition corpo_atividade (titulo : str) (link : option str)
           (topic_id : option str) : json :=
  let body :=
    [(lit "title", JStr titulo);
     (lit "description", JStr (py "Avalia\xe7\xe3o criada automaticamente."));
     (lit "materials",
       JList [JDict [(lit "link",
         JDict [(lit "url", json_de link); (lit "title", JStr titulo)])]]);
     (lit "workType", JStr (lit "ASSIGNMENT"));
     (lit "state", JStr (lit "PUBLISHED"));
     (lit "maxPoints", JInt 10)] in
  if verdadeiro topic_id
  then JDict (body ++ [(lit "topicId", json_de topic_id)])
  else JDict body.

Definition criar_atividade_classroom (curso : Curso) (titulo : str)
           (link : option str) (topic_id : option str) : prog str :=
  let body := corpo_atividade titulo link topic_id in
  trabalho <- execute (courseWork_create (curso_id curso) body)
                      (fun srv => ao_courseWork_create srv (curso_id curso) body) ;;
  escreve (lit "Tarefa criada no Classroom (ID: " ++ trabalho ++ lit ").") ;;
  retorna trabalho.

(** *** [main], from line 374 on *)

(** The loop of lines 392-400: the lines up to the line [fim] or to the
    end of the input. *)
Fixpoint ler_linhas_bloco (entrada : list str) (linhas_bloco : list str)
  : list evento * list str * fim (list str) :=
  match entrada with
  | [] => ([], [], Retorna linhas_bloco)
  | linha :: resto =>
      if list_eq_dec ascii_dec (lower (strip linha)) (lit "fim")
      then ([], resto, Retorna linhas_bloco)
      else ler_linhas_bloco resto (linhas_bloco ++ [linha])
  end.

(** Line 377. *)
Definition ler_titulo : prog str :=
  resposta <- input (py "\nT\xedtulo da avalia\xe7\xe3o: ") ;;
  let t := strip resposta in
  retorna (if vazio t then py "Avalia\xe7\xe3o" else t).

Definition instrucoes : list str :=
  [py "\nCole TODAS as perguntas, alternativas e o gabarito no formato:";
   lit "P1: Pergunta"; lit "A) ..."; lit "B) ..."; lit "C) ..."; lit "D) ...";
   lit "E) ..."; py "G: B\xa0 \xa0(gabarito da quest\xe3o)"; lit "P2: ...";
   lit "..."; py "\nQuando terminar de colar, digite UMA LINHA S\xd3 com: fim";
   py "e pressione ENTER.\n"].

Fixpoint escrever_todas (linhas : list str) : prog unit :=
  match linhas with
  | [] => retorna tt
  | l :: r => escreve l ;; escrever_todas r
  end.

(** [main] once it holds the services (lines 374-417); [n] bounds the
    pages of courses read. *)
Definition main (n : nat) : prog unit :=
  turma <- escolher_turma n ;;
  topic_id <- escolher_tema turma ;;
  titulo <- ler_titulo ;;
  escrever_todas instrucoes ;;
  linhas_bloco <- (fun _ e => ler_linhas_bloco e []) ;;
  let bloco := join_nl linhas_bloco in
  questoes <- de_proc (V5.parse_bloco bloco) ;;
  par <- criar_quiz_forms titulo questoes ;;
  let '(form_id, link) := par in
  coursework_id <- criar_atividade_classroom turma titulo link topic_id ;;
  escreve (py "\nProcesso conclu\xeddo.") ;;
  escreve (py "Link da avalia\xe7\xe3o (para fins de verifica\xe7\xe3o): "
           ++ str_de link) ;;
  escreve (lit "ID do Form: " ++ form_id) ;;
  escreve (lit "ID do trabalho no Classroom (courseWorkId): " ++ coursework_id).

End Script_V5.

(** ** The script, version 3: [criar_quiz_forms] (lines 252-313)

    Version 3 has no Drive service: the form is created, updated and read,
    and its access is left as it is. *)

Module Script_V3.

Local Open Scope prog_scope.

(** The first request (lines 261-271). *)
Definition updateSettings : json :=
  JDict [(lit "updateSettings",
    JDict [(lit "settings",
             JDict [(lit "quizSettings", JDict [(lit "isQuiz", JBool true)]);
                    (lit "emailCollectionType", JStr (lit "RESPONDER_INPUT"))]);
           (lit "updateMask",
             JStr (lit "quizSettings.isQuiz,emailCollectionType"))])].

(** The request appended for the question [q] at position [i]
    (lines 278-301). *)
Definition createItem (i : nat) (q : Question) (correta : str) : json :=
  let item :=
    JDict [(lit "title", JStr (title q));
           (lit "questionItem",
             JDict [(lit "question",
               JDict [(lit "required", JBool true);
                      (lit "choiceQuestion",
                        JDict [(lit "type", JStr (lit "RADIO"));
                               (lit "options",
                                 JList (map (fun a => JDict [(lit "value", JStr a)])
                                            (alternativas q)));
                               (lit "shuffle", JBool false)]);
                      (lit "grading",
                        JDict [(lit "pointValue", JInt 1);
                               (lit "correctAnswers",
                                 JDict [(lit "answers",
                                   JList [JDict [(lit "value", JStr correta)]])])])])])] in
  JDict [(lit "createItem",
    JDict [(lit "item", item);
           (lit "location", JDict [(lit "index", JInt (Z.of_nat i))])])].

(** The loop of lines 274-301. *)
Fixpoint montar_requests (i : nat) (questoes : list Question)
         (requests : list json) : prog (list json) :=
  match questoes with
  | [] => retorna requests
  | q :: r =>
      match nth_error (alternativas q) (correta_idx q) with
      | None => levanta IndexError
      | Some correta =>
          montar_requests (S i) r (requests ++ [createItem i q correta])
      end
  end.

Definition criar_quiz_forms (titulo : str) (questoes : list Question)
  : prog (str * option str) :=
  let body := JDict [(lit "info", JDict [(lit "title", JStr titulo)])] in
  form_id <- execute (forms_create body)
                     (fun srv => ao_forms_create srv body) ;;
  requests <- montar_requests 0 questoes [updateSettings] ;;
  let corpo := JDict [(lit "requests", JList requests)] in
  execute (forms_batchUpdate form_id corpo)
          (fun srv => ao_forms_batchUpdate srv form_id corpo) ;;
  responder_uri <- execute (forms_get form_id)
                           (fun srv => ao_forms_get srv form_id) ;;
  escreve (py "\nForm criado com sucesso.") ;;
  escreve (lit "Link para responder: " ++ str_de responder_uri) ;;
  retorna (form_id, responder_uri).

End Script_V3.

(** ** Vocabulary for the runs of the script *)

(** The requests executed in a run, in order. *)
Definition chamadas (ev : list evento) : list chamada :=
  flat_map (fun e => match e with Execute c => [c] | _ => [] end) ev.

(** The lines printed in a run, in order. *)
Definition impressos (ev : list evento) : list str :=
  flat_map (fun e => match e with Print s => [s] | _ => [] end) ev.

(** A question whose correct index is within its choices. *)
Definition indice_valido (q : Question) : Prop :=
  correta_idx q < length (alternativas q).

(** The pages of courses the service gives from the token [t] on: for
    each page the token asked and the courses got, up to the first page
    without a next token. *)
Inductive paginas (srv : Servidor)
  : option str -> list (option str * list Curso) -> Prop :=
| paginas_ultima t cs nxt :
    ao_courses_list srv t = Corpo (cs, nxt) ->
    verdadeiro nxt = false ->
    paginas srv t [(t, cs)]
| paginas_mais t cs nxt ps :
    ao_courses_list srv t = Corpo (cs, nxt) ->
    verdadeiro nxt = true ->
    paginas srv nxt ps ->
    paginas srv t ((t, cs) :: ps).

(** The courses of all the pages. *)
Definition cursos_de (ps : list (option str * list Curso)) : list Curso :=
  flat_map snd ps.

(** The line that ends the text typed (line 398). *)
Definition e_fim (linha : str) : bool :=
  if list_eq_dec ascii_dec (lower (strip linha)) (lit "fim") then true
  else false.

(** A line without a line boundary of [str.splitlines]. *)
Definition sem_quebra (l : str) : bool :=
  forallb (fun c => negb (is_linebreak c)) l.

(** Lines without the empty ones at the start, and at both ends. *)
Fixpoint sem_vazias_inicio (ls : list str) : list str :=
  match ls with
  | [] :: r => sem_vazias_inicio r
  | _ => ls
  end.

Definition aparar_vazias (ls : list str) : list str :=
  rev (sem_vazias_inicio (rev (sem_vazias_inicio ls))).

(** The requests of a run without those to the Drive service. *)
Definition sem_permissao (cs : list chamada) : list chamada :=
  filter (fun c => match c with
                   | permissions_create _ _ _ => false
                   | _ => true
                   end) cs.

(** The step of the script a request belongs to. *)
Definition etapa (c : chamada) : nat :=
  match c with
  | courses_list _ _ _ => 0
  | topics_list _ => 1
  | forms_create _ => 2
  | permissions_create _ _ _ => 3
  | forms_batchUpdate _ _ => 4
  | forms_get _ => 5
  | courseWork_create _ _ => 6
  end.

Definition etapas (ev : list evento) : list nat := map etapa (chamadas ev).

(** A line that is not blank. *)
Definition nao_branca (l : str) : bool := negb (vazio (strip l)).

(** ** Examples of services and of input *)

Local Open Scope string_scope.

Definition turma_a : Curso := mkCurso (lit "c1") (lit "Turma A").
Definition turma_b : Curso := mkCurso (lit "c2") (lit "Turma B").
Definition tema_1 : Tema := mkTema (lit "t1") (lit "Tema 1").

(** Two pages of one course each, one topic in every course, and a Drive
    service that refuses the permission. *)
Definition servidor_exemplo : Servidor := {|
  ao_courses_list := fun t =>
    match t with
    | None => Corpo ([turma_a], Some (lit "p2"))
    | Some _ => Corpo ([turma_b], None)
    end;
  ao_topics_list := fun _ => Corpo [tema_1];
  ao_forms_create := fun _ => Corpo (lit "F1");
  ao_permissions_create := fun _ _ => ErroHttp (lit "403");
  ao_forms_batchUpdate := fun _ _ => Corpo tt;
  ao_forms_get := fun _ => Corpo (Some (lit "https://forms/F1"));
  ao_courseWork_create := fun _ _ => Corpo (lit "W1")
|}.

Definition paginas_exemplo : list (option str * list Curso) :=
  [(None, [turma_a]); (Some (lit "p2"), [turma_b])].

(** Two refused choices of a course, then course 2, topic 1, a blank
    title, a question, the closing line and a line left unread. *)
Definition entrada_exemplo : list str :=
  map lit ["x"; "7"; " 2 "; "1"; ""; "P1: Q"; "A) x"; "b) y"; "G: b";
           " FIM "; "extra"].

(** Course 2, no topic, a title, and a question with one alternative. *)
Definition entrada_recusada : list str :=
  map lit ["2"; "0"; "Prova"; "P1: Q"; "A) x"; "fim"].

Definition pergunta_exemplo : Question :=
  {| title := lit "Q"; alternativas := [lit "x"; lit "y"]; correta_idx := 1 |}.

(** A question whose correct index is outside its choices. *)
Definition pergunta_indice_fora : Question :=
  {| title := lit "Q"; alternativas := [lit "x"; lit "y"]; correta_idx := 2 |}.

Local Close Scope string_scope.

(** * A wider character model: code points

    [parse_bloco] once more (version 5, lines 133-232), over strings of
    Unicode code points, to state the letter case of the markers beyond
    U+00FF.  The character classes are those of Python 3 with the tables
    of Unicode 14.0. *)

Module Unicode.

Local Open Scope N_scope.

(** A string: its code points. *)
Definition ustr := list N.

(** A string of the narrow model, character by character. *)
Definition de_latin1 (s : str) : ustr := map N_of_ascii s.

(** A literal of the source. *)
Definition ulit (s : string) : ustr := de_latin1 (lit s).

Definition entre (lo hi c : N) : bool := (lo <=? c) && (c <=? hi).

(** [str.isspace] on one character; also the class [\s] of [re]. *)
Definition isspace (c : N) : bool :=
  entre 9 13 c || entre 28 32 c || (c =? 133) || (c =? 160)
  || (c =? 5760) || entre 8192 8202 c || entre 8232 8233 c
  || (c =? 8239) || (c =? 8287) || (c =? 12288).

(** The line boundaries of [str.splitlines]. *)
Definition is_linebreak (c : N) : bool :=
  entre 10 13 c || entre 28 30 c || (c =? 133) || entre 8232 8233 c.

(** The class [\d] of [re]: the decimal digits, by the zero of each run of
    ten. *)
Definition zeros : list N :=
  [48; 1632; 1776; 1984; 2406; 2534; 2662; 2790; 2918; 3046; 3174; 3302;
   3430; 3558; 3664; 3792; 3872; 4160; 4240; 6112; 6160; 6470; 6608; 6784;
   6800; 6992; 7088; 7232; 7248; 42528; 43216; 43264; 43472; 43504; 43600;
   44016; 65296; 66720; 68912; 69734; 69872; 69942; 70096; 70384; 70736;
   70864; 71248; 71360; 71472; 71904; 72016; 72784; 73040; 73120; 92768;
   92864; 93008; 120782; 120792; 120802; 120812; 120822; 123200; 123632;
   125264; 130032].

Definition isdigit (c : N) : bool :=
  existsb (fun z => entre z (z + 9) c) zeros.

(** The class [[A-Z]] of [re] under [re.IGNORECASE]: the letters A-Z and
    a-z, and the four characters that lower or upper to one of them
    (U+0130, U+0131, U+017F, U+212A). *)
Definition isletter (c : N) : bool :=
  entre 65 90 c || entre 97 122 c || entre 304 305 c || (c =? 383)
  || (c =? 8490).

(** The character [.] of [re] (without [re.DOTALL]). *)
Definition isdot (c : N) : bool := negb (c =? 10).

(** A literal character of a pattern under [re.IGNORECASE]. *)
Definition eqb_nocase (upper lower c : N) : bool := (c =? upper) || (c =? lower).

(** [str.lower] of one character: exact on U+0000-U+00FF and on the
    characters of [[A-Z]]; the parser applies it to no other.  U+0130
    lowers to two code points. *)
Definition lower_cp (c : N) : ustr :=
  if entre 65 90 c || (entre 192 222 c && negb (c =? 215)) then [c + 32]
  else if c =? 304 then [105; 775]
  else if c =? 8490 then [107]
  else [c].

(** [str.upper] of one character: exact on U+0000-U+00FF and on the
    characters that [lower_cp] gives for a letter. *)
Definition upper_cp (c : N) : ustr :=
  if entre 97 122 c || (entre 224 254 c && negb (c =? 247)) then [c - 32]
  else if c =? 181 then [924]
  else if c =? 223 then [83; 83]
  else if c =? 255 then [376]
  else if c =? 305 then [73]
  else if c =? 383 then [83]
  else [c].

Definition lower (s : ustr) : ustr := flat_map lower_cp s.
Definition upper (s : ustr) : ustr := flat_map upper_cp s.

Fixpoint lstrip_by (p : N -> bool) (s : ustr) : ustr :=
  match s with
  | [] => []
  | c :: s' => if p c then lstrip_by p s' else s
  end.

Fixpoint rstrip_by (p : N -> bool) (s : ustr) : ustr :=
  match s with
  | [] => []
  | c :: s' =>
      match rstrip_by p s' with
      | [] => if p c then [] else [c]
      | r => c :: r
      end
  end.

Definition strip_by (p : N -> bool) (s : ustr) : ustr :=
  rstrip_by p (lstrip_by p s).

(** [s.strip()] *)
Definition strip (s : ustr) : ustr := strip_by isspace s.

(** [s.strip("\n")] *)
Definition is_nl (c : N) : bool := c =? 10.
Definition strip_nl (s : ustr) : ustr := strip_by is_nl s.

(** [s.splitlines()] *)
Fixpoint splitlines_from (cur : ustr) (s : ustr) : list ustr :=
  match s with
  | [] => match cur with [] => [] | _ => [rev cur] end
  | c :: s' =>
      if is_linebreak c then
        rev cur ::
        match s' with
        | d :: s'' =>
            if (c =? 13) && (d =? 10)
            then splitlines_from [] s''
            else splitlines_from [] s'
        | [] => splitlines_from [] s'
        end
      else splitlines_from (c :: cur) s'
  end.

Definition splitlines (s : ustr) : list ustr := splitlines_from [] s.

(** [sep in s] and [s.split(sep, 1)[1]] for a one-character [sep]. *)
Definition contains (sep : N) (s : ustr) : bool := existsb (N.eqb sep) s.

Fixpoint after_first (sep : N) (s : ustr) : ustr :=
  match s with
  | [] => []
  | c :: s' => if c =? sep then s' else after_first sep s'
  end.

(** [l.index(x)] and [x in l] *)
Fixpoint index_of (x : ustr) (l : list ustr) : option nat :=
  match l with
  | [] => None
  | y :: l' =>
      if list_eq_dec N.eq_dec x y then Some 0%nat
      else option_map S (index_of x l')
  end.

Definition member (x : ustr) (l : list ustr) : bool :=
  existsb (fun y => if list_eq_dec N.eq_dec x y then true else false) l.

(** [re.match(r"^P\d*:", s, re.IGNORECASE)] *)
Definition re_inicio (s : ustr) : bool :=
  match s with
  | c :: s' =>
      eqb_nocase 80 112 c &&
      match lstrip_by isdigit s' with
      | d :: _ => d =? 58
      | [] => false
      end
  | [] => false
  end.

Fixpoint last_dot (s : ustr) : option N :=
  match s with
  | [] => None
  | c :: s' =>
      match last_dot s' with
      | Some d => Some d
      | None => if isdot c then Some c else None
      end
  end.

Fixpoint take_dots (s : ustr) : ustr :=
  match s with
  | [] => []
  | c :: s' => if isdot c then c :: take_dots s' else []
  end.

(** [re.match(r"([A-Z])\)\s*(.+)", l, re.IGNORECASE)]: the groups 1 and 2
    of the match. *)
Definition re_alt (l : ustr) : option (ustr * ustr) :=
  match l with
  | c :: p :: rest =>
      if isletter c && (p =? 41) then
        match take_dots (lstrip_by isspace rest) with
        | [] => option_map (fun d => ([c], [d])) (last_dot rest)
        | g2 => Some ([c], g2)
        end
      else None
  | _ => None
  end.

(** [re.match(r"G:\s*([A-Z])", l, re.IGNORECASE)]: the group 1 of the
    match. *)
Definition re_gab (l : ustr) : option ustr :=
  match l with
  | g :: p :: rest =>
      if eqb_nocase 71 103 g && (p =? 58) then
        match lstrip_by isspace rest with
        | c :: _ => if isletter c then Some [c] else None
        | [] => None
        end
      else None
  | _ => None
  end.

(** A run: the lines printed and the way the call ended. *)
Definition proc (A : Type) : Type := (list ustr * outcome A)%type.

Definition ret {A} (a : A) : proc A := ([], Value a).

Definition bind {A B} (m : proc A) (f : A -> proc B) : proc B :=
  match m with
  | (out, Value a) => let (out', r) := f a in (out ++ out', r)
  | (out, SystemExit code) => (out, SystemExit code)
  | (out, ValueError) => (out, ValueError)
  end.

Definition print (s : ustr) : proc unit := ([s], Value tt).
Definition sys_exit {A} (code : Z) : proc A := ([], SystemExit code).
Definition raise_ValueError {A} : proc A := ([], ValueError).

Declare Scope uproc_scope.
Delimit Scope uproc_scope with uproc.
Notation "x <- m ;; k" := (bind m (fun x => k))
  (at level 61, m at next level, right associativity) : uproc_scope.
Notation "m ;; k" := (bind m (fun _ => k))
  (at level 61, right associativity) : uproc_scope.
Local Open Scope uproc_scope.

(** The dictionary built for a question. *)
Record Question : Type := mkQuestion {
  title : ustr;
  alternativas : list ustr;
  correta_idx : nat
}.

(** The first loop, over [linhas]: the state is [(blocos, bloco_atual)]. *)
Definition agrupar (st : list (list ustr) * list ustr) (linha : ustr)
  : list (list ustr) * list ustr :=
  let '(blocos, bloco_atual) := st in
  let s := strip linha in
  if vazio s then
    if vazio bloco_atual then st else (blocos, bloco_atual ++ [[]])
  else if re_inicio s then
    let blocos :=
      if vazio bloco_atual then blocos else blocos ++ [bloco_atual] in
    let depois :=
      if contains 58 s then strip (after_first 58 s) else [] in
    if vazio depois then (blocos, []) else (blocos, [depois])
  else (blocos, bloco_atual ++ [linha]).

(** The loop over [linhas_p[1:]]: the state is
    [(alternativas_textos, alternativas_letras, letra_correta)]. *)
Definition ler_linha (st : list ustr * list ustr * option ustr) (l : ustr)
  : list ustr * list ustr * option ustr :=
  let '(alternativas_textos, alternativas_letras, letra_correta) := st in
  match re_alt l with
  | Some (g1, g2) =>
      let letra := lower g1 in
      let texto_alt := strip g2 in
      (alternativas_textos ++ [texto_alt], alternativas_letras ++ [letra],
       letra_correta)
  | None =>
      match re_gab l with
      | Some g1 => (alternativas_textos, alternativas_letras, Some (lower g1))
      | None => st
      end
  end.

Definition ler_linhas (corpo : list ustr)
  : list ustr * list ustr * option ustr :=
  fold_left ler_linha corpo ([], [], None).

(** [not letra_correta] *)
Definition sem_gabarito (letra_correta : option ustr) : bool :=
  match letra_correta with None => true | Some s => vazio s end.

(** The body of the loop over [blocos]. *)
Definition montar_pergunta (bloco_p : list ustr) : proc (option Question) :=
  let linhas_p :=
    map strip (filter (fun l => negb (vazio (strip l))) bloco_p) in
  match linhas_p with
  | [] => ret None
  | enunciado :: corpo =>
      let '(alternativas_textos, alternativas_letras, letra_correta) :=
        ler_linhas corpo in
      (if (length alternativas_textos <? 2)%nat then
         print (ulit "ERRO: pergunta sem alternativas suficientes -> "
                ++ enunciado) ;;
         sys_exit 1
       else ret tt) ;;
      (if sem_gabarito letra_correta then
         print (ulit "ERRO: pergunta sem gabarito (linha 'G: X') -> "
                ++ enunciado) ;;
         sys_exit 1
       else ret tt) ;;
      let letra_correta :=
        match letra_correta with Some s => s | None => [] end in
      (if negb (member letra_correta alternativas_letras) then
         print (ulit "ERRO: gabarito '" ++ upper letra_correta
                ++ ulit "' n" ++ de_latin1 a_til ++ ulit "o corresponde a "
                ++ ulit "nenhuma alternativa em -> " ++ enunciado) ;;
         sys_exit 1
       else ret tt) ;;
      match index_of letra_correta alternativas_letras with
      | None => raise_ValueError
      | Some idx_correta =>
          ret (Some {| title := enunciado;
                       alternativas := alternativas_textos;
                       correta_idx := idx_correta |})
      end
  end.

Fixpoint montar (blocos : list (list ustr)) (perguntas : list Question)
  : proc (list Question) :=
  match blocos with
  | [] => ret perguntas
  | bloco_p :: resto =>
      q <- montar_pergunta bloco_p ;;
      montar resto
        (match q with Some q => perguntas ++ [q] | None => perguntas end)
  end.

(** Lines 144-168: the blocks of the lines of the text. *)
Definition separar_blocos (linhas : list ustr) : list (list ustr) :=
  let '(blocos, bloco_atual) := fold_left agrupar linhas ([], []) in
  if vazio bloco_atual then blocos else blocos ++ [bloco_atual].

Definition parse_bloco (bloco : ustr) : proc (list Question) :=
  let texto := strip_nl bloco in
  (if vazio texto then
     print (ulit "Nenhum texto informado.") ;; sys_exit 1
   else ret tt) ;;
  let linhas := splitlines texto in
  let blocos := separar_blocos linhas in
  (if vazio blocos then
     print (ulit "ERRO: Nenhum bloco de pergunta encontrado (P1:, P2:, ...).") ;;
     sys_exit 1
   else ret tt) ;;
  perguntas <- montar blocos [] ;;
  (if vazio perguntas then
     print (ulit "ERRO: n" ++ de_latin1 a_til
            ++ ulit "o consegui montar nenhuma pergunta.") ;;
     sys_exit 1
   else ret tt) ;;
  ret perguntas.

(** ** The canonical form of a text

    As in the narrow model: the [P] of every question-start line, the
    letter of every alternative line and the [G] and the letter of every
    answer-key line are lowered with [str.lower]; the first content line
    of a block is its title and is left as it is. *)

Definition depois_de (linha : ustr) : ustr :=
  strip (after_first 58 (strip linha)).

Fixpoint minuscula_inicio (l : ustr) : ustr :=
  match l with
  | [] => []
  | c :: r => if isspace c then c :: minuscula_inicio r else lower_cp c ++ r
  end.

Fixpoint minuscula_gabarito (l : ustr) : ustr :=
  match l with
  | [] => []
  | c :: r =>
      if isspace c then c :: minuscula_gabarito r
      else lower_cp c ++
           match r with
           | p :: r' => p :: minuscula_inicio r'
           | [] => []
           end
  end.

Definition canonica_linha (pendente : bool) (linha : ustr) : ustr :=
  let s := strip linha in
  if vazio s then linha
  else if re_inicio s then minuscula_inicio linha
  else if pendente then linha
  else
    match re_alt s with
    | Some _ => minuscula_inicio linha
    | None =>
        match re_gab s with
        | Some _ => minuscula_gabarito linha
        | None => linha
        end
    end.

Definition titulo_pendente (pendente : bool) (linha : ustr) : bool :=
  let s := strip linha in
  if vazio s then pendente
  else if re_inicio s then vazio (depois_de linha)
  else false.

Fixpoint canonica (pendente : bool) (linhas : list ustr) : list ustr :=
  match linhas with
  | [] => []
  | l :: r =>
      canonica_linha pendente l :: canonica (titulo_pendente pendente l) r
  end.

(** [s.splitlines(keepends=True)], each line with its boundary. *)
Fixpoint linhas_e_fins_from (cur : ustr) (s : ustr) : list (ustr * ustr) :=
  match s with
  | [] => match cur with [] => [] | _ => [(rev cur, [])] end
  | c :: s' =>
      if is_linebreak c then
        match s' with
        | d :: s'' =>
            if (c =? 13) && (d =? 10)
            then (rev cur, [c; d]) :: linhas_e_fins_from [] s''
            else (rev cur, [c]) :: linhas_e_fins_from [] s'
        | [] => (rev cur, [c]) :: linhas_e_fins_from [] s'
        end
      else linhas_e_fins_from (c :: cur) s'
  end.

Definition linhas_e_fins (s : ustr) : list (ustr * ustr) :=
  linhas_e_fins_from [] s.

Fixpoint colar (pares : list (ustr * ustr)) : ustr :=
  match pares with
  | [] => []
  | (l, fim) :: r => l ++ fim ++ colar r
  end.

Definition canonica_texto (bloco : ustr) : ustr :=
  let pares := linhas_e_fins bloco in
  colar (combine (canonica true (map fst pares)) (map snd pares)).

(** ["\n".join(linhas)] *)
Fixpoint join_nl (linhas : list ustr) : ustr :=
  match linhas with
  | [] => []
  | [l] => l
  | l :: r => l ++ 10 :: join_nl r
  end.

End Unicode.

(** ** The two models side by side

    A run of the narrow model, read as a run of the wide one. *)





(** The text whose alternative [I] is written with U+0130, the capital I
    with a dot above. *)
Definition alternativa_U0130 : Unicode.ustr :=
  Unicode.join_nl [Unicode.ulit "P1: Q"; 304%N :: Unicode.ulit ") x";
                   Unicode.ulit "B) y"; Unicode.ulit "G: B"].





(** * Properties *)

(** ** Characters *)

Ltac por_caracter c :=
  destruct c as [[] [] [] [] [] [] [] []]; try reflexivity; try discriminate.

Lemma isspace_lower_char (c : ascii) : isspace (lower_char c) = isspace c.
Proof. por_caracter c. Qed.

Lemma isletter_lower_char (c : ascii) : isletter (lower_char c) = isletter c.
Proof. por_caracter c. Qed.

Lemma lower_char_idem (c : ascii) : lower_char (lower_char c) = lower_char c.
Proof. por_caracter c. Qed.

Lemma nocase_P_lower_char (c : ascii) :
  eqb_nocase "P" "p" (lower_char c) = eqb_nocase "P" "p" c.
Proof. por_caracter c. Qed.

Lemma nocase_G_lower_char (c : ascii) :
  eqb_nocase "G" "g" (lower_char c) = eqb_nocase "G" "g" c.
Proof. por_caracter c. Qed.

(** ** Stripping *)

Section Strip.
Variable p : ascii -> bool.

Lemma lstrip_by_nil (s : str) : lstrip_by p s = [] <-> forallb p s = true.
Proof.
  induction s as [|c s IH]; simpl.
  - tauto.
  - destruct (p c); simpl; [exact IH | split; discriminate].
Qed.

Lemma lstrip_by_head (s : str) c r : lstrip_by p s = c :: r -> p c = false.
Proof.
  induction s as [|d s IH]; simpl; [discriminate|].
  destruct (p d) eqn:E; [exact IH|].
  intros H; injection H as <- _; exact E.
Qed.

Lemma lstrip_by_keep (s : str) c : p c = false -> lstrip_by p (c :: s) = c :: s.
Proof. simpl; intros ->; reflexivity. Qed.

Lemma rstrip_by_keep (s : str) c :
  p c = false -> rstrip_by p (c :: s) = c :: rstrip_by p s.
Proof. simpl; intros ->; destruct (rstrip_by p s); reflexivity. Qed.

Lemma rstrip_by_nil (s : str) : rstrip_by p s = [] <-> forallb p s = true.
Proof.
  induction s as [|c s IH]; simpl.
  - tauto.
  - destruct (rstrip_by p s) eqn:E.
    + destruct (p c); simpl.
      * split; intros _; [apply IH|]; reflexivity.
      * split; discriminate.
    + split; [discriminate|].
      intros H; apply andb_true_iff in H as [_ H].
      apply IH in H; discriminate.
Qed.

Lemma rstrip_by_idem (s : str) : rstrip_by p (rstrip_by p s) = rstrip_by p s.
Proof.
  induction s as [|c s IH]; simpl; [reflexivity|].
  destruct (rstrip_by p s) as [|d r] eqn:E.
  - destruct (p c) eqn:Ec; simpl; [reflexivity|]. rewrite Ec; reflexivity.
  - change (rstrip_by p (c :: d :: r) = c :: d :: r).
    simpl. simpl in IH. rewrite IH. reflexivity.
Qed.

Lemma strip_by_nil (s : str) : strip_by p s = [] <-> forallb p s = true.
Proof.
  unfold strip_by. rewrite rstrip_by_nil.
  destruct (lstrip_by p s) as [|c r] eqn:E.
  - simpl. rewrite <- (lstrip_by_nil s), E. tauto.
  - pose proof (lstrip_by_head _ _ _ E) as Hc.
    simpl. rewrite Hc. simpl.
    split; [discriminate|].
    intros H; apply lstrip_by_nil in H; congruence.
Qed.

Lemma strip_by_cons (s : str) c r :
  lstrip_by p s = c :: r -> strip_by p s = c :: rstrip_by p r.
Proof.
  intros E; unfold strip_by; rewrite E.
  apply rstrip_by_keep, (lstrip_by_head _ _ _ E).
Qed.

Lemma strip_by_head (s : str) c r : strip_by p s = c :: r -> p c = false.
Proof.
  destruct (lstrip_by p s) as [|d t] eqn:E.
  - unfold strip_by; rewrite E; discriminate.
  - rewrite (strip_by_cons _ _ _ E).
    intros H; injection H as <- _. apply (lstrip_by_head _ _ _ E).
Qed.

Lemma strip_by_idem (s : str) : strip_by p (strip_by p s) = strip_by p s.
Proof.
  destruct (strip_by p s) as [|c r] eqn:E; [reflexivity|].
  pose proof (strip_by_head _ _ _ E) as Hc.
  unfold strip_by at 1. rewrite lstrip_by_keep by exact Hc.
  rewrite <- E. unfold strip_by. apply rstrip_by_idem.
Qed.

End Strip.

(** ** Runs *)

Lemma bind_ret {A B} (a : A) (f : A -> proc B) : bind (ret a) f = f a.
Proof. unfold bind, ret. destruct (f a); reflexivity. Qed.

Lemma bind_falha {A B} (x : Failure) (f : A -> proc B) :
  bind (falha x) f = falha x.
Proof. reflexivity. Qed.

Lemma ret_inj {A} (a b : A) : ret a = ret b -> a = b.
Proof. unfold ret; congruence. Qed.

Lemma falha_not_ret {A} (x : Failure) (a : A) : falha x <> ret a.
Proof. unfold falha, ret; congruence. Qed.

(** ** The loop body *)

Lemma linhas_p_uteis (b : list str) :
  map strip (filter (fun l => negb (vazio (strip l))) b) = linhas_uteis b.
Proof.
  unfold linhas_uteis.
  induction b as [|l b IH]; simpl; [reflexivity|].
  destruct (vazio (strip l)); simpl; rewrite IH; reflexivity.
Qed.

Lemma re_alt_not_gab (l : str) x : re_alt l = Some x -> re_gab l = None.
Proof.
  destruct l as [|c [|p r]]; simpl; try discriminate.
  destruct (Ascii.eqb_spec p ")") as [->|]; [|rewrite andb_false_r; discriminate].
  intros _. rewrite andb_false_r. reflexivity.
Qed.

Lemma ler_linha_eq (l : str) textos letras k :
  ler_linha (textos, letras, k) l =
  (textos ++ map snd (alternativa_de l),
   letras ++ map fst (alternativa_de l),
   match gabarito_da_linha l with g :: _ => Some g | [] => k end).
Proof.
  unfold ler_linha, alternativa_de, gabarito_da_linha.
  destruct (re_alt l) as [[g1 g2]|] eqn:Ea.
  - rewrite (re_alt_not_gab _ _ Ea). reflexivity.
  - destruct (re_gab l); simpl; rewrite !app_nil_r; reflexivity.
Qed.

Lemma gabarito_da_linha_cases (l : str) :
  gabarito_da_linha l = [] \/ exists g, gabarito_da_linha l = [g].
Proof.
  unfold gabarito_da_linha. destruct (re_gab l); eauto.
Qed.

Lemma ler_linha_fold (corpo : list str) textos letras k :
  fold_left ler_linha corpo (textos, letras, k) =
  (textos ++ map snd (flat_map alternativa_de corpo),
   letras ++ map fst (flat_map alternativa_de corpo),
   match rev (flat_map gabarito_da_linha corpo) with
   | g :: _ => Some g
   | [] => k
   end).
Proof.
  revert textos letras k.
  induction corpo as [|l corpo IH]; intros textos letras k.
  - simpl. rewrite !app_nil_r; reflexivity.
  - cbn [fold_left flat_map]. rewrite ler_linha_eq, IH.
    rewrite !map_app, !app_assoc, rev_app_distr.
    f_equal.
    destruct (rev (flat_map gabarito_da_linha corpo)); [|reflexivity].
    destruct (gabarito_da_linha_cases l) as [->|[g ->]]; reflexivity.
Qed.

Lemma ler_linhas_eq (b : list str) :
  ler_linhas (corpo_de b) = (textos_de b, letras_de b, ultimo_gabarito b).
Proof.
  unfold ler_linhas. rewrite ler_linha_fold. simpl.
  unfold textos_de, letras_de, ultimo_gabarito, gabaritos_de, alternativas_de.
  destruct (rev (flat_map gabarito_da_linha (corpo_de b))); reflexivity.
Qed.

Lemma index_of_posicao (k : str) (l : list str) i :
  index_of k l = Some i -> posicao k l i.
Proof.
  revert i; induction l as [|y l IH]; intros i; simpl; [discriminate|].
  destruct (list_eq_dec ascii_dec k y) as [->|Hne].
  - intros H; injection H as <-. split; [reflexivity|]. intros j Hj; lia.
  - destruct (index_of k l) as [i'|]; simpl; [|discriminate].
    intros H; injection H as <-.
    destruct (IH i' eq_refl) as [Hn Hmin]. split; [exact Hn|].
    intros [|j] Hj; simpl.
    + congruence.
    + apply Hmin; lia.
Qed.

Lemma index_of_member (k : str) (l : list str) :
  member k l = negb (vazio (match index_of k l with Some _ => [tt] | None => [] end)).
Proof.
  induction l as [|y l IH]; simpl; [reflexivity|].
  destruct (list_eq_dec ascii_dec k y); simpl; [reflexivity|].
  rewrite IH. destruct (index_of k l); reflexivity.
Qed.

Lemma member_index_of (k : str) (l : list str) :
  member k l = true -> exists i, index_of k l = Some i.
Proof.
  rewrite index_of_member. destruct (index_of k l); [eauto|discriminate].
Qed.

Lemma not_member_index_of (k : str) (l : list str) :
  member k l = false -> index_of k l = None.
Proof.
  rewrite index_of_member. destruct (index_of k l); [discriminate|reflexivity].
Qed.

Lemma gabaritos_nao_vazios (l : list str) k :
  In k (flat_map gabarito_da_linha l) -> vazio k = false.
Proof.
  intros H. apply in_flat_map in H as (x & _ & H).
  unfold gabarito_da_linha in H.
  destruct (re_gab x) as [g|] eqn:E; [|contradiction].
  destruct H as [<-|[]].
  destruct x as [|c [|p r]]; simpl in E; try discriminate.
  destruct (_ && _) in E; [|discriminate].
  destruct (lstrip_by isspace r); [discriminate|].
  destruct (isletter _) in E; [|discriminate].
  injection E as <-. reflexivity.
Qed.

Lemma ultimo_gabarito_nao_vazio (b : list str) k :
  ultimo_gabarito b = Some k -> vazio k = false.
Proof.
  unfold ultimo_gabarito, gabaritos_de. intros H.
  apply (gabaritos_nao_vazios (corpo_de b)).
  apply in_rev. destruct (rev _); [discriminate|].
  injection H as ->. left; reflexivity.
Qed.

(** The loop body is [julgar]. *)
Lemma montar_pergunta_julgar (b : list str) : montar_pergunta b = julgar b.
Proof.
  unfold montar_pergunta, julgar, enunciado_de.
  rewrite linhas_p_uteis.
  pose proof (ler_linhas_eq b) as Hl. unfold corpo_de in Hl.
  destruct (linhas_uteis b) as [|e corpo]; [reflexivity|].
  simpl tl in Hl. rewrite Hl. cbv beta iota zeta. simpl hd_error.
  unfold textos_de at 1. rewrite length_map.
  destruct (length (alternativas_de b) <? 2); [reflexivity|].
  cbv iota. rewrite bind_ret.
  destruct (ultimo_gabarito b) as [k|] eqn:Ek; [|reflexivity].
  simpl sem_gabarito. rewrite (ultimo_gabarito_nao_vazio _ _ Ek).
  cbv iota. rewrite bind_ret.
  destruct (member k (letras_de b)) eqn:Em.
  - simpl negb. cbv iota. rewrite bind_ret.
    apply member_index_of in Em as [i Ei]. rewrite Ei. reflexivity.
  - rewrite (not_member_index_of _ _ Em). reflexivity.
Qed.

Lemma julgar_valido (b : list str) :
  bloco_valido b = true -> exists q, julgar b = ret (Some q) /\ retrata b q.
Proof.
  unfold bloco_valido, julgar, retrata. intros H.
  apply andb_true_iff in H as [Hn Hk].
  destruct (ultimo_gabarito b) as [k|]; [|discriminate].
  apply member_index_of in Hk as [i Ei].
  assert (Hlt : (length (alternativas_de b) <? 2) = false).
  { apply Nat.ltb_ge. apply Nat.leb_le in Hn. exact Hn. }
  rewrite Hlt, Ei.
  destruct (enunciado_de b) as [e|] eqn:Ee.
  - eexists; split; [reflexivity|]. cbn [title alternativas correta_idx].
    repeat split. exists k; split; [reflexivity|].
    apply index_of_posicao; exact Ei.
  - exfalso. unfold enunciado_de in Ee.
    unfold alternativas_de, corpo_de in Hn.
    destruct (linhas_uteis b); [discriminate Hn|discriminate Ee].
Qed.

Lemma julgar_ret_some (b : list str) (q : Question) :
  julgar b = ret (Some q) -> bloco_valido b = true /\ retrata b q.
Proof.
  unfold julgar, bloco_valido, retrata.
  destruct (enunciado_de b) as [e|]; [|intros H; apply ret_inj in H; discriminate].
  destruct (length (alternativas_de b) <? 2) eqn:Hlt;
    [intros H; exfalso; exact (falha_not_ret _ _ H)|].
  destruct (ultimo_gabarito b) as [k|];
    [|intros H; exfalso; exact (falha_not_ret _ _ H)].
  destruct (index_of k (letras_de b)) as [i|] eqn:Ei;
    [|intros H; exfalso; exact (falha_not_ret _ _ H)].
  intros H; apply ret_inj in H; injection H as <-. cbn [title alternativas correta_idx].
  split.
  - apply andb_true_iff; split.
    + apply Nat.leb_le. apply Nat.ltb_ge in Hlt. exact Hlt.
    + rewrite index_of_member, Ei. reflexivity.
  - repeat split. exists k; split; [reflexivity|].
    apply index_of_posicao; exact Ei.
Qed.

Lemma julgar_cases (b : list str) :
  (enunciado_de b = None /\ julgar b = ret None)
  \/ (exists q, julgar b = ret (Some q))
  \/ (exists f, de_bloco f = true /\ julgar b = falha f).
Proof.
  unfold julgar.
  destruct (enunciado_de b) as [e|]; [right|left; split; reflexivity].
  destruct (length (alternativas_de b) <? 2);
    [right; eexists; split; [|reflexivity]; reflexivity|].
  destruct (ultimo_gabarito b) as [k|];
    [|right; eexists; split; [|reflexivity]; reflexivity].
  destruct (index_of k (letras_de b)) as [i|];
    [left; eauto | right; eexists; split; [|reflexivity]; reflexivity].
Qed.

(** ** The loop over the blocks *)

Lemma montar_cons (b : list str) bs acc :
  montar (b :: bs) acc =
  bind (julgar b)
       (fun q => montar bs (match q with Some q => acc ++ [q] | None => acc end)).
Proof. simpl. rewrite montar_pergunta_julgar. reflexivity. Qed.

Lemma montar_validos (bs : list (list str)) (acc : list Question) :
  Forall (fun b => bloco_valido b = true) bs ->
  exists qs, montar bs acc = ret (acc ++ qs) /\ Forall2 retrata bs qs.
Proof.
  intros H; revert acc; induction H as [|b bs Hb _ IH]; intros acc.
  - exists []. rewrite app_nil_r. split; [reflexivity|constructor].
  - destruct (julgar_valido b Hb) as (q & Hq & Hr).
    destruct (IH (acc ++ [q])) as (qs & Hqs & HF).
    exists (q :: qs). rewrite montar_cons, Hq, bind_ret, Hqs.
    rewrite <- app_assoc. split; [reflexivity|]. constructor; assumption.
Qed.

Lemma montar_ret_inv (bs : list (list str)) (acc qs : list Question) :
  Forall (fun b => enunciado_de b <> None) bs ->
  montar bs acc = ret qs ->
  exists qs', qs = acc ++ qs' /\
              Forall2 (fun b q => julgar b = ret (Some q)) bs qs'.
Proof.
  intros H; revert acc; induction H as [|b bs Hb _ IH]; intros acc.
  - simpl. intros E; apply ret_inj in E as <-.
    exists []. rewrite app_nil_r. split; [reflexivity|constructor].
  - rewrite montar_cons.
    destruct (julgar_cases b) as [[He _]|[[q Hq]|[f [_ Hf]]]].
    + contradiction.
    + rewrite Hq, bind_ret. intros E.
      destruct (IH _ E) as (qs' & -> & HF).
      exists (q :: qs'). rewrite <- app_assoc.
      split; [reflexivity|]. constructor; assumption.
    + rewrite Hf, bind_falha. intros E. exfalso; exact (falha_not_ret _ _ E).
Qed.

Lemma montar_primeira_falha (bs1 : list (list str)) b bs2 acc f :
  Forall (fun b => bloco_valido b = true) bs1 ->
  julgar b = falha f ->
  montar (bs1 ++ b :: bs2) acc = falha f.
Proof.
  intros H Hf; revert acc; induction H as [|b1 bs1 Hb _ IH]; intros acc.
  - simpl app. rewrite montar_cons, Hf. reflexivity.
  - destruct (julgar_valido b1 Hb) as (q & Hq & _).
    simpl app. rewrite montar_cons, Hq, bind_ret. apply IH.
Qed.

Lemma montar_cases (bs : list (list str)) (acc : list Question) :
  Forall (fun b => enunciado_de b <> None) bs ->
  (exists qs, montar bs acc = ret (acc ++ qs) /\ length qs = length bs)
  \/ (exists f, de_bloco f = true /\ montar bs acc = falha f).
Proof.
  intros H; revert acc; induction H as [|b bs Hb _ IH]; intros acc.
  - left. exists []. rewrite app_nil_r. split; reflexivity.
  - rewrite montar_cons.
    destruct (julgar_cases b) as [[He _]|[[q Hq]|[f [Hd Hf]]]].
    + contradiction.
    + rewrite Hq, bind_ret.
      destruct (IH (acc ++ [q])) as [(qs & E & Hl)|(f & Hd & E)].
      * left. exists (q :: qs). rewrite E, <- app_assoc.
        split; [reflexivity|]. simpl; congruence.
      * right. exists f. split; assumption.
    + right. exists f. rewrite Hf. split; [assumption|reflexivity].
Qed.

(** ** The whole function *)

Lemma parse_bloco_eq (bloco : str) :
  parse_bloco bloco =
  if vazio (strip_nl bloco) then falha EmptyInput
  else if vazio (blocos_de bloco) then falha NoQuestionBlocks
  else bind (montar (blocos_de bloco) [])
            (fun qs => if vazio qs then falha NoValidQuestions else ret qs).
Proof.
  unfold parse_bloco, blocos_de, linhas_de.
  destruct (vazio (strip_nl bloco)); [reflexivity|].
  rewrite bind_ret. cbv zeta.
  destruct (vazio (separar_blocos _)); [reflexivity|].
  rewrite bind_ret.
  destruct (montar _ _) as [out [qs| |]]; try reflexivity.
  destruct qs; reflexivity.
Qed.

(** ** The loop over the lines *)

Lemma vazio_true {A} (l : list A) : vazio l = true <-> l = [].
Proof. destruct l; simpl; split; congruence. Qed.

Lemma vazio_false {A} (l : list A) : vazio l = false <-> l <> [].
Proof. destruct l; simpl; split; congruence. Qed.

Lemma linhas_uteis_app (a b : list str) :
  linhas_uteis (a ++ b) = linhas_uteis a ++ linhas_uteis b.
Proof. unfold linhas_uteis. rewrite map_app, filter_app. reflexivity. Qed.

Lemma linhas_uteis_branco (l : str) (b : list str) :
  vazio (strip l) = true -> linhas_uteis (l :: b) = linhas_uteis b.
Proof. unfold linhas_uteis; simpl. intros ->. reflexivity. Qed.

Lemma linhas_uteis_cons (l : str) (b : list str) :
  vazio (strip l) = false -> linhas_uteis (l :: b) = strip l :: linhas_uteis b.
Proof. unfold linhas_uteis; simpl. intros ->. reflexivity. Qed.

Lemma strip_idem (s : str) : strip (strip s) = strip s.
Proof. apply strip_by_idem. Qed.

Lemma lstrip_by_in (p : ascii -> bool) (s : str) d r :
  lstrip_by p s = d :: r -> In d s.
Proof.
  induction s as [|c s IH]; simpl; [discriminate|].
  destruct (p c).
  - intros H; right; auto.
  - intros H; injection H as -> _; left; reflexivity.
Qed.

Lemma re_inicio_contains (s : str) :
  re_inicio s = true -> contains ":" s = true.
Proof.
  destruct s as [|c s]; simpl; [discriminate|].
  intros H; apply andb_true_iff in H as [_ H].
  destruct (lstrip_by isdigit s) as [|d r] eqn:E; [discriminate|].
  apply Ascii.eqb_eq in H as ->.
  apply orb_true_iff; right.
  apply existsb_exists. exists ":"%char.
  split; [exact (lstrip_by_in _ _ _ _ E)|reflexivity].
Qed.

Lemma separar_blocos_fecha (linhas : list str) :
  separar_blocos linhas = fecha (fold_left agrupar linhas ([], [])).
Proof. reflexivity. Qed.

(** One step of the loop, by the kind of the line. *)
Lemma agrupar_branco bs cur (l : str) :
  vazio (strip l) = true ->
  agrupar (bs, cur) l = (bs, if vazio cur then cur else cur ++ [[]]).
Proof.
  intros H; unfold agrupar. rewrite H.
  destruct cur; reflexivity.
Qed.

Lemma agrupar_inicio bs cur (l : str) :
  e_inicio l = true ->
  agrupar (bs, cur) l =
  (fecha (bs, cur), if vazio (depois_de l) then [] else [depois_de l]).
Proof.
  unfold e_inicio; intros H; unfold agrupar, depois_de, fecha.
  rewrite H, (re_inicio_contains _ H).
  destruct (strip l) eqn:E; [discriminate H|]. simpl vazio at 1. cbv iota.
  destruct (vazio (strip (after_first ":" (a :: s)))); reflexivity.
Qed.

Lemma agrupar_conteudo bs cur (l : str) :
  vazio (strip l) = false -> e_inicio l = false ->
  agrupar (bs, cur) l = (bs, cur ++ [l]).
Proof.
  unfold e_inicio; intros H1 H2; unfold agrupar. rewrite H1, H2. reflexivity.
Qed.

Lemma branco_nao_inicio (l : str) : vazio (strip l) = true -> e_inicio l = false.
Proof. unfold e_inicio. intros H; apply vazio_true in H; rewrite H; reflexivity. Qed.

(** The blocks are the segments that have content, the lines before the
    first question-start line being the first segment. *)
Lemma fecha_agrupar_uteis (linhas : list str) :
  forall bs cur,
    cur = [] \/ linhas_uteis cur <> [] ->
    map linhas_uteis (fecha (fold_left agrupar linhas (bs, cur))) =
    map linhas_uteis bs ++
    nao_vazias (linhas_uteis (cur ++ ate_inicio linhas)
                :: map linhas_uteis (segmentos linhas)).
Proof.
  unfold nao_vazias.
  induction linhas as [|l ls IH]; intros bs cur Hcur.
  - simpl fold_left. simpl ate_inicio. simpl segmentos. rewrite app_nil_r.
    simpl map at 3. unfold fecha. simpl filter.
    destruct Hcur as [->|Hne].
    + simpl. rewrite app_nil_r; reflexivity.
    + assert (Hc : vazio cur = false).
      { apply vazio_false; intros ->; apply Hne; reflexivity. }
      apply vazio_false in Hne. rewrite Hc, Hne. simpl negb. cbv iota.
      rewrite map_app. reflexivity.
  - cbn [fold_left].
    destruct (vazio (strip l)) eqn:Eb.
    + rewrite (agrupar_branco _ _ _ Eb).
      simpl ate_inicio. simpl segmentos. rewrite (branco_nao_inicio _ Eb).
      rewrite IH.
      * f_equal. f_equal. f_equal.
        destruct Hcur as [->|Hne].
        -- simpl. rewrite (linhas_uteis_branco _ _ Eb). reflexivity.
        -- assert (Hc : vazio cur = false).
           { apply vazio_false; intros ->; apply Hne; reflexivity. }
           rewrite Hc. rewrite <- app_assoc.
           rewrite !linhas_uteis_app. f_equal.
           simpl app. rewrite (linhas_uteis_branco _ _ Eb).
           first [reflexivity | apply linhas_uteis_branco; reflexivity].
      * destruct Hcur as [->|Hne]; [left; reflexivity|right].
        assert (Hc : vazio cur = false).
        { apply vazio_false; intros ->; apply Hne; reflexivity. }
        rewrite Hc, linhas_uteis_app. intros H.
        apply app_eq_nil in H as [H _]. contradiction.
    + destruct (e_inicio l) eqn:Ei.
      * rewrite (agrupar_inicio _ _ _ Ei).
        simpl ate_inicio. simpl segmentos. rewrite Ei.
        rewrite IH.
        -- rewrite app_nil_r.
           assert (Hd : linhas_uteis
                          ((if vazio (depois_de l) then [] else [depois_de l])
                           ++ ate_inicio ls)
                        = linhas_uteis (depois_de l :: ate_inicio ls)).
           { destruct (vazio (depois_de l)) eqn:Ed; [|reflexivity].
             simpl app. symmetry. apply linhas_uteis_branco.
             apply vazio_true in Ed. rewrite Ed. reflexivity. }
           rewrite Hd. simpl map at 4.
           set (X := filter _ (linhas_uteis (depois_de l :: ate_inicio ls) :: _)).
           simpl filter. unfold fecha.
           destruct Hcur as [->|Hne].
           ++ reflexivity.
           ++ assert (Hc : vazio cur = false).
              { apply vazio_false; intros ->; apply Hne; reflexivity. }
              apply vazio_false in Hne. rewrite Hc, Hne. simpl negb. cbv iota.
              rewrite map_app, <- app_assoc. reflexivity.
        -- destruct (vazio (depois_de l)) eqn:Ed; [left; reflexivity|right].
           rewrite linhas_uteis_cons.
           ++ discriminate.
           ++ unfold depois_de in *. rewrite strip_idem. exact Ed.
      * rewrite (agrupar_conteudo _ _ _ Eb Ei).
        simpl ate_inicio. simpl segmentos. rewrite Ei.
        rewrite IH.
        -- rewrite <- app_assoc. reflexivity.
        -- right. rewrite linhas_uteis_app, (linhas_uteis_cons _ _ Eb).
           intros H. apply app_eq_nil in H as [_ H]. discriminate.
Qed.

Lemma nao_vazias_uteis (segs : list (list str)) :
  nao_vazias (map linhas_uteis segs) = map linhas_uteis (filter com_conteudo segs).
Proof.
  unfold nao_vazias, com_conteudo.
  induction segs as [|x segs IH]; [reflexivity|].
  simpl. destruct (vazio (linhas_uteis x)); simpl; rewrite IH; reflexivity.
Qed.

Lemma separar_blocos_uteis (linhas : list str) :
  map linhas_uteis (separar_blocos linhas) =
  map linhas_uteis (filter com_conteudo (ate_inicio linhas :: segmentos linhas)).
Proof.
  rewrite separar_blocos_fecha, fecha_agrupar_uteis by (left; reflexivity).
  rewrite <- nao_vazias_uteis. reflexivity.
Qed.

Lemma blocos_bem_formados (linhas : list str) :
  Forall (fun b => enunciado_de b <> None) (separar_blocos linhas).
Proof.
  apply Forall_forall. intros b Hb.
  assert (H : In (linhas_uteis b)
                 (map linhas_uteis
                    (filter com_conteudo (ate_inicio linhas :: segmentos linhas)))).
  { rewrite <- separar_blocos_uteis. apply in_map; exact Hb. }
  apply in_map_iff in H as (seg & E & Hseg).
  apply filter_In in Hseg as [_ Hseg]. unfold com_conteudo in Hseg.
  unfold enunciado_de. rewrite <- E.
  destruct (linhas_uteis seg); [discriminate Hseg|discriminate].
Qed.

(** ** Failures *)

(** The message printed tells the kind of the failure. *)
Lemma mensagem_tipo (f g : Failure) :
  mensagem f = mensagem g -> mesmo_tipo f g = true.
Proof.
  destruct f, g; try reflexivity; intros H; exfalso;
    cbv [mensagem lit list_ascii_of_string app a_til chr] in H;
    discriminate H.
Qed.

Lemma falha_tipo {A} (f g : Failure) :
  @falha A f = falha g -> mesmo_tipo f g = true.
Proof.
  unfold falha. intros H. apply mensagem_tipo. congruence.
Qed.

Lemma parse_bloco_cases (bloco : str) :
  (vazio (strip_nl bloco) = true /\ parse_bloco bloco = falha EmptyInput)
  \/ (vazio (strip_nl bloco) = false /\ blocos_de bloco = [] /\
      parse_bloco bloco = falha NoQuestionBlocks)
  \/ (blocos_de bloco <> [] /\
      exists f, de_bloco f = true /\ parse_bloco bloco = falha f)
  \/ (blocos_de bloco <> [] /\
      exists qs, qs <> [] /\ parse_bloco bloco = ret qs /\
                 Forall2 (fun b q => julgar b = ret (Some q))
                         (blocos_de bloco) qs).
Proof.
  rewrite parse_bloco_eq.
  destruct (vazio (strip_nl bloco)) eqn:Et; [left; split; reflexivity|].
  right.
  destruct (vazio (blocos_de bloco)) eqn:Eb.
  - left. apply vazio_true in Eb. repeat split; assumption.
  - right. apply vazio_false in Eb.
    pose proof (blocos_bem_formados (linhas_de bloco)) as Hbf.
    fold (blocos_de bloco) in Hbf.
    destruct (montar_cases _ [] Hbf) as [(qs & E & Hl)|(f & Hd & E)].
    + right. split; [exact Eb|]. exists qs.
      assert (Hqs : qs <> []).
      { intros ->. destruct (blocos_de bloco); [congruence|discriminate]. }
      simpl app in E.
      destruct (montar_ret_inv _ _ _ Hbf E) as (qs' & Eq & HF).
      simpl in Eq; subst qs'.
      rewrite E, bind_ret. apply vazio_false in Hqs. rewrite Hqs.
      apply vazio_false in Hqs. repeat split; assumption.
    + left. split; [exact Eb|]. exists f. rewrite E. split; [assumption|reflexivity].
Qed.

Lemma parse_bloco_value (bloco : str) (qs : list Question) :
  snd (parse_bloco bloco) = Value qs ->
  parse_bloco bloco = ret qs /\ qs <> [] /\
  Forall2 (fun b q => julgar b = ret (Some q)) (blocos_de bloco) qs.
Proof.
  destruct (parse_bloco_cases bloco)
    as [[_ E]|[(_ & _ & E)|[(_ & f & _ & E)|(_ & qs' & Hne & E & HF)]]];
    rewrite E; simpl; try discriminate.
  intros H; injection H as <-. repeat split; assumption.
Qed.

Lemma Forall2_impl {A B} (P Q : A -> B -> Prop) (l : list A) (l' : list B) :
  (forall a b, P a b -> Q a b) -> Forall2 P l l' -> Forall2 Q l l'.
Proof. intros H; induction 1; constructor; auto. Qed.

(** ** The claims *)

(** C1. For every text whose blocks all validate, [parse_bloco] returns one
    question per block, in order: its title is the first non-empty line of
    the block, trimmed; its choices are the texts of the alternatives in
    encounter order; its correct index is the position of the answer-key
    letter among the letters of the alternatives. *)
Theorem parse_bloco_blocos_validos (bloco : str) :
  vazio (blocos_de bloco) = false ->
  forallb bloco_valido (blocos_de bloco) = true ->
  exists qs, parse_bloco bloco = ret qs /\ Forall2 retrata (blocos_de bloco) qs.
Proof.
  intros Hne Hv.
  destruct (parse_bloco_cases bloco)
    as [[Et E]|[(_ & Eb & _)|[(_ & f & Hd & E)|(_ & qs & _ & E & HF)]]].
  - exfalso. unfold blocos_de, linhas_de in Hne.
    apply vazio_true in Et. rewrite Et in Hne. discriminate Hne.
  - rewrite Eb in Hne; discriminate Hne.
  - exfalso. rewrite parse_bloco_eq in E.
    destruct (vazio (strip_nl bloco)); [apply falha_tipo in E; destruct f; discriminate|].
    rewrite Hne in E.
    assert (Hv' : Forall (fun b => bloco_valido b = true) (blocos_de bloco))
      by (apply Forall_forall; apply forallb_forall; exact Hv).
    destruct (montar_validos _ [] Hv') as (qs & Eq & _).
    rewrite Eq, bind_ret in E.
    destruct (vazio ([] ++ qs)).
    + apply falha_tipo in E. destruct f; discriminate.
    + symmetry in E. exact (falha_not_ret _ _ E).
  - exists qs. split; [exact E|].
    revert HF. apply Forall2_impl. intros b q H.
    apply julgar_ret_some in H as [_ H]; exact H.
Qed.

(** The theorem at scenario 1 of the specification. *)
Lemma parse_bloco_blocos_validos_cenario_1 :
  vazio (blocos_de cenario_1) = false /\
  forallb bloco_valido (blocos_de cenario_1) = true /\
  exists qs, parse_bloco cenario_1 = ret qs /\
             Forall2 retrata (blocos_de cenario_1) qs.
Proof.
  split; [reflexivity|]. split; [reflexivity|].
  apply (parse_bloco_blocos_validos cenario_1); reflexivity.
Defined.

(** Scenario 1 of the specification, evaluated. *)
Example parse_bloco_cenario_1 :
  parse_bloco cenario_1 =
  ret [ {| title := lit "Why is safety important?";
           alternativas := [lit "Reason one"; lit "Reason two"];
           correta_idx := 1 |} ].
Proof. reflexivity. Qed.

(** C2, as stated, fails: [parse_bloco] prints, and two failures of
    different kinds end with the same value, [SystemExit 1]. *)
Lemma parse_bloco_imprime_e_encerra :
  ~ (forall bloco, fst (parse_bloco bloco) = []) /\
  ~ (forall b1 b2 f1 f2,
       parse_bloco b1 = falha f1 -> parse_bloco b2 = falha f2 ->
       mesmo_tipo f1 f2 = false ->
       snd (parse_bloco b1) <> snd (parse_bloco b2)).
Proof.
  split.
  - intros H. specialize (H []). discriminate H.
  - intros H.
    apply (H [] (lit " ") EmptyInput NoQuestionBlocks); reflexivity.
Qed.

(** C2, amended.  [parse_bloco] is a function of its text that reads
    nothing.  It either returns the questions and prints nothing, or returns
    no value: it prints one message and ends the program with
    [sys.exit(1)], whatever the rule violated.  The message printed, not
    the value, tells the kind of the failure. *)
Theorem parse_bloco_resultado (bloco : str) :
  (exists qs, parse_bloco bloco = ([], Value qs)) \/
  (exists f, parse_bloco bloco = ([mensagem f], SystemExit 1) /\
             forall g, parse_bloco bloco = ([mensagem g], SystemExit 1) ->
                       mesmo_tipo f g = true).
Proof.
  destruct (parse_bloco_cases bloco)
    as [[_ E]|[(_ & _ & E)|[(_ & f & _ & E)|(_ & qs & _ & E & _)]]];
    [right; exists EmptyInput | right; exists NoQuestionBlocks
     | right; exists f | left; exists qs; exact E];
    (split; [exact E|]); intros g Hg; rewrite E in Hg;
    apply (@falha_tipo (list Question)); exact Hg.
Qed.

(** ** Texts of white space *)

Lemma forallb_lstrip_by (p q : ascii -> bool) (s : str) :
  forallb p s = true -> forallb p (lstrip_by q s) = true.
Proof.
  induction s as [|c s IH]; simpl; [reflexivity|].
  intros H. destruct (q c).
  - apply andb_true_iff in H as [_ H]; auto.
  - exact H.
Qed.

Lemma forallb_rstrip_by (p q : ascii -> bool) (s : str) :
  forallb p s = true -> forallb p (rstrip_by q s) = true.
Proof.
  induction s as [|c s IH]; simpl; [reflexivity|].
  intros H. apply andb_true_iff in H as [Hc H].
  specialize (IH H).
  destruct (rstrip_by q s).
  - destruct (q c); simpl; [reflexivity|]. rewrite Hc; reflexivity.
  - simpl. rewrite Hc. exact IH.
Qed.

Lemma forallb_strip_by (p q : ascii -> bool) (s : str) :
  forallb p s = true -> forallb p (strip_by q s) = true.
Proof.
  intros H. apply forallb_rstrip_by, forallb_lstrip_by, H.
Qed.

Lemma forallb_rev {A} (p : A -> bool) (l : list A) :
  forallb p (rev l) = forallb p l.
Proof.
  induction l as [|x l IH]; simpl; [reflexivity|].
  rewrite forallb_app, IH. simpl. rewrite andb_true_r. apply andb_comm.
Qed.

Lemma splitlines_from_forallb (p : ascii -> bool) (n : nat) :
  forall s cur,
    length s <= n ->
    forallb p cur = true -> forallb p s = true ->
    Forall (fun l => forallb p l = true) (splitlines_from cur s).
Proof.
  induction n as [|n IH]; intros s cur Hn Hcur Hs.
  - destruct s; [|simpl in Hn; lia].
    simpl. destruct cur; [constructor|].
    constructor; [|constructor].
    rewrite forallb_rev. exact Hcur.
  - destruct s as [|c s]; simpl.
    + destruct cur; [constructor|].
      constructor; [|constructor]. rewrite forallb_rev. exact Hcur.
    + simpl in Hn. simpl in Hs. apply andb_true_iff in Hs as [Hc Hs].
      destruct (is_linebreak c).
      * constructor; [rewrite forallb_rev; exact Hcur|].
        destruct s as [|d s'].
        -- constructor.
        -- simpl in Hs. apply andb_true_iff in Hs as [Hd Hs'].
           simpl in Hn.
           destruct (_ && _).
           ++ apply IH; [lia|reflexivity|exact Hs'].
           ++ apply IH; [simpl; lia|reflexivity|].
              simpl. rewrite Hd. exact Hs'.
      * apply IH; [lia| |exact Hs].
        simpl. rewrite Hc. exact Hcur.
Qed.

Lemma splitlines_forallb (p : ascii -> bool) (s : str) :
  forallb p s = true -> Forall (fun l => forallb p l = true) (splitlines s).
Proof.
  intros H. apply (splitlines_from_forallb p (length s)); auto.
Qed.

Lemma agrupar_brancos (linhas : list str) :
  Forall (fun l => forallb isspace l = true) linhas ->
  fold_left agrupar linhas ([], []) = ([], []).
Proof.
  induction 1 as [|l ls Hl _ IH]; [reflexivity|].
  cbn [fold_left]. rewrite agrupar_branco.
  - exact IH.
  - apply vazio_true. apply strip_by_nil. exact Hl.
Qed.

(** C3, as stated, fails: a text of one space is not [EmptyInput]. *)
Lemma parse_bloco_um_espaco :
  ~ (forall bloco, forallb isspace bloco = true ->
                   parse_bloco bloco = falha EmptyInput).
Proof.
  intros H. specialize (H (lit " ") eq_refl). discriminate H.
Qed.

(** C3, amended.  Only line feeds are stripped before the test for an
    empty text: a text that is empty or made of line feeds fails with
    [EmptyInput]; a text of white space with any other character in it
    fails with [NoQuestionBlocks]. *)
Theorem parse_bloco_em_branco (bloco : str) :
  forallb isspace bloco = true ->
  parse_bloco bloco =
  if forallb is_nl bloco then falha EmptyInput else falha NoQuestionBlocks.
Proof.
  intros Hw. rewrite parse_bloco_eq.
  destruct (forallb is_nl bloco) eqn:En.
  - apply (strip_by_nil is_nl) in En. unfold strip_nl. rewrite En. reflexivity.
  - destruct (vazio (strip_nl bloco)) eqn:Et.
    + apply vazio_true in Et. apply (strip_by_nil is_nl) in Et. congruence.
    + unfold blocos_de, linhas_de.
      rewrite separar_blocos_fecha, agrupar_brancos; [reflexivity|].
      apply splitlines_forallb, forallb_strip_by, Hw.
Qed.

(** The theorem at the empty text, at two line feeds, and at two spaces
    and a line feed. *)
Lemma parse_bloco_em_branco_exemplos :
  (forallb isspace [] = true /\ parse_bloco [] = falha EmptyInput) /\
  (forallb isspace (nl ++ nl) = true /\
   parse_bloco (nl ++ nl) = falha EmptyInput) /\
  (forallb isspace (lit "  " ++ nl) = true /\
   parse_bloco (lit "  " ++ nl) = falha NoQuestionBlocks).
Proof.
  exact (conj (conj eq_refl (parse_bloco_em_branco [] eq_refl))
           (conj (conj eq_refl (parse_bloco_em_branco (nl ++ nl) eq_refl))
                 (conj eq_refl
                       (parse_bloco_em_branco (lit "  " ++ nl) eq_refl)))).
Defined.

(** ** Texts with no block *)

Lemma fecha_nil bs cur : fecha (bs, cur) = [] <-> bs = [] /\ cur = [].
Proof.
  unfold fecha. destruct cur as [|x cur]; simpl.
  - split; [intros ->; split; reflexivity | intros [-> _]; reflexivity].
  - split; [intros H; destruct bs; discriminate H | intros [_ H]; discriminate H].
Qed.

Lemma fecha_agrupar_nil (linhas : list str) :
  forall bs cur,
    fecha (fold_left agrupar linhas (bs, cur)) = [] <->
    bs = [] /\ cur = [] /\ forallb sem_conteudo linhas = true.
Proof.
  induction linhas as [|l ls IH]; intros bs cur; cbn [fold_left forallb].
  - rewrite fecha_nil. tauto.
  - unfold sem_conteudo at 1.
    destruct (vazio (strip l)) eqn:Eb.
    + rewrite (agrupar_branco _ _ _ Eb), IH. simpl.
      destruct cur; simpl; [tauto|].
      split; intros (_ & H & _); discriminate H.
    + destruct (e_inicio l) eqn:Ei.
      * rewrite (agrupar_inicio _ _ _ Ei), IH, fecha_nil. simpl.
        destruct (vazio (depois_de l)); simpl; [tauto|].
        split; [intros (_ & H & _); discriminate H | intros (_ & _ & H); discriminate H].
      * rewrite (agrupar_conteudo _ _ _ Eb Ei), IH. simpl.
        split; [intros (_ & H & _); destruct cur; discriminate H
               | intros (_ & _ & H); discriminate H].
Qed.

Lemma blocos_de_nil (bloco : str) :
  blocos_de bloco = [] <-> forallb sem_conteudo (linhas_de bloco) = true.
Proof.
  unfold blocos_de. rewrite separar_blocos_fecha, fecha_agrupar_nil. tauto.
Qed.

(** C4, as stated, fails: a text with no question-start line but with
    content is read as a block, and fails as a block. *)
Lemma parse_bloco_sem_marcador :
  ~ (forall bloco,
       vazio (strip_nl bloco) = false ->
       (parse_bloco bloco = falha NoQuestionBlocks <->
        forallb (fun l => negb (e_inicio l)) (linhas_de bloco) = true)).
Proof.
  intros H.
  destruct (H (lit "Intro") eq_refl) as [_ H1].
  specialize (H1 eq_refl). discriminate H1.
Qed.

(** C4, amended.  For a text that is not empty once stripped,
    [parse_bloco] fails with [NoQuestionBlocks] exactly when every line is
    blank or is a question-start line with nothing after its colon; lines
    before the first question-start line form a block of their own. *)
Theorem parse_bloco_NoQuestionBlocks (bloco : str) :
  vazio (strip_nl bloco) = false ->
  (parse_bloco bloco = falha NoQuestionBlocks <->
   forallb sem_conteudo (linhas_de bloco) = true).
Proof.
  intros Et. rewrite <- blocos_de_nil.
  destruct (parse_bloco_cases bloco)
    as [[Et' _]|[(_ & Eb & E)|[(Hb & f & Hd & E)|(Hb & qs & _ & E & _)]]].
  - congruence.
  - tauto.
  - split; [|contradiction]. rewrite E. intros H.
    apply falha_tipo in H. destruct f; discriminate.
  - split; [|contradiction]. rewrite E. intros H.
    symmetry in H. exfalso. exact (falha_not_ret _ _ H).
Qed.

(** The theorem at a question-start line with no content, and at a line
    of content with no question-start line. *)
Lemma parse_bloco_NoQuestionBlocks_exemplos :
  (vazio (strip_nl (lit "P1:")) = false /\
   parse_bloco (lit "P1:") = falha NoQuestionBlocks) /\
  (vazio (strip_nl (lit "Intro")) = false /\
   parse_bloco (lit "Intro") <> falha NoQuestionBlocks).
Proof.
  split; (split; [reflexivity|]).
  - apply (parse_bloco_NoQuestionBlocks (lit "P1:") eq_refl). reflexivity.
  - intros H.
    apply (parse_bloco_NoQuestionBlocks (lit "Intro") eq_refl) in H.
    discriminate H.
Defined.

(** C5, as stated, fails: with fewer than two alternatives the block
    fails with [InsufficientChoices], whatever its key. *)
Lemma parse_bloco_uma_alternativa :
  ~ (forall bloco b k,
       In b (blocos_de bloco) ->
       ultimo_gabarito b = Some k -> member k (letras_de b) = false ->
       exists letra titulo,
         parse_bloco bloco = falha (AnswerKeyMismatch letra titulo)).
Proof.
  intros H.
  destruct (H uma_alternativa [lit "Q"; lit "A) x"; lit "G: C"] (lit "c"))
    as (letra & titulo & E); try reflexivity.
  - left; reflexivity.
  - discriminate E.
Qed.

(** C5, amended.  The blocks are checked in order, and in each block the
    number of alternatives first.  When the blocks before [b] validate and
    [b] has two alternatives or more and a key that is the letter of none,
    [parse_bloco] fails with [AnswerKeyMismatch], reporting the key in upper
    case and the title of [b]. *)
Theorem parse_bloco_AnswerKeyMismatch (bloco : str) bs1 b bs2 k :
  blocos_de bloco = bs1 ++ b :: bs2 ->
  forallb bloco_valido bs1 = true ->
  2 <= length (alternativas_de b) ->
  ultimo_gabarito b = Some k ->
  member k (letras_de b) = false ->
  exists e, enunciado_de b = Some e /\
            parse_bloco bloco = falha (AnswerKeyMismatch (upper k) e).
Proof.
  intros Eb Hv Hn Hk Hm.
  assert (Hj : exists e, enunciado_de b = Some e /\
                         julgar b = falha (AnswerKeyMismatch (upper k) e)).
  { unfold julgar. destruct (enunciado_de b) as [e|] eqn:Ee.
    - exists e. split; [reflexivity|].
      apply Nat.ltb_ge in Hn. rewrite Hn, Hk, (not_member_index_of _ _ Hm).
      reflexivity.
    - exfalso. unfold enunciado_de in Ee. unfold alternativas_de, corpo_de in Hn.
      destruct (linhas_uteis b); [simpl in Hn; lia|discriminate Ee]. }
  destruct Hj as (e & Ee & Hj). exists e. split; [exact Ee|].
  rewrite parse_bloco_eq.
  destruct (vazio (strip_nl bloco)) eqn:Et.
  - exfalso. apply vazio_true in Et. unfold blocos_de, linhas_de in Eb.
    rewrite Et in Eb. destruct bs1; discriminate Eb.
  - rewrite Eb.
    assert (Hv' : Forall (fun b => bloco_valido b = true) bs1)
      by (apply Forall_forall; apply forallb_forall; exact Hv).
    rewrite (montar_primeira_falha bs1 b bs2 [] _ Hv' Hj).
    destruct bs1; reflexivity.
Qed.

(** The theorem at scenario 5 of the specification. *)
Lemma parse_bloco_AnswerKeyMismatch_cenario_5 :
  exists e, enunciado_de [lit "Q"; lit "A) x"; lit "B) y"; lit "G: C"] = Some e /\
            parse_bloco cenario_5 = falha (AnswerKeyMismatch (upper (lit "c")) e).
Proof.
  apply (parse_bloco_AnswerKeyMismatch cenario_5 []
           [lit "Q"; lit "A) x"; lit "B) y"; lit "G: C"] [] (lit "c"));
    reflexivity.
Defined.

(** C8, as stated, fails: of two answer-key lines the second governs. *)
Lemma parse_bloco_dois_gabaritos :
  ~ (forall bloco qs,
       parse_bloco bloco = ret qs ->
       Forall2 (fun b q => exists k, primeiro_gabarito b = Some k /\
                                     posicao k (letras_de b) (correta_idx q))
               (blocos_de bloco) qs).
Proof.
  intros H.
  specialize (H dois_gabaritos _ eq_refl).
  inversion H as [|b q bs qs' (k & Hk & Hp & _) _]; subst.
  injection Hk as <-. discriminate Hp.
Qed.

(** C8, amended.  When a block has more than one answer-key line, the
    last one governs the correct index. *)
Theorem ultimo_gabarito_governa (bloco : str) (qs : list Question) :
  parse_bloco bloco = ret qs ->
  Forall2 (fun b q => exists k, ultimo_gabarito b = Some k /\
                                posicao k (letras_de b) (correta_idx q))
          (blocos_de bloco) qs.
Proof.
  intros E.
  assert (Hs : snd (parse_bloco bloco) = Value qs) by (rewrite E; reflexivity).
  destruct (parse_bloco_value _ _ Hs) as (_ & _ & HF).
  revert HF. apply Forall2_impl. intros b q H.
  apply julgar_ret_some in H as [_ (_ & _ & H)]. exact H.
Qed.

(** The theorem at a block with the lines [G: A] and [G: B]. *)
Lemma ultimo_gabarito_governa_dois_gabaritos :
  parse_bloco dois_gabaritos =
    ret [ {| title := lit "Q"; alternativas := [lit "x"; lit "y"];
             correta_idx := 1 |} ] /\
  Forall2 (fun b q => exists k, ultimo_gabarito b = Some k /\
                                posicao k (letras_de b) (correta_idx q))
          (blocos_de dois_gabaritos)
          [ {| title := lit "Q"; alternativas := [lit "x"; lit "y"];
               correta_idx := 1 |} ].
Proof.
  split; [reflexivity|].
  apply (ultimo_gabarito_governa dois_gabaritos). reflexivity.
Defined.

(** The two versions, loop by loop. *)
Lemma agrupar_V3_V5 st (linha : str) : V3.agrupar st linha = V5.agrupar st linha.
Proof. destruct st as [blocos bloco_atual]. reflexivity. Qed.

Lemma separar_blocos_V3_V5 (linhas : list str) :
  V3.separar_blocos linhas = V5.separar_blocos linhas.
Proof.
  unfold V3.separar_blocos, V5.separar_blocos.
  assert (E : forall st, fold_left V3.agrupar linhas st
                         = fold_left V5.agrupar linhas st).
  { induction linhas as [|l ls IH]; intros st; [reflexivity|].
    cbn [fold_left]. rewrite agrupar_V3_V5. apply IH. }
  rewrite E. reflexivity.
Qed.

Lemma ler_linhas_V3_V5 (corpo : list str) :
  V3.ler_linhas corpo = V5.ler_linhas corpo.
Proof.
  unfold V3.ler_linhas, V5.ler_linhas.
  generalize (@nil str, @nil str, @None str).
  induction corpo as [|l ls IH]; intros st; [reflexivity|].
  cbn [fold_left].
  replace (V3.ler_linha st l) with (V5.ler_linha st l)
    by (destruct st as [[textos letras] k]; reflexivity).
  apply IH.
Qed.

Lemma montar_pergunta_V3_V5 (bloco_p : list str) :
  V3.montar_pergunta bloco_p = V5.montar_pergunta bloco_p.
Proof.
  unfold V3.montar_pergunta, V5.montar_pergunta.
  destruct (map strip _) as [|enunciado corpo]; [reflexivity|].
  rewrite ler_linhas_V3_V5. reflexivity.
Qed.

Lemma montar_V3_V5 (blocos : list (list str)) :
  forall perguntas, V3.montar blocos perguntas = V5.montar blocos perguntas.
Proof.
  induction blocos as [|b bs IH]; intros perguntas; [reflexivity|].
  cbn [V3.montar V5.montar]. rewrite montar_pergunta_V3_V5.
  destruct (V5.montar_pergunta b) as [out [[q|]| |]]; simpl;
    try rewrite IH; reflexivity.
Qed.

(** C9. The two versions of [parse_bloco] agree on every text: the same
    run, hence the same questions when they return and the same failure
    when they fail. *)
Theorem parse_bloco_V3_V5 (bloco : str) :
  V3.parse_bloco bloco = V5.parse_bloco bloco /\
  (forall qs, snd (V3.parse_bloco bloco) = Value qs <->
              snd (V5.parse_bloco bloco) = Value qs) /\
  (forall f, V3.parse_bloco bloco = falha f <->
             V5.parse_bloco bloco = falha f).
Proof.
  assert (E : V3.parse_bloco bloco = V5.parse_bloco bloco).
  { unfold V3.parse_bloco, V5.parse_bloco.
    rewrite separar_blocos_V3_V5, montar_V3_V5. reflexivity. }
  rewrite E. split; [reflexivity|]. split; intros; tauto.
Qed.

(** C10. Every block has a line that is not blank, so the loop body never
    skips a block: it yields a question or fails for that block.  Hence a
    call that returns returns at least one question, and the last failure
    of the function, [NoValidQuestions], is never reported. *)
Theorem perguntas_nao_vazias (bloco : str) :
  Forall (fun b => exists l, In l b /\ strip l <> []) (blocos_de bloco) /\
  Forall (fun b => (exists q, montar_pergunta b = ret (Some q)) \/
                   (exists f, de_bloco f = true /\
                              montar_pergunta b = falha f))
         (blocos_de bloco) /\
  (forall qs, snd (parse_bloco bloco) = Value qs -> qs <> []) /\
  ~ In (mensagem NoValidQuestions) (fst (parse_bloco bloco)).
Proof.
  pose proof (blocos_bem_formados (linhas_de bloco)) as Hbf.
  fold (blocos_de bloco) in Hbf.
  split; [|split; [|split]].
  - revert Hbf. apply Forall_impl. intros b Hb.
    unfold enunciado_de, linhas_uteis in Hb.
    destruct (filter (fun l => negb (vazio l)) (map strip b)) as [|u us] eqn:E;
      [exfalso; apply Hb; reflexivity|].
    assert (Hu : In u (filter (fun l => negb (vazio l)) (map strip b)))
      by (rewrite E; left; reflexivity).
    apply filter_In in Hu as [Hu Hne].
    apply in_map_iff in Hu as (l & <- & Hl).
    exists l. split; [exact Hl|].
    apply vazio_false. destruct (vazio (strip l)); [discriminate|reflexivity].
  - revert Hbf. apply Forall_impl. intros b Hb.
    rewrite montar_pergunta_julgar.
    destruct (julgar_cases b) as [[He _]|[H|H]]; [contradiction|left|right];
      exact H.
  - intros qs H. apply parse_bloco_value in H. tauto.
  - destruct (parse_bloco_cases bloco)
      as [[_ E]|[(_ & _ & E)|[(_ & f & Hd & E)|(_ & qs & _ & E & _)]]];
      rewrite E; unfold falha, ret; cbn [fst In]; try tauto;
      intros [H|[]]; apply mensagem_tipo in H; try discriminate H.
    destruct f; discriminate.
Qed.

(** ** Order *)

Lemma corresponde_uteis (b b' : list str) (q : Question) :
  linhas_uteis b = linhas_uteis b' -> corresponde b q -> corresponde b' q.
Proof.
  unfold corresponde, enunciado_de, alternativas_de, corpo_de.
  intros ->. exact (fun H => H).
Qed.

Lemma Forall2_uteis (P : list str -> Question -> Prop) :
  (forall b b' q, linhas_uteis b = linhas_uteis b' -> P b q -> P b' q) ->
  forall bs bs' qs,
    map linhas_uteis bs = map linhas_uteis bs' ->
    Forall2 P bs qs -> Forall2 P bs' qs.
Proof.
  intros HP bs bs' qs E H; revert bs' E.
  induction H as [|b q bs qs Hb _ IH]; intros [|b' bs'] E;
    try discriminate E; constructor.
  - injection E as E _. exact (HP _ _ _ E Hb).
  - injection E as _ E. exact (IH _ E).
Qed.

Lemma retrata_corresponde (b : list str) (q : Question) :
  retrata b q -> corresponde b q.
Proof.
  intros (Ht & Ha & _). split; [exact Ht|].
  intros j. rewrite Ha. unfold textos_de. apply nth_error_map.
Qed.

Lemma filter_todos {A} (f : A -> bool) (l : list A) :
  forallb f l = true -> filter f l = l.
Proof.
  induction l as [|x l IH]; simpl; [reflexivity|].
  intros H; apply andb_true_iff in H as [-> H]. rewrite IH by exact H.
  reflexivity.
Qed.

(** C6, as stated, fails: a question written before the first
    question-start line is returned too, so the questions are not one per
    question-start line. *)
Lemma ordem_sem_primeiro_marcador :
  ~ (forall bloco qs,
       parse_bloco bloco = ret qs ->
       Forall2 corresponde (segmentos (linhas_de bloco)) qs).
Proof.
  intros H.
  specialize (H sem_primeiro_marcador _ eq_refl).
  apply Forall2_length in H. discriminate H.
Qed.

(** C6, amended.  The questions returned are, in order, those of the
    segments of the text that have content: first the lines before the
    first question-start line, then one segment per question-start line;
    a segment with no content yields no question.  Within a question the
    [j]-th choice is the text of the [j]-th alternative line of its
    segment.  So when no content comes before the first question-start
    line and every question-start line has content, the [i]-th question is
    that of the [i]-th question-start line. *)
Theorem ordem_preservada (bloco : str) (qs : list Question) :
  parse_bloco bloco = ret qs ->
  Forall2 corresponde
          (filter com_conteudo
                  (ate_inicio (linhas_de bloco) :: segmentos (linhas_de bloco)))
          qs /\
  (com_conteudo (ate_inicio (linhas_de bloco)) = false ->
   forallb com_conteudo (segmentos (linhas_de bloco)) = true ->
   Forall2 corresponde (segmentos (linhas_de bloco)) qs).
Proof.
  intros E.
  assert (Hs : snd (parse_bloco bloco) = Value qs) by (rewrite E; reflexivity).
  destruct (parse_bloco_value _ _ Hs) as (_ & _ & HF).
  assert (H : Forall2 corresponde
                      (filter com_conteudo
                         (ate_inicio (linhas_de bloco)
                          :: segmentos (linhas_de bloco))) qs).
  { apply (Forall2_uteis corresponde corresponde_uteis (blocos_de bloco)).
    - apply separar_blocos_uteis.
    - revert HF. apply Forall2_impl. intros b q Hj.
      apply retrata_corresponde. apply julgar_ret_some in Hj. tauto. }
  split; [exact H|].
  intros Hp Hsegs. simpl filter in H. rewrite Hp in H.
  rewrite (filter_todos _ _ Hsegs) in H. exact H.
Qed.

(** The theorem at a text of two questions. *)
Lemma ordem_preservada_duas_perguntas :
  let qs := [ {| title := lit "Q1"; alternativas := [lit "x"; lit "y"];
                 correta_idx := 0 |};
              {| title := lit "Q2"; alternativas := [lit "u"; lit "v"];
                 correta_idx := 1 |} ] in
  parse_bloco duas_perguntas = ret qs /\
  Forall2 corresponde (segmentos (linhas_de duas_perguntas)) qs.
Proof.
  split; [reflexivity|].
  apply (ordem_preservada duas_perguntas); reflexivity.
Defined.

(** ** Letter case *)

Lemma julgar_resumo (b b' : list str) : resumo b = resumo b' -> julgar b = julgar b'.
Proof.
  unfold resumo. intros H. injection H as He Ha Hg.
  unfold julgar, ultimo_gabarito, letras_de, textos_de.
  rewrite He, Ha, Hg. reflexivity.
Qed.

Lemma montar_resumo (bs bs' : list (list str)) :
  map resumo bs = map resumo bs' ->
  forall acc, montar bs acc = montar bs' acc.
Proof.
  revert bs'. induction bs as [|b bs IH]; intros [|b' bs'] E acc;
    try discriminate E; [reflexivity|].
  cbn [map] in E.
  assert (Eb : resumo b = resumo b') by congruence.
  assert (Es : map resumo bs = map resumo bs') by congruence.
  clear E. rename Es into E.
  rewrite !montar_cons, (julgar_resumo _ _ Eb).
  destruct (julgar b') as [out [[q|]| |]]; simpl; try reflexivity;
    rewrite (IH _ E); reflexivity.
Qed.

Lemma rstrip_by_cons_inv (p : ascii -> bool) (s : str) c x :
  rstrip_by p s = c :: x -> exists s', s = c :: s' /\ x = rstrip_by p s'.
Proof.
  destruct s as [|d s']; simpl; [discriminate|].
  destruct (rstrip_by p s') as [|e r] eqn:E.
  - destruct (p d); [discriminate|].
    intros H; injection H as -> <-. exists s'. rewrite E. split; reflexivity.
  - intros H; injection H as -> <-. exists s'. rewrite E. split; reflexivity.
Qed.

Lemma lstrip_rstrip_by (p : ascii -> bool) (s : str) :
  lstrip_by p (rstrip_by p s) = rstrip_by p (lstrip_by p s).
Proof.
  induction s as [|c s IH]; [reflexivity|].
  destruct (p c) eqn:Ec.
  - simpl. rewrite Ec, <- IH.
    destruct (rstrip_by p s); simpl; try rewrite Ec; reflexivity.
  - rewrite (lstrip_by_keep _ _ _ Ec), (rstrip_by_keep _ _ _ Ec).
    apply lstrip_by_keep, Ec.
Qed.

Lemma lstrip_minuscula_inicio (l : str) :
  lstrip_by isspace (minuscula_inicio l) =
  match lstrip_by isspace l with
  | [] => []
  | c :: r => lower_char c :: r
  end.
Proof.
  induction l as [|c l IH]; [reflexivity|]. simpl.
  destruct (isspace c) eqn:Ec; simpl.
  - rewrite Ec. exact IH.
  - rewrite isspace_lower_char, Ec. reflexivity.
Qed.

Lemma strip_minuscula_inicio (l : str) :
  strip (minuscula_inicio l) =
  match strip l with
  | [] => []
  | c :: r => lower_char c :: r
  end.
Proof.
  unfold strip, strip_by. rewrite lstrip_minuscula_inicio.
  destruct (lstrip_by isspace l) as [|c r] eqn:E; [reflexivity|].
  pose proof (lstrip_by_head _ _ _ _ E) as Hc.
  rewrite !rstrip_by_keep; [reflexivity|exact Hc|].
  rewrite isspace_lower_char. exact Hc.
Qed.

Lemma lstrip_minuscula_gabarito (l : str) :
  lstrip_by isspace (minuscula_gabarito l) =
  match lstrip_by isspace l with
  | [] => []
  | c :: r =>
      lower_char c :: match r with
                      | p :: r' => p :: minuscula_inicio r'
                      | [] => []
                      end
  end.
Proof.
  induction l as [|c l IH]; [reflexivity|]. simpl.
  destruct (isspace c) eqn:Ec; simpl.
  - rewrite Ec. exact IH.
  - rewrite isspace_lower_char, Ec. reflexivity.
Qed.

(** The shape of a line that the answer-key pattern matches. *)
Lemma re_gab_some (s : str) x :
  re_gab s = Some x ->
  exists g rest k t,
    s = g :: ":"%char :: rest /\ eqb_nocase "G" "g" g = true /\
    lstrip_by isspace rest = k :: t /\ isletter k = true /\ x = [k].
Proof.
  destruct s as [|g [|p rest]]; simpl; try discriminate.
  destruct (eqb_nocase "G" "g" g) eqn:Eg; [|discriminate].
  destruct (Ascii.eqb_spec p ":") as [->|]; [|discriminate]. simpl.
  destruct (lstrip_by isspace rest) as [|k t] eqn:E; [discriminate|].
  destruct (isletter k) eqn:Ek; [|discriminate].
  intros H; injection H as <-.
  exists g, rest, k, t. repeat split; assumption.
Qed.

(** The shape of a line that the alternative pattern matches. *)
Lemma re_alt_some (s : str) x :
  re_alt s = Some x ->
  exists c rest g2,
    s = c :: ")"%char :: rest /\ isletter c = true /\ x = ([c], g2) /\
    forall d, isletter d = true -> re_alt (d :: ")"%char :: rest) = Some ([d], g2).
Proof.
  destruct s as [|c [|p rest]]; simpl; try discriminate.
  destruct (isletter c) eqn:Ec; [|discriminate].
  destruct (Ascii.eqb_spec p ")") as [->|]; [|discriminate]. simpl.
  destruct (take_dots (lstrip_by isspace rest)) as [|a g2] eqn:E.
  - destruct (last_dot rest) as [d|] eqn:El; [|discriminate].
    simpl. intros H; injection H as <-.
    exists c, rest, [d]. repeat split; try assumption.
    intros e He. simpl. rewrite He, E, El. reflexivity.
  - intros H; injection H as <-.
    exists c, rest, (a :: g2). repeat split; try assumption.
    intros e He. simpl. rewrite He, E. reflexivity.
Qed.

Lemma nocase_P_not_colon (c : ascii) :
  eqb_nocase "P" "p" c = true ->
  Ascii.eqb c ":" = false /\ Ascii.eqb (lower_char c) ":" = false.
Proof. por_caracter c; intros _; split; reflexivity. Qed.

Lemma nocase_G_not_P (c : ascii) :
  eqb_nocase "G" "g" c = true -> eqb_nocase "P" "p" c = false.
Proof. por_caracter c. Qed.

Lemma re_inicio_lower_head (c : ascii) (r : str) :
  re_inicio (lower_char c :: r) = re_inicio (c :: r).
Proof. simpl. rewrite nocase_P_lower_char. reflexivity. Qed.

Lemma canonica_linha_branco (p : bool) (l : str) :
  vazio (strip l) = true -> canonica_linha p l = l.
Proof. unfold canonica_linha. intros ->. reflexivity. Qed.

Lemma canonica_linha_pendente (l : str) :
  e_inicio l = false -> canonica_linha true l = l.
Proof.
  unfold canonica_linha, e_inicio. intros ->.
  destruct (vazio (strip l)); reflexivity.
Qed.

Lemma canonica_linha_inicio (p : bool) (l : str) :
  e_inicio l = true ->
  e_inicio (canonica_linha p l) = true /\
  depois_de (canonica_linha p l) = depois_de l.
Proof.
  unfold canonica_linha, e_inicio, depois_de. intros H. rewrite H.
  destruct (strip l) as [|c r] eqn:E; [discriminate H|]. simpl vazio. cbv iota.
  rewrite strip_minuscula_inicio, E, re_inicio_lower_head.
  split; [exact H|].
  simpl in H. apply andb_true_iff in H as [Hc _].
  destruct (nocase_P_not_colon _ Hc) as [H1 H2].
  simpl. rewrite H1, H2. reflexivity.
Qed.

Lemma strip_minuscula_gabarito (l : str) g rest :
  strip l = g :: ":"%char :: rest ->
  exists r', rest = rstrip_by isspace r' /\
             strip (minuscula_gabarito l)
             = lower_char g :: ":"%char :: rstrip_by isspace (minuscula_inicio r').
Proof.
  unfold strip, strip_by. intros E.
  rewrite lstrip_minuscula_gabarito.
  destruct (lstrip_by isspace l) as [|g0 r] eqn:El; [discriminate E|].
  pose proof (lstrip_by_head _ _ _ _ El) as Hg0.
  rewrite (rstrip_by_keep _ _ _ Hg0) in E. injection E as -> E.
  apply rstrip_by_cons_inv in E as (r' & -> & ->).
  exists r'. split; [reflexivity|].
  rewrite rstrip_by_keep by (rewrite isspace_lower_char; exact Hg0).
  rewrite (rstrip_by_keep isspace _ ":"%char eq_refl). reflexivity.
Qed.

Lemma canonica_linha_conteudo (l : str) :
  vazio (strip l) = false -> e_inicio l = false ->
  vazio (strip (canonica_linha false l)) = false /\
  e_inicio (canonica_linha false l) = false /\
  alternativa_de (strip (canonica_linha false l)) = alternativa_de (strip l) /\
  gabarito_da_linha (strip (canonica_linha false l))
  = gabarito_da_linha (strip l).
Proof.
  unfold canonica_linha, e_inicio. intros Hb Hi. rewrite Hb, Hi.
  destruct (re_alt (strip l)) as [x|] eqn:Ea.
  - (* an alternative line *)
    destruct (re_alt_some _ _ Ea) as (c & rest & g2 & E & Hc & -> & Hd).
    rewrite strip_minuscula_inicio, E.
    rewrite re_inicio_lower_head, <- E, Hi.
    assert (Ea' : re_alt (lower_char c :: ")"%char :: rest)
                  = Some ([lower_char c], g2)).
    { apply Hd. rewrite isletter_lower_char. exact Hc. }
    repeat split.
    + unfold alternativa_de. rewrite Ea', Ea. simpl.
      rewrite lower_char_idem. reflexivity.
    + unfold gabarito_da_linha.
      rewrite (re_alt_not_gab _ _ Ea'), (re_alt_not_gab _ _ Ea). reflexivity.
  - destruct (re_gab (strip l)) as [x|] eqn:Eg.
    + (* an answer-key line *)
      destruct (re_gab_some _ _ Eg) as (g & rest & k & t & E & Hg & Ek & Hk & ->).
      destruct (strip_minuscula_gabarito _ _ _ E) as (r' & -> & E').
      rewrite E', E.
      assert (Hhead : lstrip_by isspace (rstrip_by isspace (minuscula_inicio r'))
                      = lower_char k :: t).
      { rewrite lstrip_rstrip_by.
        change (strip (minuscula_inicio r') = lower_char k :: t).
        rewrite strip_minuscula_inicio. unfold strip, strip_by.
        rewrite <- lstrip_rstrip_by, Ek. reflexivity. }
      repeat split.
      * simpl. rewrite (nocase_G_not_P (lower_char g)); [reflexivity|].
        rewrite nocase_G_lower_char. exact Hg.
      * unfold alternativa_de. simpl. rewrite !andb_false_r. reflexivity.
      * unfold gabarito_da_linha.
        cbn [re_gab]. rewrite nocase_G_lower_char, Hg, Hhead, Ek.
        simpl. rewrite isletter_lower_char, Hk. simpl.
        rewrite lower_char_idem. reflexivity.
    + repeat split; solve [assumption | reflexivity].
Qed.

Lemma resumo_uteis (b b' : list str) :
  linhas_uteis b = linhas_uteis b' -> resumo b = resumo b'.
Proof.
  unfold resumo, enunciado_de, alternativas_de, gabaritos_de, corpo_de.
  intros ->. reflexivity.
Qed.

Lemma resumo_mais_uma (cur : list str) (l : str) :
  linhas_uteis cur <> [] -> vazio (strip l) = false ->
  resumo (cur ++ [l]) =
  (enunciado_de cur,
   alternativas_de cur ++ alternativa_de (strip l),
   gabaritos_de cur ++ gabarito_da_linha (strip l)).
Proof.
  intros Hne Hb.
  unfold resumo, enunciado_de, alternativas_de, gabaritos_de, corpo_de.
  rewrite linhas_uteis_app, (linhas_uteis_cons _ _ Hb).
  change (linhas_uteis []) with (@nil str).
  destruct (linhas_uteis cur) as [|e corpo]; [congruence|].
  simpl hd_error. simpl tl. rewrite !flat_map_app. simpl.
  rewrite !app_nil_r. reflexivity.
Qed.

Lemma vazio_app_um {A} (l : list A) (x : A) : vazio (l ++ [x]) = false.
Proof. destruct l; reflexivity. Qed.

Lemma fecha_resumo bs bs' (cur cur' : list str) :
  map resumo bs = map resumo bs' ->
  vazio cur = vazio cur' -> resumo cur = resumo cur' ->
  map resumo (fecha (bs, cur)) = map resumo (fecha (bs', cur')).
Proof.
  intros Hbs Hv Hr. unfold fecha. rewrite <- Hv.
  destruct (vazio cur); [exact Hbs|].
  rewrite !map_app. simpl. congruence.
Qed.

Lemma agrupar_canonica (linhas : list str) :
  forall bs bs' cur cur',
    map resumo bs = map resumo bs' ->
    vazio cur = vazio cur' -> resumo cur = resumo cur' ->
    cur = [] \/ linhas_uteis cur <> [] ->
    cur' = [] \/ linhas_uteis cur' <> [] ->
    map resumo (fecha (fold_left agrupar linhas (bs, cur))) =
    map resumo (fecha (fold_left agrupar (canonica (vazio cur) linhas)
                                 (bs', cur'))).
Proof.
  induction linhas as [|l ls IH]; intros bs bs' cur cur' Hbs Hv Hr Hf Hf'.
  - apply fecha_resumo; assumption.
  - cbn [canonica fold_left]. unfold titulo_pendente.
    destruct (vazio (strip l)) eqn:Eb.
    + (* a blank line *)
      rewrite (canonica_linha_branco _ _ Eb), !(agrupar_branco _ _ _ Eb).
      rewrite <- Hv.
      destruct (vazio cur) eqn:Ec.
      * rewrite <- Ec at 1. apply IH; solve [assumption | congruence].
      * rewrite <- (vazio_app_um cur []). apply IH.
        -- assumption.
        -- rewrite !vazio_app_um. reflexivity.
        -- transitivity (resumo cur);
             [|rewrite Hr; symmetry]; apply resumo_uteis;
             rewrite linhas_uteis_app; apply app_nil_r.
        -- right. rewrite linhas_uteis_app, app_nil_r.
           destruct Hf as [->|Hf]; [discriminate Ec|exact Hf].
        -- right. rewrite linhas_uteis_app, app_nil_r.
           destruct Hf' as [->|Hf']; [discriminate Hv|exact Hf'].
    + destruct (e_inicio l) eqn:Ei; unfold e_inicio in Ei; rewrite Ei;
        fold (e_inicio l) in Ei.
      * (* a question-start line *)
        destruct (canonica_linha_inicio (vazio cur) l Ei) as [Ei' Ed].
        rewrite (agrupar_inicio _ _ _ Ei), (agrupar_inicio _ _ _ Ei'), Ed.
        set (novo := if vazio (depois_de l) then [] else [depois_de l]).
        assert (Hn : vazio novo = vazio (depois_de l))
          by (unfold novo; destruct (vazio (depois_de l)); reflexivity).
        rewrite <- Hn. apply IH; try reflexivity.
        -- apply fecha_resumo; assumption.
        -- unfold novo. destruct (vazio (depois_de l)) eqn:Ev; [left; reflexivity|].
           right. rewrite linhas_uteis_cons; [discriminate|].
           unfold depois_de in *. rewrite strip_idem. exact Ev.
        -- unfold novo. destruct (vazio (depois_de l)) eqn:Ev; [left; reflexivity|].
           right. rewrite linhas_uteis_cons; [discriminate|].
           unfold depois_de in *. rewrite strip_idem. exact Ev.
      * (* a line of content *)
        rewrite (agrupar_conteudo _ _ _ Eb Ei).
        rewrite <- (vazio_app_um cur l).
        destruct (vazio cur) eqn:Ec.
        -- (* the title *)
           rewrite (canonica_linha_pendente _ Ei), (agrupar_conteudo _ _ _ Eb Ei).
           apply vazio_true in Ec. symmetry in Hv. apply vazio_true in Hv.
           subst cur cur'. apply IH; try reflexivity; try assumption;
             right; rewrite linhas_uteis_app, (linhas_uteis_cons _ _ Eb);
             simpl; discriminate.
        -- destruct (canonica_linha_conteudo l Eb Ei) as (Eb' & Ei' & Ea & Eg).
           rewrite (agrupar_conteudo _ _ _ Eb' Ei').
           assert (Hu : linhas_uteis cur <> [])
             by (destruct Hf as [->|Hf]; [discriminate Ec|exact Hf]).
           assert (Hu' : linhas_uteis cur' <> [])
             by (destruct Hf' as [->|Hf']; [discriminate Hv|exact Hf']).
           apply IH.
           ++ assumption.
           ++ rewrite !vazio_app_um. reflexivity.
           ++ rewrite (resumo_mais_uma _ _ Hu Eb), (resumo_mais_uma _ _ Hu' Eb').
              rewrite Ea, Eg. unfold resumo in Hr. congruence.
           ++ right. rewrite linhas_uteis_app. intros H.
              apply app_eq_nil in H as [H _]. contradiction.
           ++ right. rewrite linhas_uteis_app. intros H.
              apply app_eq_nil in H as [H _]. contradiction.
Qed.

Lemma separar_blocos_canonica (linhas : list str) :
  map resumo (separar_blocos (canonica true linhas))
  = map resumo (separar_blocos linhas).
Proof.
  rewrite !separar_blocos_fecha. symmetry.
  apply (agrupar_canonica linhas [] [] [] []); auto.
Qed.

Lemma vazio_map {A B} (f : A -> B) (l : list A) : vazio (map f l) = vazio l.
Proof. destruct l; reflexivity. Qed.

(** ** The canonical form of a text *)

Lemma splitlines_from_cons (cur : str) c (s : str) :
  splitlines_from cur (c :: s) =
  if is_linebreak c then
    rev cur ::
    match s with
    | d :: s' =>
        if Ascii.eqb c (chr 13) && Ascii.eqb d (chr 10)
        then splitlines_from [] s'
        else splitlines_from [] s
    | [] => splitlines_from [] s
    end
  else splitlines_from (c :: cur) s.
Proof. destruct s; reflexivity. Qed.

Lemma linhas_e_fins_from_cons (cur : str) c (s : str) :
  linhas_e_fins_from cur (c :: s) =
  if is_linebreak c then
    match s with
    | d :: s' =>
        if Ascii.eqb c (chr 13) && Ascii.eqb d (chr 10)
        then (rev cur, [c; d]) :: linhas_e_fins_from [] s'
        else (rev cur, [c]) :: linhas_e_fins_from [] s
    | [] => (rev cur, [c]) :: linhas_e_fins_from [] s
    end
  else linhas_e_fins_from (c :: cur) s.
Proof. destruct s; reflexivity. Qed.

Lemma splitlines_from_fst (n : nat) :
  forall s cur, length s <= n ->
    splitlines_from cur s = map fst (linhas_e_fins_from cur s).
Proof.
  induction n as [|n IH]; intros s cur Hn.
  - destruct s; [|simpl in Hn; lia]. simpl. destruct cur; reflexivity.
  - destruct s as [|c s].
    + simpl. destruct cur; reflexivity.
    + rewrite splitlines_from_cons, linhas_e_fins_from_cons.
      simpl in Hn. destruct (is_linebreak c).
      * destruct s as [|d s']; [reflexivity|]. simpl in Hn.
        destruct (_ && _); cbn [map fst]; f_equal; apply IH; simpl; lia.
      * apply IH; lia.
Qed.

Lemma splitlines_fst (s : str) : splitlines s = map fst (linhas_e_fins s).
Proof. apply (splitlines_from_fst (length s)). reflexivity. Qed.

Lemma colar_linhas_e_fins_from (n : nat) :
  forall s cur, length s <= n ->
    colar (linhas_e_fins_from cur s) = rev cur ++ s.
Proof.
  induction n as [|n IH]; intros s cur Hn.
  - destruct s; [|simpl in Hn; lia]. simpl.
    destruct cur; [reflexivity|]. simpl. rewrite !app_nil_r. reflexivity.
  - destruct s as [|c s].
    + simpl. destruct cur; [reflexivity|]. simpl. rewrite !app_nil_r. reflexivity.
    + rewrite linhas_e_fins_from_cons.
      simpl in Hn. destruct (is_linebreak c).
      * destruct s as [|d s']; [simpl; reflexivity|]. simpl in Hn.
        destruct (_ && _); cbn [colar]; rewrite IH by (simpl; lia);
          simpl; rewrite <- ?app_assoc; reflexivity.
      * rewrite IH by lia. simpl. rewrite <- app_assoc. reflexivity.
Qed.

Lemma colar_linhas_e_fins (s : str) : colar (linhas_e_fins s) = s.
Proof. apply (colar_linhas_e_fins_from (length s)). reflexivity. Qed.

Lemma par_de_caixa_refl (c : ascii) : par_de_caixa c c.
Proof. split; [reflexivity|intros _; reflexivity]. Qed.

Lemma par_de_caixa_lower (c : ascii) : par_de_caixa c (lower_char c).
Proof. unfold par_de_caixa. por_caracter c; split; try reflexivity; discriminate. Qed.

Lemma Forall2_refl {A} (R : A -> A -> Prop) (l : list A) :
  (forall x, R x x) -> Forall2 R l l.
Proof. intros H; induction l; constructor; auto. Qed.

Lemma minuscula_inicio_par (l : str) :
  Forall2 par_de_caixa l (minuscula_inicio l).
Proof.
  induction l as [|c l IH]; simpl; [constructor|].
  destruct (isspace c); constructor;
    auto using par_de_caixa_refl, par_de_caixa_lower.
  apply Forall2_refl, par_de_caixa_refl.
Qed.

Lemma minuscula_gabarito_par (l : str) :
  Forall2 par_de_caixa l (minuscula_gabarito l).
Proof.
  induction l as [|c l IH]; simpl; [constructor|].
  destruct (isspace c); constructor;
    auto using par_de_caixa_refl, par_de_caixa_lower.
  destruct l; constructor;
    auto using par_de_caixa_refl, minuscula_inicio_par.
Qed.

Lemma canonica_linha_par (p : bool) (l : str) :
  Forall2 par_de_caixa l (canonica_linha p l).
Proof.
  unfold canonica_linha.
  destruct (vazio (strip l)); [apply Forall2_refl, par_de_caixa_refl|].
  destruct (re_inicio (strip l)); [apply minuscula_inicio_par|].
  destruct p; [apply Forall2_refl, par_de_caixa_refl|].
  destruct (re_alt (strip l)); [apply minuscula_inicio_par|].
  destruct (re_gab (strip l));
    [apply minuscula_gabarito_par | apply Forall2_refl, par_de_caixa_refl].
Qed.

Lemma par_de_caixa_nl (c c' : ascii) :
  par_de_caixa c c' -> Ascii.eqb c (chr 10) = Ascii.eqb c' (chr 10).
Proof.
  intros [Hl He].
  destruct (Ascii.eqb_spec c (chr 10)) as [->|Hc].
  - rewrite <- (He eq_refl). reflexivity.
  - destruct (Ascii.eqb_spec c' (chr 10)) as [->|Hc']; [|reflexivity].
    exfalso. apply Hc. apply He. rewrite Hl. reflexivity.
Qed.

Lemma linhas_e_fins_from_forma (n : nat) :
  forall s s' cur cur',
    length s <= n ->
    Forall2 par_de_caixa s s' -> length cur = length cur' ->
    Forall2 mesma_forma (linhas_e_fins_from cur s) (linhas_e_fins_from cur' s').
Proof.
  induction n as [|n IH]; intros s s' cur cur' Hn Hs Hcur.
  - destruct Hs; [|simpl in Hn; lia]. simpl.
    destruct cur, cur'; try discriminate Hcur; constructor; [|constructor].
    split; [|reflexivity]. cbn [fst]. rewrite !length_rev. exact Hcur.
  - destruct Hs as [|c c' s s' Hc Hs].
    + simpl. destruct cur, cur'; try discriminate Hcur; constructor; [|constructor].
      split; [|reflexivity]. cbn [fst]. rewrite !length_rev. exact Hcur.
    + rewrite !linhas_e_fins_from_cons. simpl in Hn.
      destruct Hc as [Hl He]. rewrite <- Hl.
      destruct (is_linebreak c) eqn:Ec.
      * rewrite <- (He eq_refl).
        assert (Hf : forall f, mesma_forma (rev cur, f) (rev cur', f)).
        { intros f. split; [|reflexivity]. cbn [fst].
          rewrite !length_rev. exact Hcur. }
        destruct Hs as [|d d' s s' Hd Hs].
        -- constructor; [apply Hf|constructor].
        -- rewrite <- (par_de_caixa_nl _ _ Hd). simpl in Hn.
           destruct (Ascii.eqb c (chr 13) && Ascii.eqb d (chr 10)) eqn:Ecr.
           ++ apply andb_true_iff in Ecr as [_ Ed].
              apply Ascii.eqb_eq in Ed. subst d.
              destruct Hd as [_ Hd]. rewrite <- (Hd eq_refl).
              constructor; [apply Hf|]. apply IH; [lia|exact Hs|reflexivity].
           ++ constructor; [apply Hf|].
              apply IH; [simpl; lia|constructor; assumption|reflexivity].
      * apply IH; [lia|exact Hs|simpl; congruence].
Qed.

Lemma app_inj_length {A} (a a' b b' : list A) :
  length a = length a' -> a ++ b = a' ++ b' -> a = a' /\ b = b'.
Proof.
  revert a'. induction a as [|x a IH]; intros [|x' a'] Hl H;
    try discriminate Hl.
  - split; [reflexivity|exact H].
  - simpl in H. injection H as -> H. injection Hl as Hl.
    destruct (IH _ Hl H) as [-> ->]. split; reflexivity.
Qed.

Lemma mesma_forma_colar (ps ps' : list (str * str)) :
  Forall2 mesma_forma ps ps' -> colar ps = colar ps' -> ps = ps'.
Proof.
  induction 1 as [|[l f] [l' f'] ps ps' [Hl Hf] _ IH]; [reflexivity|].
  cbn [fst snd] in Hl, Hf. subst f'. cbn [colar]. intros H.
  apply (app_inj_length _ _ _ _ Hl) in H as [-> H].
  apply app_inv_head in H. rewrite (IH H). reflexivity.
Qed.

Lemma canonica_linha_length (p : bool) (l : str) :
  length (canonica_linha p l) = length l.
Proof. symmetry. exact (Forall2_length (canonica_linha_par p l)). Qed.

Lemma canonica_pares_forma (ps : list (str * str)) :
  forall p,
    Forall2 mesma_forma ps (combine (canonica p (map fst ps)) (map snd ps)).
Proof.
  induction ps as [|[l f] ps IH]; intros p; simpl; constructor.
  - split; [|reflexivity]. cbn [fst]. symmetry. apply canonica_linha_length.
  - apply IH.
Qed.

Lemma canonica_pares_par (ps : list (str * str)) :
  forall p,
    Forall2 par_de_caixa (colar ps)
            (colar (combine (canonica p (map fst ps)) (map snd ps))).
Proof.
  induction ps as [|[l f] ps IH]; intros p; simpl; [constructor|].
  apply Forall2_app; [apply canonica_linha_par|].
  apply Forall2_app; [apply Forall2_refl, par_de_caixa_refl|apply IH].
Qed.

Lemma canonica_pares_fst (ps : list (str * str)) :
  forall p,
    map fst (combine (canonica p (map fst ps)) (map snd ps))
    = canonica p (map fst ps).
Proof.
  induction ps as [|[l f] ps IH]; intros p; simpl; [reflexivity|].
  rewrite IH. reflexivity.
Qed.

Lemma mesma_forma_sym_trans (ps qs rs : list (str * str)) :
  Forall2 mesma_forma ps qs -> Forall2 mesma_forma ps rs ->
  Forall2 mesma_forma qs rs.
Proof.
  intros H; revert rs. induction H as [|p q ps qs [H1 H2] _ IH];
    intros rs Hr; inversion Hr as [|p' r ps' rs' [H3 H4] Hr']; subst;
    constructor.
  - split; congruence.
  - apply IH; assumption.
Qed.

Lemma canonica_texto_par (bloco : str) :
  Forall2 par_de_caixa bloco (canonica_texto bloco).
Proof.
  unfold canonica_texto.
  rewrite <- (colar_linhas_e_fins bloco) at 1. apply canonica_pares_par.
Qed.

(** The lines of the canonical form of a text are the lines of the text
    in canonical form. *)
Lemma splitlines_canonica_texto (bloco : str) :
  splitlines (canonica_texto bloco) = canonica true (splitlines bloco).
Proof.
  set (ps := linhas_e_fins bloco).
  set (cs := combine (canonica true (map fst ps)) (map snd ps)).
  assert (E : linhas_e_fins (canonica_texto bloco) = cs).
  { apply mesma_forma_colar.
    - apply (mesma_forma_sym_trans ps).
      + apply (linhas_e_fins_from_forma (length bloco));
          [reflexivity|apply canonica_texto_par|reflexivity].
      + apply canonica_pares_forma.
    - rewrite colar_linhas_e_fins. reflexivity. }
  rewrite !splitlines_fst, E. apply canonica_pares_fst.
Qed.

(** Stripping the line feeds at both ends of a text removes or adds empty
    lines only, which no block reads. *)
Lemma splitlines_nl (s : str) :
  splitlines (chr 10 :: s) = [] :: splitlines s.
Proof. unfold splitlines. rewrite splitlines_from_cons. destruct s; reflexivity. Qed.

Lemma is_nl_eq (c : ascii) : is_nl c = true -> c = chr 10.
Proof. unfold is_nl. apply Ascii.eqb_eq. Qed.

Lemma splitlines_nls (s : str) :
  forallb is_nl s = true -> splitlines s = @repeat str [] (length s).
Proof.
  induction s as [|c s IH]; simpl; [reflexivity|].
  intros H. apply andb_true_iff in H as [Hc H].
  apply is_nl_eq in Hc. subst c. rewrite splitlines_nl, IH by exact H.
  reflexivity.
Qed.

Lemma splitlines_lstrip_nl (s : str) :
  exists k, splitlines s = @repeat str [] k ++ splitlines (lstrip_by is_nl s).
Proof.
  induction s as [|c s [k IH]]; [exists 0; reflexivity|].
  simpl lstrip_by. destruct (is_nl c) eqn:Ec.
  - apply is_nl_eq in Ec. subst c. exists (S k).
    rewrite splitlines_nl, IH. reflexivity.
  - exists 0. reflexivity.
Qed.

Lemma splitlines_from_nl (cur : str) (s : str) :
  splitlines_from cur (chr 10 :: s) = rev cur :: splitlines s.
Proof. destruct s; reflexivity. Qed.

Lemma splitlines_from_nls (cur : str) (s : str) :
  forallb is_nl s = true ->
  exists k, splitlines_from cur s = splitlines_from cur [] ++ @repeat str [] k.
Proof.
  destruct s as [|c s]; [exists 0; rewrite app_nil_r; reflexivity|].
  simpl forallb. intros H. apply andb_true_iff in H as [Hc H].
  apply is_nl_eq in Hc. subst c.
  rewrite splitlines_from_nl, (splitlines_nls _ H).
  destruct cur as [|x cur].
  - exists (S (length s)). reflexivity.
  - exists (length s). reflexivity.
Qed.

Lemma splitlines_from_rstrip_nl (n : nat) :
  forall s cur,
    length s <= n ->
    exists k, splitlines_from cur s
              = splitlines_from cur (rstrip_by is_nl s) ++ @repeat str [] k.
Proof.
  induction n as [|n IH]; intros s cur Hn.
  - destruct s; [|simpl in Hn; lia]. exists 0. rewrite app_nil_r. reflexivity.
  - destruct s as [|c s]; [exists 0; rewrite app_nil_r; reflexivity|].
    simpl in Hn.
    destruct (rstrip_by is_nl s) as [|d r] eqn:Er.
    + (* only line feeds after [c] *)
      pose proof Er as Hs. apply rstrip_by_nil in Hs.
      simpl rstrip_by. rewrite Er.
      destruct (is_nl c) eqn:Ec.
      * apply (splitlines_from_nls cur (c :: s)). simpl. rewrite Ec. exact Hs.
      * rewrite !splitlines_from_cons.
        destruct (is_linebreak c) eqn:El.
        -- destruct s as [|d s']; [exists 0; rewrite app_nil_r; reflexivity|].
           simpl in Hs. apply andb_true_iff in Hs as [Hd Hs'].
           apply is_nl_eq in Hd. subst d.
           destruct (Ascii.eqb c (chr 13) && Ascii.eqb (chr 10) (chr 10)).
           ++ exists (length s'). simpl. f_equal.
              apply (splitlines_nls _ Hs').
           ++ exists (S (length s')). simpl. f_equal.
              change (splitlines (chr 10 :: s') = [] :: @repeat str [] (length s')).
              rewrite splitlines_nl, (splitlines_nls _ Hs'). reflexivity.
        -- destruct (IH s (c :: cur)) as [k Hk]; [lia|].
           rewrite Er in Hk. exists k. exact Hk.
    + (* something else after [c] *)
      assert (Hr : rstrip_by is_nl (c :: s) = c :: d :: r)
        by (simpl; rewrite Er; reflexivity).
      rewrite Hr, !splitlines_from_cons.
      destruct (is_linebreak c).
      * destruct (rstrip_by_cons_inv _ _ _ _ Er) as (s' & -> & ->).
        simpl in Hn.
        destruct (Ascii.eqb c (chr 13) && Ascii.eqb d (chr 10)).
        -- destruct (IH s' []) as [k Hk]; [lia|].
           exists k. rewrite Hk. reflexivity.
        -- destruct (IH (d :: s') []) as [k Hk]; [simpl; lia|].
           rewrite Er in Hk. exists k. rewrite Hk. reflexivity.
      * destruct (IH s (c :: cur)) as [k Hk]; [lia|].
        rewrite Er in Hk. exists k. exact Hk.
Qed.

Lemma agrupar_brancos_fim (k : nat) :
  forall bs cur,
    map resumo (fecha (fold_left agrupar (@repeat str [] k) (bs, cur)))
    = map resumo (fecha (bs, cur)).
Proof.
  induction k as [|k IH]; intros bs cur; [reflexivity|].
  cbn [repeat fold_left]. rewrite agrupar_branco by reflexivity.
  rewrite IH. apply fecha_resumo; [reflexivity| |].
  - destruct cur as [|x cur]; [reflexivity|].
    change (vazio ((x :: cur) ++ [[]]) = vazio (x :: cur)).
    apply vazio_app_um.
  - destruct cur as [|x cur]; [reflexivity|].
    change (resumo ((x :: cur) ++ [[]]) = resumo (x :: cur)).
    apply resumo_uteis. rewrite linhas_uteis_app. apply app_nil_r.
Qed.

Lemma separar_blocos_brancos (k1 k2 : nat) (linhas : list str) :
  map resumo (separar_blocos (@repeat str [] k1 ++ linhas ++ @repeat str [] k2))
  = map resumo (separar_blocos linhas).
Proof.
  induction k1 as [|k1 IH].
  - simpl app. rewrite !separar_blocos_fecha, fold_left_app.
    destruct (fold_left agrupar linhas ([], [])) as [bs cur].
    apply agrupar_brancos_fim.
  - rewrite <- IH. reflexivity.
Qed.

Lemma separar_blocos_strip_nl (s : str) :
  map resumo (separar_blocos (splitlines (strip_nl s)))
  = map resumo (separar_blocos (splitlines s)).
Proof.
  unfold strip_nl, strip_by.
  destruct (splitlines_lstrip_nl s) as [k1 E1].
  destruct (splitlines_from_rstrip_nl (length (lstrip_by is_nl s))
              (lstrip_by is_nl s) [] (le_n _)) as [k2 E2].
  fold (splitlines (lstrip_by is_nl s)) in E2.
  fold (splitlines (rstrip_by is_nl (lstrip_by is_nl s))) in E2.
  rewrite E1, E2. symmetry. apply separar_blocos_brancos.
Qed.

Lemma forallb_is_nl_par (s s' : str) :
  Forall2 par_de_caixa s s' -> forallb is_nl s = forallb is_nl s'.
Proof.
  induction 1 as [|c c' s s' Hc _ IH]; [reflexivity|].
  simpl. unfold is_nl at 1 3. rewrite (par_de_caixa_nl _ _ Hc), IH. reflexivity.
Qed.

Lemma vazio_strip_by (p : ascii -> bool) (s : str) :
  vazio (strip_by p s) = forallb p s.
Proof.
  destruct (forallb p s) eqn:E.
  - apply strip_by_nil in E. rewrite E. reflexivity.
  - apply vazio_false. intros H. apply strip_by_nil in H. congruence.
Qed.

Lemma parse_bloco_canonica_texto (bloco : str) :
  parse_bloco (canonica_texto bloco) = parse_bloco bloco.
Proof.
  assert (Ht : vazio (strip_nl (canonica_texto bloco)) = vazio (strip_nl bloco)).
  { unfold strip_nl. rewrite !vazio_strip_by. symmetry.
    apply forallb_is_nl_par, canonica_texto_par. }
  assert (Hr : map resumo (blocos_de (canonica_texto bloco))
               = map resumo (blocos_de bloco)).
  { unfold blocos_de, linhas_de.
    rewrite separar_blocos_strip_nl, splitlines_canonica_texto.
    rewrite separar_blocos_canonica. symmetry.
    apply separar_blocos_strip_nl. }
  rewrite !parse_bloco_eq, Ht.
  rewrite <- (vazio_map resumo (blocos_de (canonica_texto bloco))), Hr, vazio_map.
  rewrite (montar_resumo _ _ Hr). reflexivity.
Qed.

(** In this model, of the characters U+0000 to U+00FF: a text and its
    canonical form, in which the [P] of every question-start line, the
    letter of every alternative line and the [G] and the letter of every
    answer-key line are in lower case, give the same run of [parse_bloco].
    So do any two texts with the same canonical form. *)
Theorem parse_bloco_caixa (bloco : str) :
  parse_bloco (canonica_texto bloco) = parse_bloco bloco /\
  (forall bloco',
     canonica_texto bloco' = canonica_texto bloco ->
     parse_bloco bloco' = parse_bloco bloco).
Proof.
  split; [apply parse_bloco_canonica_texto|].
  intros bloco' H.
  rewrite <- (parse_bloco_canonica_texto bloco'), H.
  apply parse_bloco_canonica_texto.
Qed.

(** The theorem at scenario 1 written in upper case and in lower case. *)
Lemma parse_bloco_caixa_cenario_1 :
  canonica_texto em_maiusculas = em_minusculas /\
  canonica_texto em_minusculas = em_minusculas /\
  parse_bloco em_maiusculas = parse_bloco em_minusculas.
Proof.
  split; [vm_compute; reflexivity|].
  split; [vm_compute; reflexivity|].
  apply (proj2 (parse_bloco_caixa em_minusculas) em_maiusculas).
  vm_compute; reflexivity.
Defined.

(** The title of a block is kept as written, also when it looks like an
    alternative. *)
Example canonica_texto_titulo :
  canonica_texto titulo_com_letra = titulo_canonico.
Proof. vm_compute; reflexivity. Qed.

(** * Further properties of the parser *)

Lemma parse_bloco_primeira_falha (bloco : str) bs1 b bs2 f :
  blocos_de bloco = bs1 ++ b :: bs2 ->
  forallb bloco_valido bs1 = true ->
  julgar b = falha f ->
  parse_bloco bloco = falha f.
Proof.
  intros Eb Hv Hj. rewrite parse_bloco_eq.
  destruct (vazio (strip_nl bloco)) eqn:Et.
  - exfalso. apply vazio_true in Et. unfold blocos_de, linhas_de in Eb.
    rewrite Et in Eb. destruct bs1; discriminate Eb.
  - rewrite Eb.
    assert (Hv' : Forall (fun b => bloco_valido b = true) bs1)
      by (apply Forall_forall; apply forallb_forall; exact Hv).
    rewrite (montar_primeira_falha bs1 b bs2 [] _ Hv' Hj).
    destruct bs1; reflexivity.
Qed.

Lemma bloco_com_enunciado (bloco : str) bs1 b bs2 :
  blocos_de bloco = bs1 ++ b :: bs2 -> exists e, enunciado_de b = Some e.
Proof.
  intros Eb.
  pose proof (blocos_bem_formados (linhas_de bloco)) as H.
  fold (blocos_de bloco) in H. rewrite Eb in H.
  apply Forall_app in H as [_ H]. inversion H as [|? ? Hb _]; subst.
  destruct (enunciado_de b) as [e|]; [eauto|congruence].
Qed.

(** X1. The blocks are checked in order.  When the blocks before [b]
    validate and [b] has fewer than two alternatives, [parse_bloco] fails
    with [InsufficientChoices] and reports the title of [b], whether or not
    [b] has an answer key. *)
Theorem parse_bloco_InsufficientChoices (bloco : str) bs1 b bs2 :
  blocos_de bloco = bs1 ++ b :: bs2 ->
  forallb bloco_valido bs1 = true ->
  length (alternativas_de b) < 2 ->
  exists e, enunciado_de b = Some e /\
            parse_bloco bloco = falha (InsufficientChoices e).
Proof.
  intros Eb Hv Hn.
  destruct (bloco_com_enunciado _ _ _ _ Eb) as [e Ee].
  exists e. split; [exact Ee|].
  apply (parse_bloco_primeira_falha _ _ _ _ _ Eb Hv).
  unfold julgar. rewrite Ee.
  apply Nat.ltb_lt in Hn. rewrite Hn. reflexivity.
Qed.

(** The theorem at a question with one alternative. *)
Lemma parse_bloco_InsufficientChoices_cenario_3 :
  exists e, enunciado_de [lit "Q"; lit "A) only one"; lit "G: A"] = Some e /\
            parse_bloco cenario_3 = falha (InsufficientChoices e).
Proof.
  apply (parse_bloco_InsufficientChoices cenario_3 []
           [lit "Q"; lit "A) only one"; lit "G: A"] []);
    [reflexivity | reflexivity | simpl; lia].
Defined.

(** X2. When the blocks before [b] validate and [b] has two alternatives
    or more and no answer-key line, [parse_bloco] fails with
    [MissingAnswerKey] and reports the title of [b]. *)
Theorem parse_bloco_MissingAnswerKey (bloco : str) bs1 b bs2 :
  blocos_de bloco = bs1 ++ b :: bs2 ->
  forallb bloco_valido bs1 = true ->
  2 <= length (alternativas_de b) ->
  gabaritos_de b = [] ->
  exists e, enunciado_de b = Some e /\
            parse_bloco bloco = falha (MissingAnswerKey e).
Proof.
  intros Eb Hv Hn Hg.
  destruct (bloco_com_enunciado _ _ _ _ Eb) as [e Ee].
  exists e. split; [exact Ee|].
  apply (parse_bloco_primeira_falha _ _ _ _ _ Eb Hv).
  unfold julgar, ultimo_gabarito. rewrite Ee, Hg.
  apply Nat.ltb_ge in Hn. rewrite Hn. reflexivity.
Qed.

(** The theorem at a question without an answer-key line. *)
Lemma parse_bloco_MissingAnswerKey_cenario_4 :
  exists e, enunciado_de [lit "Q"; lit "A) x"; lit "B) y"] = Some e /\
            parse_bloco cenario_4 = falha (MissingAnswerKey e).
Proof.
  apply (parse_bloco_MissingAnswerKey cenario_4 []
           [lit "Q"; lit "A) x"; lit "B) y"] []);
    [reflexivity | reflexivity | simpl; lia | reflexivity].
Defined.


Lemma Forall2_In_r {A B} (R : A -> B -> Prop) (l : list A) (l' : list B) y :
  Forall2 R l l' -> In y l' -> exists x, In x l /\ R x y.
Proof.
  induction 1 as [|a b l l' Hab _ IH]; intros Hy; [contradiction|].
  destruct Hy as [<-|Hy].
  - exists a. split; [left; reflexivity|exact Hab].
  - destruct (IH Hy) as (x & Hx & Hr). exists x. split; [right|]; assumption.
Qed.

Lemma linhas_uteis_aparadas (b : list str) (u : str) :
  In u (linhas_uteis b) -> u <> [] /\ strip u = u.
Proof.
  unfold linhas_uteis. intros H. apply filter_In in H as [H Hne].
  apply in_map_iff in H as (l & <- & _). split.
  - apply vazio_false. destruct (vazio (strip l)); [discriminate|reflexivity].
  - apply strip_idem.
Qed.

Lemma corpo_de_uteis (b : list str) (l : str) :
  In l (corpo_de b) -> In l (linhas_uteis b).
Proof.
  unfold corpo_de. destruct (linhas_uteis b); [contradiction|].
  intros H; right; exact H.
Qed.

Lemma nao_espaco_e_ponto (c : ascii) : isspace c = false -> isdot c = true.
Proof. por_caracter c. Qed.

(** In a trimmed line the text of an alternative is not empty. *)
Lemma re_alt_texto (l : str) g1 g2 :
  strip l = l -> re_alt l = Some (g1, g2) -> strip g2 <> [].
Proof.
  intros Hs Ha.
  assert (Hr : rstrip_by isspace l = l).
  { rewrite <- Hs at 1. unfold strip, strip_by.
    rewrite rstrip_by_idem. exact Hs. }
  destruct l as [|c [|p rest]]; simpl in Ha; try discriminate.
  destruct (isletter c && Ascii.eqb p ")"); [|discriminate].
  destruct (lstrip_by isspace rest) as [|d t] eqn:El.
  - exfalso. apply lstrip_by_nil in El.
    destruct rest as [|x rest]; [discriminate Ha|].
    apply (rstrip_by_nil isspace) in El.
    simpl in Hr. simpl in El. rewrite El in Hr.
    destruct (isspace p), (isspace c); discriminate Hr.
  - pose proof (lstrip_by_head _ _ _ _ El) as Hd.
    simpl in Ha. rewrite (nao_espaco_e_ponto _ Hd) in Ha.
    injection Ha as _ <-.
    unfold strip, strip_by. rewrite (lstrip_by_keep _ _ _ Hd).
    rewrite (rstrip_by_keep _ _ _ Hd). discriminate.
Qed.

Lemma alternativas_de_textos (b : list str) k t :
  In (k, t) (alternativas_de b) -> t <> [] /\ strip t = t.
Proof.
  unfold alternativas_de. intros H.
  apply in_flat_map in H as (l & Hl & H).
  apply corpo_de_uteis, linhas_uteis_aparadas in Hl as [_ Hs].
  unfold alternativa_de in H.
  destruct (re_alt l) as [[g1 g2]|] eqn:Ea; [|contradiction].
  destruct H as [H|[]]. injection H as _ <-.
  split; [exact (re_alt_texto _ _ _ Hs Ea)|apply strip_idem].
Qed.

(** X3. Every question that [parse_bloco] returns has a title that is not
    empty and is trimmed, two choices or more, each of them not empty and
    trimmed, and a correct index within the choices. *)
Theorem perguntas_bem_formadas (bloco : str) (qs : list Question) (q : Question) :
  snd (parse_bloco bloco) = Value qs -> In q qs ->
  title q <> [] /\ strip (title q) = title q /\
  2 <= length (alternativas q) /\
  correta_idx q < length (alternativas q) /\
  Forall (fun a => a <> [] /\ strip a = a) (alternativas q).
Proof.
  intros Hv Hq.
  destruct (parse_bloco_value _ _ Hv) as (_ & _ & HF).
  destruct (Forall2_In_r _ _ _ _ HF Hq) as (b & _ & Hj).
  apply julgar_ret_some in Hj as [Hval (Ht & Ha & k & _ & Hp & _)].
  assert (Hlen : length (alternativas q) = length (alternativas_de b))
    by (rewrite Ha; unfold textos_de; apply length_map).
  split; [|split; [|split; [|split]]].
  - unfold enunciado_de in Ht.
    destruct (linhas_uteis b) as [|e r] eqn:E; [discriminate Ht|].
    injection Ht as <-.
    apply (linhas_uteis_aparadas b). rewrite E. left; reflexivity.
  - unfold enunciado_de in Ht.
    destruct (linhas_uteis b) as [|e r] eqn:E; [discriminate Ht|].
    injection Ht as <-.
    apply (linhas_uteis_aparadas b). rewrite E. left; reflexivity.
  - rewrite Hlen. unfold bloco_valido in Hval.
    apply andb_true_iff in Hval as [Hn _]. apply Nat.leb_le in Hn. exact Hn.
  - rewrite Hlen. unfold letras_de in Hp.
    rewrite <- (length_map fst). apply nth_error_Some. congruence.
  - rewrite Ha. unfold textos_de. apply Forall_forall. intros a Hin.
    apply in_map_iff in Hin as ([k' t] & <- & Hin).
    exact (alternativas_de_textos _ _ _ Hin).
Qed.

(** The theorem at a text of two questions. *)
Lemma perguntas_bem_formadas_duas_perguntas :
  let q := {| title := lit "Q2"; alternativas := [lit "u"; lit "v"];
              correta_idx := 1 |} in
  title q <> [] /\ strip (title q) = title q /\
  2 <= length (alternativas q) /\
  correta_idx q < length (alternativas q) /\
  Forall (fun a => a <> [] /\ strip a = a) (alternativas q).
Proof.
  apply (perguntas_bem_formadas duas_perguntas
           [ {| title := lit "Q1"; alternativas := [lit "x"; lit "y"];
                correta_idx := 0 |};
             {| title := lit "Q2"; alternativas := [lit "u"; lit "v"];
                correta_idx := 1 |} ]).
  - vm_compute; reflexivity.
  - right; left; reflexivity.
Defined.

Lemma posicao_primeira_com_letra (k : str) (alts : list (str * str)) i :
  posicao k (map fst alts) i ->
  exists t, primeira_com_letra k alts = Some (k, t) /\
            nth_error (map snd alts) i = Some t.
Proof.
  unfold primeira_com_letra.
  revert i. induction alts as [|[k' t'] alts IH]; intros i [Hn Hmin].
  - destruct i; discriminate Hn.
  - simpl. destruct (list_eq_dec ascii_dec k' k) as [->|Hne].
    + destruct i as [|i].
      * exists t'. split; reflexivity.
      * exfalso. apply (Hmin 0); [lia|reflexivity].
    + destruct i as [|i]; [simpl in Hn; congruence|].
      apply IH. split; [exact Hn|].
      intros j Hj. apply (Hmin (S j)). lia.
Qed.

(** X4. In every question returned, the choice at the correct index is the
    text of the alternative whose letter is the answer-key letter of its
    block (of the first such alternative when a letter is repeated). *)
Theorem alternativa_correta (bloco : str) (qs : list Question) :
  snd (parse_bloco bloco) = Value qs ->
  Forall2 (fun b q =>
             exists k t,
               ultimo_gabarito b = Some k /\
               primeira_com_letra k (alternativas_de b) = Some (k, t) /\
               nth_error (alternativas q) (correta_idx q) = Some t)
          (blocos_de bloco) qs.
Proof.
  intros Hv.
  destruct (parse_bloco_value _ _ Hv) as (_ & _ & HF).
  revert HF. apply Forall2_impl. intros b q Hj.
  apply julgar_ret_some in Hj as [_ (_ & Ha & k & Hk & Hp)].
  destruct (posicao_primeira_com_letra _ _ _ Hp) as (t & Hf & Hn).
  exists k, t. rewrite Ha. repeat split; assumption.
Qed.

(** The theorem at a block whose letter [A] is repeated. *)
Lemma alternativa_correta_letra_repetida :
  let qs := [ {| title := lit "Q";
                 alternativas := [lit "x"; lit "y"; lit "z"];
                 correta_idx := 0 |} ] in
  snd (parse_bloco letra_repetida) = Value qs /\
  Forall2 (fun b q =>
             exists k t,
               ultimo_gabarito b = Some k /\
               primeira_com_letra k (alternativas_de b) = Some (k, t) /\
               nth_error (alternativas q) (correta_idx q) = Some t)
          (blocos_de letra_repetida) qs.
Proof.
  split; [vm_compute; reflexivity|].
  apply (alternativa_correta letra_repetida). vm_compute; reflexivity.
Defined.

(** * Properties of the rest of the script *)

Import Script_V5.

Lemma seguir_retorna {A B} (m : prog A) (f : A -> prog B) srv e ev e' a :
  m srv e = (ev, e', Retorna a) ->
  seguir m f srv e =
  (let '(ev', e'', r) := f a srv e' in (ev ++ ev', e'', r)).
Proof. intros H. unfold seguir. rewrite H. reflexivity. Qed.

Lemma seguir_levanta {A B} (m : prog A) (f : A -> prog B) srv e ev e' x :
  m srv e = (ev, e', Levanta x) ->
  seguir m f srv e = (ev, e', Levanta x).
Proof. intros H. unfold seguir. rewrite H. reflexivity. Qed.

Lemma montar_requests_validos (qs : list Question) :
  Forall indice_valido qs ->
  forall i acc srv e,
  exists reqs,
    montar_requests i qs acc srv e = ([], e, Retorna (acc ++ reqs)) /\
    length reqs = length qs /\
    forall j q, nth_error qs j = Some q ->
      exists c, nth_error (alternativas q) (correta_idx q) = Some c /\
                nth_error reqs j = Some (createItem (i + j) q c).
Proof.
  induction 1 as [|q qs Hq _ IH]; intros i acc srv e.
  - exists []. rewrite app_nil_r. split; [reflexivity|]. split; [reflexivity|].
    intros [|j] q Hj; discriminate Hj.
  - cbn [montar_requests].
    destruct (nth_error (alternativas q) (correta_idx q)) as [c|] eqn:Ec.
    2:{ apply nth_error_None in Ec. unfold indice_valido in Hq. lia. }
    destruct (IH (S i) (acc ++ [createItem i q c]) srv e) as (reqs & Hr & Hl & Hn).
    exists (createItem i q c :: reqs). split; [|split].
    + rewrite Hr. rewrite <- app_assoc. reflexivity.
    + simpl. rewrite Hl. reflexivity.
    + intros [|j] q' Hj.
      * injection Hj as <-. exists c. rewrite Nat.add_0_r. split; [exact Ec|reflexivity].
      * destruct (Hn j q' Hj) as (c' & Hc' & Hr').
        exists c'. split; [exact Hc'|].
        replace (i + S j) with (S i + j) by lia. exact Hr'.
Qed.

Lemma montar_requests_casos (qs : list Question) (i : nat)
        (acc : list json) (srv : Servidor) (e : list str) :
  (montar_requests i qs acc srv e = ([], e, Levanta IndexError) <->
   Exists (fun q => length (alternativas q) <= correta_idx q) qs) /\
  (montar_requests i qs acc srv e <> ([], e, Levanta IndexError) ->
   exists reqs, montar_requests i qs acc srv e = ([], e, Retorna (acc ++ reqs))).
Proof.
  assert (Hd : Forall indice_valido qs \/
               Exists (fun q => length (alternativas q) <= correta_idx q) qs).
  { induction qs as [|q qs IH]; [left; constructor|].
    destruct (le_lt_dec (length (alternativas q)) (correta_idx q)) as [Hq|Hq].
    - right. left. exact Hq.
    - destruct IH as [IH|IH]; [left; constructor; assumption|right; right; exact IH]. }
  assert (He : Exists (fun q => length (alternativas q) <= correta_idx q) qs ->
               montar_requests i qs acc srv e = ([], e, Levanta IndexError)).
  { clear Hd. revert i acc. induction qs as [|q qs IH]; intros i acc Hx.
    - inversion Hx.
    - cbn [montar_requests].
      destruct (nth_error (alternativas q) (correta_idx q)) as [c|] eqn:Ec;
        [|reflexivity].
      inversion Hx as [? ? Hq|? ? Hq]; subst.
      + assert (correta_idx q < length (alternativas q))
          by (apply nth_error_Some; congruence). lia.
      + apply IH. exact Hq. }
  split; [split|].
  - intros Hr. destruct Hd as [Hv|Hx]; [|exact Hx].
    destruct (montar_requests_validos qs Hv i acc srv e) as (reqs & Hq & _).
    rewrite Hq in Hr. discriminate Hr.
  - exact He.
  - intros Hn. destruct Hd as [Hv|Hx]; [|exfalso; apply Hn, He, Hx].
    destruct (montar_requests_validos qs Hv i acc srv e) as (reqs & Hq & _).
    exists reqs. exact Hq.
Qed.

(** X5. Once the form is created, [criar_quiz_forms] raises [IndexError]
    exactly when some question has its correct index outside its choices;
    the form is then left as created: the permission request has been
    executed and the update and the reading have not. *)
Theorem criar_quiz_forms_IndexError (titulo : str) (qs : list Question)
        (srv : Servidor) (e : list str) (fid : str) :
  let body := JDict [(lit "info", JDict [(lit "title", JStr titulo)])] in
  let permissao :=
    JDict [(lit "type", JStr (lit "anyone")); (lit "role", JStr (lit "reader"))] in
  ao_forms_create srv body = Corpo fid ->
  (snd (criar_quiz_forms titulo qs srv e) = Levanta IndexError <->
   Exists (fun q => length (alternativas q) <= correta_idx q) qs) /\
  (Exists (fun q => length (alternativas q) <= correta_idx q) qs ->
   chamadas (fst (fst (criar_quiz_forms titulo qs srv e)))
   = [forms_create body; permissions_create fid permissao (lit "id")]).
Proof.
  intros body permissao Hc.
  destruct (montar_requests_casos qs 0 [updateSettings] srv e) as [[H1 H2] H3].
  unfold criar_quiz_forms, seguir, execute, tentar, escreve, retorna.
  fold body. rewrite Hc. fold permissao.
  destruct (Exists_dec (fun q => length (alternativas q) <= correta_idx q) qs
              (fun q => le_dec _ _)) as [Hy|Hy].
  - destruct (ao_permissions_create srv fid permissao) as [[]|x];
      cbv beta iota zeta; rewrite (H2 Hy);
      (split; [split; [intros _; exact Hy|reflexivity]|reflexivity]).
  - assert (Hn : montar_requests 0 qs [updateSettings] srv e
                 <> ([], e, Levanta IndexError))
      by (intros E; apply Hy, H1, E).
    destruct (H3 Hn) as [reqs Hq].
    destruct (ao_permissions_create srv fid permissao) as [[]|x];
      cbv beta iota zeta; rewrite Hq;
      (split; [split|]; [|intros Hy'; contradiction..]);
      intros Hi;
      (destruct (ao_forms_batchUpdate srv fid _) as [[]|x']; [|discriminate Hi]);
      destruct (ao_forms_get srv fid) as [uri|x']; discriminate Hi.
Qed.

(** The theorem at a list whose second question has its index outside. *)
Lemma criar_quiz_forms_IndexError_exemplo :
  let body := JDict [(lit "info", JDict [(lit "title", JStr (lit "T"))])] in
  let permissao :=
    JDict [(lit "type", JStr (lit "anyone")); (lit "role", JStr (lit "reader"))] in
  let qs := [pergunta_exemplo; pergunta_indice_fora] in
  (snd (criar_quiz_forms (lit "T") qs servidor_exemplo []) = Levanta IndexError <->
   Exists (fun q => length (alternativas q) <= correta_idx q) qs) /\
  (Exists (fun q => length (alternativas q) <= correta_idx q) qs ->
   chamadas (fst (fst (criar_quiz_forms (lit "T") qs servidor_exemplo [])))
   = [forms_create body; permissions_create (lit "F1") permissao (lit "id")]).
Proof.
  exact (criar_quiz_forms_IndexError (lit "T")
           [pergunta_exemplo; pergunta_indice_fora] servidor_exemplo []
           (lit "F1") eq_refl).
Defined.

Lemma parse_bloco_indices (bloco : str) (qs : list Question) :
  snd (parse_bloco bloco) = Value qs -> Forall indice_valido qs.
Proof.
  intros Hv.
  destruct (parse_bloco_value _ _ Hv) as (_ & _ & HF).
  apply Forall_forall. intros q Hq.
  destruct (Forall2_In_r _ _ _ _ HF Hq) as (b & _ & Hj).
  apply julgar_ret_some in Hj as [_ (_ & Ha & k & _ & Hp & _)].
  unfold indice_valido. rewrite Ha. unfold textos_de, letras_de in *.
  rewrite length_map, <- (length_map fst).
  apply nth_error_Some. congruence.
Qed.

(** X6. For the questions of a text that [parse_bloco] accepts, the
    requests are built without an [IndexError]: after the settings there
    is one request for each question, in order, which creates at position
    [j] the item of question [j] and marks as correct the choice at its
    correct index. *)
Theorem requests_de_parse_bloco (bloco : str) (qs : list Question)
        (srv : Servidor) (e : list str) :
  snd (parse_bloco bloco) = Value qs ->
  exists reqs,
    montar_requests 0 qs [updateSettings] srv e
    = ([], e, Retorna (updateSettings :: reqs)) /\
    length reqs = length qs /\
    forall j q, nth_error qs j = Some q ->
      exists c, nth_error (alternativas q) (correta_idx q) = Some c /\
                nth_error reqs j = Some (createItem j q c).
Proof.
  intros Hv.
  exact (montar_requests_validos qs (parse_bloco_indices _ _ Hv)
                                 0 [updateSettings] srv e).
Qed.

(** The theorem at a text of two questions. *)
Lemma requests_de_parse_bloco_duas_perguntas :
  let qs := [ {| title := lit "Q1"; alternativas := [lit "x"; lit "y"];
                 correta_idx := 0 |};
              {| title := lit "Q2"; alternativas := [lit "u"; lit "v"];
                 correta_idx := 1 |} ] in
  exists reqs,
    montar_requests 0 qs [updateSettings] servidor_exemplo []
    = ([], [], Retorna (updateSettings :: reqs)) /\
    length reqs = length qs /\
    forall j q, nth_error qs j = Some q ->
      exists c, nth_error (alternativas q) (correta_idx q) = Some c /\
                nth_error reqs j = Some (createItem j q c).
Proof.
  apply (requests_de_parse_bloco duas_perguntas). vm_compute; reflexivity.
Defined.

Lemma criar_quiz_forms_ok (titulo : str) (qs : list Question)
        (srv : Servidor) (e : list str) (fid : str) (uri : option str) :
  let body := JDict [(lit "info", JDict [(lit "title", JStr titulo)])] in
  let permissao :=
    JDict [(lit "type", JStr (lit "anyone")); (lit "role", JStr (lit "reader"))] in
  Forall indice_valido qs ->
  ao_forms_create srv body = Corpo fid ->
  (forall corpo, ao_forms_batchUpdate srv fid corpo = Corpo tt) ->
  ao_forms_get srv fid = Corpo uri ->
  exists reqs aviso,
    criar_quiz_forms titulo qs srv e
    = ([Execute (forms_create body);
        Execute (permissions_create fid permissao (lit "id"));
        Print aviso;
        Execute (forms_batchUpdate fid
                   (JDict [(lit "requests", JList (updateSettings :: reqs))]));
        Execute (forms_get fid);
        Print (py "\nForm criado com sucesso.");
        Print (lit "Link para responder: " ++ str_de uri)],
       e, Retorna (fid, uri)) /\
    length reqs = length qs /\
    forall j q, nth_error qs j = Some q ->
      exists c, nth_error (alternativas q) (correta_idx q) = Some c /\
                nth_error reqs j = Some (createItem j q c).
Proof.
  intros body permissao Hqs Hc Hb Hg.
  destruct (montar_requests_validos qs Hqs 0 [updateSettings] srv e)
    as (reqs & Hr & Hl & Hn).
  exists reqs.
  unfold criar_quiz_forms, seguir, execute, tentar, escreve, retorna.
  fold body. rewrite Hc. fold permissao.
  destruct (ao_permissions_create srv fid permissao) as [[]|x];
    (eexists; rewrite Hr, Hb, Hg; split; [reflexivity|split; [exact Hl|exact Hn]]).
Qed.

Lemma montar_requests_fixos (qs : list Question) :
  Forall indice_valido qs ->
  forall i,
  exists reqs,
    length reqs = length qs /\
    (forall j q, nth_error qs j = Some q ->
       exists c, nth_error (alternativas q) (correta_idx q) = Some c /\
                 nth_error reqs j = Some (createItem (i + j) q c)) /\
    forall acc srv e,
      montar_requests i qs acc srv e = ([], e, Retorna (acc ++ reqs)).
Proof.
  induction 1 as [|q qs Hq _ IH]; intros i.
  - exists []. split; [reflexivity|]. split.
    + intros [|j] q Hj; discriminate Hj.
    + intros acc srv e. rewrite app_nil_r. reflexivity.
  - destruct (nth_error (alternativas q) (correta_idx q)) as [c|] eqn:Ec.
    2:{ apply nth_error_None in Ec. unfold indice_valido in Hq. lia. }
    destruct (IH (S i)) as (reqs & Hl & Hn & Hr).
    exists (createItem i q c :: reqs). split; [|split].
    + simpl. rewrite Hl. reflexivity.
    + intros [|j] q' Hj.
      * injection Hj as <-. exists c. rewrite Nat.add_0_r.
        split; [exact Ec|reflexivity].
      * destruct (Hn j q' Hj) as (c' & Hc' & Hr').
        exists c'. split; [exact Hc'|].
        replace (i + S j) with (S i + j) by lia. exact Hr'.
    + intros acc srv e. cbn [montar_requests]. rewrite Ec, Hr.
      rewrite <- app_assoc. reflexivity.
Qed.

(** X7. A refusal of the Drive permission does not stop
    [criar_quiz_forms].  For questions with valid indices there is one
    list of requests, fixed by the questions alone (one item for each, in
    order), such that whenever the form is created and its update and its
    reading succeed, the call returns the form's id and link after the
    same four requests, whatever the Drive service answers; the line
    printed after the permission request is the only thing that depends
    on that answer. *)
Theorem criar_quiz_forms_permissao (titulo : str) (qs : list Question) :
  let body := JDict [(lit "info", JDict [(lit "title", JStr titulo)])] in
  let permissao :=
    JDict [(lit "type", JStr (lit "anyone")); (lit "role", JStr (lit "reader"))] in
  Forall indice_valido qs ->
  exists reqs,
    length reqs = length qs /\
    (forall j q, nth_error qs j = Some q ->
       exists c, nth_error (alternativas q) (correta_idx q) = Some c /\
                 nth_error reqs j = Some (createItem j q c)) /\
    forall (srv : Servidor) (e : list str) (fid : str) (uri : option str),
      ao_forms_create srv body = Corpo fid ->
      (forall corpo, ao_forms_batchUpdate srv fid corpo = Corpo tt) ->
      ao_forms_get srv fid = Corpo uri ->
      criar_quiz_forms titulo qs srv e
      = ([Execute (forms_create body);
          Execute (permissions_create fid permissao (lit "id"));
          Print (match ao_permissions_create srv fid permissao with
                 | Corpo _ =>
                     py "Permiss\xe3o de acesso ao Forms definida para 'Qualquer pessoa com o link'."
                 | ErroHttp x =>
                     py "ATEN\xc7\xc3O: N\xe3o foi poss\xedvel definir permiss\xe3o p\xfablica do Drive. Verifique a configura\xe7\xe3o do seu dom\xednio ou fa\xe7a manualmente: " ++ x
                 end);
          Execute (forms_batchUpdate fid
                     (JDict [(lit "requests", JList (updateSettings :: reqs))]));
          Execute (forms_get fid);
          Print (py "\nForm criado com sucesso.");
          Print (lit "Link para responder: " ++ str_de uri)],
         e, Retorna (fid, uri)).
Proof.
  intros body permissao Hqs.
  destruct (montar_requests_fixos qs Hqs 0) as (reqs & Hl & Hn & Hr).
  exists reqs. split; [exact Hl|]. split; [exact Hn|].
  intros srv e fid uri Hc Hb Hg.
  unfold criar_quiz_forms, seguir, execute, tentar, escreve, retorna.
  fold body. rewrite Hc. fold permissao.
  destruct (ao_permissions_create srv fid permissao) as [[]|x];
    rewrite Hr, Hb, Hg; reflexivity.
Qed.

(** The theorem at services whose Drive refuses the permission. *)
Lemma criar_quiz_forms_permissao_recusada :
  exists reqs,
    length reqs = 1 /\
    criar_quiz_forms (lit "T") [pergunta_exemplo] servidor_exemplo []
    = ([Execute (forms_create
                   (JDict [(lit "info", JDict [(lit "title", JStr (lit "T"))])]));
        Execute (permissions_create (lit "F1")
                   (JDict [(lit "type", JStr (lit "anyone"));
                           (lit "role", JStr (lit "reader"))]) (lit "id"));
        Print (py "ATEN\xc7\xc3O: N\xe3o foi poss\xedvel definir permiss\xe3o p\xfablica do Drive. Verifique a configura\xe7\xe3o do seu dom\xednio ou fa\xe7a manualmente: " ++ lit "403");
        Execute (forms_batchUpdate (lit "F1")
                   (JDict [(lit "requests", JList (updateSettings :: reqs))]));
        Execute (forms_get (lit "F1"));
        Print (py "\nForm criado com sucesso.");
        Print (lit "Link para responder: https://forms/F1")],
       [], Retorna (lit "F1", Some (lit "https://forms/F1"))).
Proof.
  destruct (criar_quiz_forms_permissao (lit "T") [pergunta_exemplo])
    as (reqs & Hl & _ & Hr).
  - constructor; [unfold indice_valido; simpl; lia|constructor].
  - exists reqs. split; [exact Hl|].
    apply (Hr servidor_exemplo [] (lit "F1") (Some (lit "https://forms/F1")));
      [reflexivity|intros corpo; reflexivity|reflexivity].
Defined.

Lemma listar_paginas_ok (srv : Servidor) t ps :
  paginas srv t ps ->
  forall n acc e, length ps <= n ->
  listar_paginas n t acc srv e
  = (map (fun p => Execute (courses_list 100 [lit "ACTIVE"] (fst p))) ps,
     e, Retorna (acc ++ cursos_de ps)).
Proof.
  induction 1 as [t cs nxt Hs Hn|t cs nxt ps Hs Hn _ IH]; intros n acc e Hl.
  - destruct n as [|n]; [simpl in Hl; lia|].
    cbn [listar_paginas]. unfold seguir, execute. rewrite Hs.
    cbn [fst snd]. rewrite Hn. unfold retorna, cursos_de. simpl.
    rewrite app_nil_r. reflexivity.
  - destruct n as [|n]; [simpl in Hl; lia|].
    cbn [listar_paginas]. unfold seguir, execute. rewrite Hs.
    cbn [fst snd]. rewrite Hn. cbn [negb].
    rewrite IH by (simpl in Hl; lia).
    unfold cursos_de. simpl. rewrite <- app_assoc. reflexivity.
Qed.

(** X8. [escolher_turma] reads all the pages of courses: when the service
    gives [ps] from the first page on, the loop asks each page once with
    the token of the page before, stops at the first page without a next
    token ([None] or the empty string), and has the courses of all the
    pages in the order received. *)
Theorem listar_paginas_todas (srv : Servidor)
        (ps : list (option str * list Curso)) (n : nat) (e : list str) :
  paginas srv None ps -> length ps <= n ->
  listar_paginas n None [] srv e
  = (map (fun p => Execute (courses_list 100 [lit "ACTIVE"] (fst p))) ps,
     e, Retorna (cursos_de ps)).
Proof.
  intros Hp Hn. exact (listar_paginas_ok srv None ps Hp n [] e Hn).
Qed.

(** The theorem at services that give two pages. *)
Lemma listar_paginas_todas_duas_paginas :
  paginas servidor_exemplo None paginas_exemplo /\
  listar_paginas 5 None [] servidor_exemplo []
  = ([Execute (courses_list 100 [lit "ACTIVE"] None);
      Execute (courses_list 100 [lit "ACTIVE"] (Some (lit "p2")))],
     [], Retorna [turma_a; turma_b]).
Proof.
  assert (Hp : paginas servidor_exemplo None paginas_exemplo).
  { apply (paginas_mais servidor_exemplo None [turma_a] (Some (lit "p2")));
      [reflexivity|reflexivity|].
    apply (paginas_ultima servidor_exemplo (Some (lit "p2")) [turma_b] None);
      reflexivity. }
  split; [exact Hp|].
  apply (listar_paginas_todas servidor_exemplo paginas_exemplo 5 [] Hp).
  simpl; lia.
Defined.

Lemma perguntar_turma_fim (cursos : list Curso) (entrada : list str) :
  forall ev resto r,
  perguntar_turma cursos entrada = (ev, resto, r) ->
  (exists c lidas, r = Retorna c /\ In c cursos /\
                   entrada = lidas ++ resto /\ lidas <> []) \/
  (r = Levanta EOFError /\ resto = []).
Proof.
  induction entrada as [|linha entrada IH]; intros ev resto r H.
  - simpl in H. injection H as _ <- <-. right. split; reflexivity.
  - cbn [perguntar_turma] in H.
    assert (Hinv :
      (let '(ev0, e0, r0) := perguntar_turma cursos entrada in
       (Prompt (py "\nEscolha o n\xfamero da turma: ")
          :: Print (py "Op\xe7\xe3o inv\xe1lida.") :: ev0, e0, r0))
      = (ev, resto, r) ->
      (exists c lidas, r = Retorna c /\ In c cursos /\
                       linha :: entrada = lidas ++ resto /\ lidas <> []) \/
      (r = Levanta EOFError /\ resto = [])).
    { destruct (perguntar_turma cursos entrada) as [[ev0 e0] r0] eqn:E.
      intros H'. injection H' as _ <- <-.
      destruct (IH _ _ _ eq_refl) as [(c & lidas & -> & Hc & -> & _)|[-> ->]].
      - left. exists c, (linha :: lidas).
        repeat split; [exact Hc|discriminate].
      - right. split; reflexivity. }
    destruct (py_int (strip linha)) as [x|]; [|exact (Hinv H)].
    destruct ((1 <=? x)%Z && (x <=? Z.of_nat (length cursos))%Z) eqn:Er;
      [|exact (Hinv H)].
    apply andb_true_iff in Er as [H1 H2].
    apply Z.leb_le in H1. apply Z.leb_le in H2.
    destruct (nth_error cursos (Z.to_nat (x - 1))) as [c|] eqn:En.
    + injection H as _ <- <-. left. exists c, [linha].
      repeat split; [exact (nth_error_In _ _ En)|discriminate].
    + apply nth_error_None in En. lia.
Qed.

(** X9. [escolher_turma] returns only a course that the service listed.
    With the pages [ps] read, a call ends in one of three ways: it
    returns a course of [ps], having read at least one line; it exits
    with code 0, without reading, when [ps] has no course; or the input
    ends before a valid number ([EOFError]).  It never raises
    [IndexError]. *)
Theorem escolher_turma_resultado (srv : Servidor)
        (ps : list (option str * list Curso)) (n : nat)
        (e : list str) ev e' r :
  paginas srv None ps -> length ps <= n ->
  escolher_turma n srv e = (ev, e', r) ->
  (exists c lidas, r = Retorna c /\ In c (cursos_de ps) /\
                   e = lidas ++ e' /\ lidas <> []) \/
  (r = Levanta (SysExit 0) /\ cursos_de ps = [] /\ e' = e /\
   impressos ev = [lit "Nenhuma turma ativa encontrada."]) \/
  (r = Levanta EOFError /\ cursos_de ps <> [] /\ e' = []).
Proof.
  intros Hp Hn H. unfold escolher_turma in H.
  rewrite (seguir_retorna _ _ _ _ _ _ _ (listar_paginas_ok srv None ps Hp n [] e Hn))
    in H.
  cbn [app] in H.
  destruct (cursos_de ps) as [|c0 cs] eqn:Ec.
  - right; left. cbn [vazio] in H. unfold seguir, escreve, levanta in H.
    injection H as <- <- <-. repeat split.
    unfold impressos. rewrite flat_map_app.
    replace (flat_map _ (map _ ps)) with (@nil str).
    + reflexivity.
    + clear. induction ps as [|p ps IH]; [reflexivity|exact IH].
  - cbn [vazio] in H.
    assert (Hi : forall i cs', imprimir_turmas i cs' srv e
                   = (fst (fst (imprimir_turmas i cs' srv e)), e, Retorna tt)).
    { intros i cs'. revert i. induction cs' as [|c' cs' IH]; intros i.
      - reflexivity.
      - cbn [imprimir_turmas]. unfold seguir, escreve.
        rewrite (IH (S i)). reflexivity. }
    unfold seguir at 1 in H. unfold retorna at 1 in H.
    unfold seguir at 1 in H. unfold escreve at 1 in H.
    unfold seguir at 1 in H. rewrite (Hi 1 (c0 :: cs)) in H.
    destruct (perguntar_turma (c0 :: cs) e) as [[ev0 e0] r0] eqn:Eq.
    injection H as _ <- <-.
    destruct (perguntar_turma_fim _ _ _ _ _ Eq)
      as [(c & lidas & -> & Hc & -> & Hl)|[-> ->]].
    + left. exists c, lidas. repeat split; assumption.
    + right; right. repeat split. discriminate.
Qed.

(** The theorem at a run that refuses two lines and takes the third. *)
Lemma escolher_turma_resultado_exemplo :
  let e := entrada_exemplo in
  let e' := skipn 3 entrada_exemplo in
  let ev := fst (fst (escolher_turma 5 servidor_exemplo entrada_exemplo)) in
  let r := Retorna turma_b in
  escolher_turma 5 servidor_exemplo e = (ev, e', r) /\
  ((exists c lidas, r = Retorna c /\ In c (cursos_de paginas_exemplo) /\
                    e = lidas ++ e' /\ lidas <> []) \/
   (r = Levanta (SysExit 0) /\ cursos_de paginas_exemplo = [] /\ e' = e /\
    impressos ev = [lit "Nenhuma turma ativa encontrada."]) \/
   (r = Levanta EOFError /\ cursos_de paginas_exemplo <> [] /\ e' = [])).
Proof.
  intros e e' ev r.
  assert (Hp : paginas servidor_exemplo None paginas_exemplo).
  { apply (paginas_mais servidor_exemplo None [turma_a] (Some (lit "p2")));
      [reflexivity|reflexivity|].
    apply (paginas_ultima servidor_exemplo (Some (lit "p2")) [turma_b] None);
      reflexivity. }
  assert (He : escolher_turma 5 servidor_exemplo e = (ev, e', r))
    by (vm_compute; reflexivity).
  split; [exact He|].
  apply (escolher_turma_resultado servidor_exemplo paginas_exemplo 5 e ev e' r
           Hp); [simpl; lia|exact He].
Defined.

Lemma rstrip_by_todos (p : ascii -> bool) (s : str) :
  forallb (fun c => negb (p c)) s = true -> rstrip_by p s = s.
Proof.
  induction s as [|c s IH]; [reflexivity|].
  simpl. intros H. apply andb_true_iff in H as [Hc Hs].
  rewrite (IH Hs). destruct (p c); [discriminate|]. destruct s; reflexivity.
Qed.

Lemma digitos_de_uint (u : Decimal.uint) :
  forallb isdigit (lit (NilEmpty.string_of_uint u)) = true.
Proof. induction u; simpl; try exact IHu; reflexivity. Qed.

Lemma to_uint_nao_nil (n : nat) : Nat.to_uint n <> Decimal.Nil.
Proof.
  intros H. pose proof (DecimalNat.Unsigned.of_to n) as Hn.
  rewrite H in Hn. simpl in Hn. subst n. discriminate H.
Qed.

Lemma digito_nao_branco (c : ascii) :
  isdigit c = true -> isspace c = false /\ isspace_int c = false.
Proof. por_caracter c; intros _; split; reflexivity. Qed.

Lemma forallb_impl {A} (p q : A -> bool) (l : list A) :
  (forall x, p x = true -> q x = true) ->
  forallb p l = true -> forallb q l = true.
Proof.
  intros H. induction l as [|x l IH]; simpl; [reflexivity|].
  intros Hl. apply andb_true_iff in Hl as [Hx Hl].
  rewrite (H x Hx), (IH Hl). reflexivity.
Qed.

Lemma strip_by_digitos (p : ascii -> bool) (s : str) :
  (forall c, isdigit c = true -> p c = false) ->
  forallb isdigit s = true -> strip_by p s = s.
Proof.
  intros Hp Hs. unfold strip_by.
  assert (Hl : lstrip_by p s = s).
  { destruct s as [|c s]; [reflexivity|]. simpl in Hs.
    apply andb_true_iff in Hs as [Hc _]. simpl. rewrite (Hp c Hc). reflexivity. }
  rewrite Hl. apply rstrip_by_todos.
  revert Hs. apply forallb_impl. intros c Hc. rewrite (Hp c Hc). reflexivity.
Qed.

Lemma filter_forallb_true {A} (p : A -> bool) (l : list A) :
  forallb p l = true -> filter p l = l.
Proof.
  induction l as [|x l IH]; simpl; [reflexivity|].
  intros H. apply andb_true_iff in H as [-> Hl]. rewrite (IH Hl). reflexivity.
Qed.

Lemma ler_digitos_uint (u : Decimal.uint) :
  forall a b, u <> Decimal.Nil \/ b = true ->
  ler_digitos (Z.of_nat a) b (lit (NilEmpty.string_of_uint u))
  = Some (Z.of_nat (Nat.of_uint_acc u a)).
Proof.
  induction u; intros a b Hb;
    [destruct Hb as [Hb| ->]; [contradiction|reflexivity]| ..];
    cbn [NilEmpty.string_of_uint lit list_ascii_of_string ler_digitos
         Nat.of_uint_acc];
    unfold lit in IHu;
    match goal with
    | |- (if isdigit ?c then _ else _) = _ =>
        change (isdigit c) with true; cbv iota;
        let v := eval vm_compute in (valor_digito c) in
        change (valor_digito c) with v
    end;
    rewrite Nat.tail_mul_spec;
    match goal with
    | |- ler_digitos ?z _ _ = Some (Z.of_nat (Nat.of_uint_acc _ ?m)) =>
        replace z with (Z.of_nat m) by lia
    end;
    apply IHu; right; reflexivity.
Qed.

Lemma py_int_decimal (n : nat) :
  length (decimal n) <= max_str_digits ->
  py_int (decimal n) = Some (Z.of_nat n).
Proof.
  intros Hl. unfold py_int.
  assert (Hd : forallb isdigit (decimal n) = true) by apply digitos_de_uint.
  rewrite (strip_by_digitos isspace_int _
             (fun c Hc => proj2 (digito_nao_branco c Hc)) Hd).
  rewrite (filter_forallb_true _ _ Hd).
  apply Nat.ltb_ge in Hl. rewrite Hl.
  pose proof (ler_digitos_uint (Nat.to_uint n) 0 false
                (or_introl (to_uint_nao_nil n))) as Hr.
  change (Nat.of_uint_acc (Nat.to_uint n) 0) with (Nat.of_uint (Nat.to_uint n)) in Hr.
  rewrite DecimalNat.Unsigned.of_to in Hr.
  change (Z.of_nat 0) with 0%Z in Hr.
  fold (decimal n) in Hr.
  unfold decimal in *.
  destruct (Nat.to_uint n); exact Hr.
Qed.

Lemma strip_fmt_2d (n : nat) : strip (fmt_2d n) = decimal n.
Proof.
  unfold fmt_2d. cbv zeta.
  assert (Hd : forallb isdigit (decimal n) = true) by apply digitos_de_uint.
  assert (Hs : strip (decimal n) = decimal n)
    by (apply strip_by_digitos;
        [intros c Hc; exact (proj1 (digito_nao_branco c Hc))|exact Hd]).
  unfold strip, strip_by in *.
  assert (Hk : forall k s, lstrip_by isspace (repeat " "%char k ++ s)
                           = lstrip_by isspace s).
  { clear. intros k s. induction k as [|k IH]; [reflexivity|exact IH]. }
  rewrite Hk. exact Hs.
Qed.

Lemma imprimir_turmas_eq (i : nat) (cursos : list Curso) srv e :
  imprimir_turmas i cursos srv e
  = (fst (fst (imprimir_turmas i cursos srv e)), e, Retorna tt).
Proof.
  revert i. induction cursos as [|c cursos IH]; intros i.
  - reflexivity.
  - cbn [imprimir_turmas]. unfold seguir, escreve.
    rewrite (IH (S i)). reflexivity.
Qed.

Lemma imprimir_turmas_linha (cursos : list Curso) srv e :
  forall i0 i c, nth_error cursos i = Some c ->
  nth_error (impressos (fst (fst (imprimir_turmas i0 cursos srv e)))) i
  = Some (fmt_2d (i0 + i) ++ lit " - " ++ curso_name c ++ lit " (ID "
          ++ curso_id c ++ lit ")").
Proof.
  induction cursos as [|c' cursos IH]; intros i0 i c Hi.
  - destruct i; discriminate Hi.
  - cbn [imprimir_turmas]. unfold seguir, escreve.
    rewrite (imprimir_turmas_eq (S i0) cursos srv e). cbn [fst app].
    destruct i as [|i].
    + injection Hi as <-. rewrite Nat.add_0_r. reflexivity.
    + simpl in Hi. replace (i0 + S i) with (S i0 + i) by lia.
      exact (IH (S i0) i c Hi).
Qed.

(** X10. The number printed beside a course selects it.  In the list that
    [escolher_turma] prints, the line of the course at position [i] starts
    with its number [i + 1] in two columns; and a line of input that,
    trimmed, is that number in decimal (so also the number copied as
    printed) makes the loop return that course at once, if the number has
    no more digits than [int] accepts. *)
Theorem numero_impresso_escolhe (cursos : list Curso) (i : nat) (c : Curso)
        (linha : str) (resto : list str) (srv : Servidor) (e : list str) :
  nth_error cursos i = Some c ->
  length (decimal (S i)) <= max_str_digits ->
  strip linha = decimal (S i) ->
  nth_error (impressos (fst (fst (imprimir_turmas 1 cursos srv e)))) i
  = Some (fmt_2d (S i) ++ lit " - " ++ curso_name c ++ lit " (ID "
          ++ curso_id c ++ lit ")") /\
  strip (fmt_2d (S i)) = decimal (S i) /\
  perguntar_turma cursos (linha :: resto)
  = ([Prompt (py "\nEscolha o n\xfamero da turma: ")], resto, Retorna c).
Proof.
  intros Hi Hd Hs. split; [|split].
  - exact (imprimir_turmas_linha cursos srv e 1 i c Hi).
  - apply strip_fmt_2d.
  - cbn [perguntar_turma]. rewrite Hs, (py_int_decimal _ Hd).
    assert (Hlt : i < length cursos) by (apply nth_error_Some; congruence).
    replace ((1 <=? Z.of_nat (S i))%Z) with true by (symmetry; apply Z.leb_le; lia).
    replace ((Z.of_nat (S i) <=? Z.of_nat (length cursos))%Z) with true
      by (symmetry; apply Z.leb_le; lia).
    cbn [andb].
    replace (Z.to_nat (Z.of_nat (S i) - 1)) with i by lia.
    rewrite Hi. reflexivity.
Qed.

(** The theorem at the second of two courses, its number typed between
    spaces. *)
Lemma numero_impresso_escolhe_segunda :
  nth_error (impressos (fst (fst (imprimir_turmas 1 [turma_a; turma_b]
                                    servidor_exemplo [])))) 1
  = Some (fmt_2d 2 ++ lit " - " ++ curso_name turma_b ++ lit " (ID "
          ++ curso_id turma_b ++ lit ")") /\
  strip (fmt_2d 2) = decimal 2 /\
  perguntar_turma [turma_a; turma_b] [lit " 2 "]
  = ([Prompt (py "\nEscolha o n\xfamero da turma: ")], [], Retorna turma_b).
Proof.
  apply (numero_impresso_escolhe [turma_a; turma_b] 1 turma_b (lit " 2 ") []
           servidor_exemplo []).
  - reflexivity.
  - apply Nat.leb_le. vm_compute. reflexivity.
  - vm_compute. reflexivity.
Defined.

Lemma imprimir_temas_eq (i : nat) (temas : list Tema) srv e :
  imprimir_temas i temas srv e
  = (fst (fst (imprimir_temas i temas srv e)), e, Retorna tt).
Proof.
  revert i. induction temas as [|t temas IH]; intros i.
  - reflexivity.
  - cbn [imprimir_temas]. unfold seguir, escreve.
    rewrite (IH (S i)). reflexivity.
Qed.

Lemma perguntar_tema_fim (temas : list Tema) (entrada : list str) :
  forall ev resto r,
  perguntar_tema temas entrada = (ev, resto, r) ->
  (exists lidas, entrada = lidas ++ resto /\ lidas <> [] /\
     (r = Retorna None \/
      exists t, r = Retorna (Some (tema_topicId t)) /\ In t temas)) \/
  (r = Levanta EOFError /\ resto = []).
Proof.
  induction entrada as [|linha entrada IH]; intros ev resto r H.
  - simpl in H. injection H as _ <- <-. right. split; reflexivity.
  - cbn [perguntar_tema] in H.
    assert (Hinv :
      (let '(ev0, e0, r0) := perguntar_tema temas entrada in
       (Prompt (py "\nEscolha o n\xfamero do tema (0 para sem tema): ")
          :: Print (py "Op\xe7\xe3o inv\xe1lida.") :: ev0, e0, r0))
      = (ev, resto, r) ->
      (exists lidas, linha :: entrada = lidas ++ resto /\ lidas <> [] /\
         (r = Retorna None \/
          exists t, r = Retorna (Some (tema_topicId t)) /\ In t temas)) \/
      (r = Levanta EOFError /\ resto = [])).
    { destruct (perguntar_tema temas entrada) as [[ev0 e0] r0] eqn:E.
      intros H'. injection H' as _ <- <-.
      destruct (IH _ _ _ eq_refl) as [(lidas & -> & _ & Hr)|[-> ->]].
      - left. exists (linha :: lidas).
        split; [reflexivity|]. split; [discriminate|exact Hr].
      - right. split; reflexivity. }
    destruct (py_int (strip linha)) as [x|]; [|exact (Hinv H)].
    destruct (x =? 0)%Z.
    { injection H as _ <- <-. left. exists [linha].
      split; [reflexivity|]. split; [discriminate|left; reflexivity]. }
    destruct ((1 <=? x)%Z && (x <=? Z.of_nat (length temas))%Z) eqn:Er;
      [|exact (Hinv H)].
    apply andb_true_iff in Er as [H1 H2].
    apply Z.leb_le in H1. apply Z.leb_le in H2.
    destruct (nth_error temas (Z.to_nat (x - 1))) as [t|] eqn:En.
    + injection H as _ <- <-. left. exists [linha].
      split; [reflexivity|]. split; [discriminate|].
      right. exists t. split; [reflexivity|exact (nth_error_In _ _ En)].
    + apply nth_error_None in En. lia.
Qed.

(** X11. [escolher_tema] returns [None] or the [topicId] of a topic the
    service listed for the course, after reading at least one line; or the
    input ends before a valid number ([EOFError]); it never raises
    [IndexError].  When the course has no topic it returns [None] without
    asking: nothing is read and only the notice is printed. *)
Theorem escolher_tema_resultado (curso : Curso) (temas : list Tema)
        (srv : Servidor) (e : list str) ev e' r :
  ao_topics_list srv (curso_id curso) = Corpo temas ->
  escolher_tema curso srv e = (ev, e', r) ->
  (temas = [] ->
   r = Retorna None /\ e' = e /\
   ev = [Execute (topics_list (curso_id curso));
         Print (py "\nNenhum tema cadastrado para esta turma. A atividade ser\xe1 criada SEM tema.")]) /\
  (temas <> [] ->
   (exists lidas, e = lidas ++ e' /\ lidas <> [] /\
      (r = Retorna None \/
       exists t, r = Retorna (Some (tema_topicId t)) /\ In t temas)) \/
   (r = Levanta EOFError /\ e' = [])).
Proof.
  intros Hs H. unfold escolher_tema, seguir at 1, execute in H.
  rewrite Hs in H.
  destruct temas as [|t0 ts].
  - cbn [vazio] in H. unfold seguir, escreve, retorna in H.
    injection H as <- <- <-.
    split; [intros _; repeat split|intros Hn; contradiction].
  - split; [discriminate|intros _].
    cbn [vazio] in H.
    unfold seguir at 1 in H. unfold escreve at 1 in H.
    unfold seguir at 1 in H. unfold escreve at 1 in H.
    unfold seguir at 1 in H. rewrite (imprimir_temas_eq 1 (t0 :: ts)) in H.
    destruct (perguntar_tema (t0 :: ts) e) as [[ev0 e0] r0] eqn:Eq.
    injection H as _ <- <-.
    exact (perguntar_tema_fim _ _ _ _ _ Eq).
Qed.

(** The theorem at a course with one topic, which is chosen. *)
Lemma escolher_tema_resultado_exemplo :
  let e := [lit "1"; lit "Prova"] in
  let e' := [lit "Prova"] in
  let ev := fst (fst (escolher_tema turma_b servidor_exemplo e)) in
  let r := Retorna (Some (lit "t1")) in
  escolher_tema turma_b servidor_exemplo e = (ev, e', r) /\
  ([tema_1] = [] ->
   r = Retorna None /\ e' = e /\
   ev = [Execute (topics_list (curso_id turma_b));
         Print (py "\nNenhum tema cadastrado para esta turma. A atividade ser\xe1 criada SEM tema.")]) /\
  ([tema_1] <> [] ->
   (exists lidas, e = lidas ++ e' /\ lidas <> [] /\
      (r = Retorna None \/
       exists t, r = Retorna (Some (tema_topicId t)) /\ In t [tema_1])) \/
   (r = Levanta EOFError /\ e' = [])).
Proof.
  intros e e' ev r.
  assert (He : escolher_tema turma_b servidor_exemplo e = (ev, e', r))
    by (vm_compute; reflexivity).
  split; [exact He|].
  exact (escolher_tema_resultado turma_b [tema_1] servidor_exemplo e ev e' r
           eq_refl He).
Defined.

Lemma ler_linhas_bloco_antes (antes : list str) :
  forallb (fun l => negb (e_fim l)) antes = true ->
  forall resto acc,
  ler_linhas_bloco (antes ++ resto) acc = ler_linhas_bloco resto (acc ++ antes).
Proof.
  induction antes as [|l antes IH]; intros Ha resto acc.
  - rewrite app_nil_r. reflexivity.
  - simpl in Ha. apply andb_true_iff in Ha as [Hl Ha].
    cbn [app ler_linhas_bloco]. unfold e_fim in Hl.
    destruct (list_eq_dec ascii_dec (lower (strip l)) (lit "fim"));
      [discriminate Hl|].
    rewrite (IH Ha). rewrite <- app_assoc. reflexivity.
Qed.

(** X12. The loop of [main] that reads the text keeps exactly the lines
    typed before the first line that is [fim] once trimmed and put in
    lower case, in the order typed; that line is read and dropped, and the
    lines after it stay unread.  Without such a line the loop keeps all
    the lines up to the end of the input and ends without an error. *)
Theorem ler_linhas_bloco_ate_fim (antes : list str) :
  forallb (fun l => negb (e_fim l)) antes = true ->
  (forall f depois, e_fim f = true ->
     ler_linhas_bloco (antes ++ f :: depois) [] = ([], depois, Retorna antes)) /\
  ler_linhas_bloco antes [] = ([], [], Retorna antes).
Proof.
  intros Ha. split.
  - intros f depois Hf. rewrite (ler_linhas_bloco_antes antes Ha).
    cbn [ler_linhas_bloco app]. unfold e_fim in Hf.
    destruct (list_eq_dec ascii_dec (lower (strip f)) (lit "fim"));
      [reflexivity|discriminate Hf].
  - rewrite <- (app_nil_r antes) at 1.
    rewrite (ler_linhas_bloco_antes antes Ha). reflexivity.
Qed.

(** The theorem at two lines of text. *)
Lemma ler_linhas_bloco_ate_fim_exemplo :
  let antes := [lit "P1: Q"; lit "A) x"] in
  (forall f depois, e_fim f = true ->
     ler_linhas_bloco (antes ++ f :: depois) [] = ([], depois, Retorna antes)) /\
  ler_linhas_bloco antes [] = ([], [], Retorna antes).
Proof.
  apply (ler_linhas_bloco_ate_fim [lit "P1: Q"; lit "A) x"]).
  vm_compute. reflexivity.
Defined.

Lemma splitlines_from_sem_quebra (l : str) :
  sem_quebra l = true ->
  forall cur s, splitlines_from cur (l ++ s) = splitlines_from (rev l ++ cur) s.
Proof.
  induction l as [|c l IH]; intros Hl cur s; [reflexivity|].
  unfold sem_quebra in Hl. simpl in Hl. apply andb_true_iff in Hl as [Hc Hl].
  apply negb_true_iff in Hc.
  change ((c :: l) ++ s) with (c :: (l ++ s)).
  rewrite splitlines_from_cons, Hc, (IH Hl).
  simpl. rewrite <- app_assoc. reflexivity.
Qed.

Lemma splitlines_join_nl (ls : list str) :
  forallb sem_quebra ls = true ->
  last ls nl <> [] ->
  splitlines (join_nl ls) = ls.
Proof.
  induction ls as [|l r IH]; intros Hq Hu; [reflexivity|].
  simpl in Hq. apply andb_true_iff in Hq as [Hl Hq].
  destruct r as [|l2 r].
  - cbn [join_nl]. simpl in Hu. unfold splitlines.
    rewrite <- (app_nil_r l) at 1.
    rewrite (splitlines_from_sem_quebra l Hl), app_nil_r.
    cbn [splitlines_from]. rewrite rev_involutive.
    destruct (rev l) eqn:E; [|reflexivity].
    apply (f_equal (@rev ascii)) in E. rewrite rev_involutive in E.
    contradiction.
  - change (join_nl (l :: l2 :: r)) with (l ++ nl ++ join_nl (l2 :: r)).
    unfold splitlines at 1.
    rewrite (splitlines_from_sem_quebra l Hl), app_nil_r.
    unfold nl. cbn [app]. rewrite splitlines_from_nl, rev_involutive.
    rewrite (IH Hq Hu). reflexivity.
Qed.

Lemma sem_quebra_nl (c : ascii) :
  negb (is_linebreak c) = true -> is_nl c = false.
Proof. por_caracter c. Qed.

Lemma lstrip_nl_join_nl (ls : list str) :
  forallb sem_quebra ls = true ->
  lstrip_by is_nl (join_nl ls) = join_nl (sem_vazias_inicio ls).
Proof.
  induction ls as [|l r IH]; intros Hq; [reflexivity|].
  simpl in Hq. apply andb_true_iff in Hq as [Hl Hq].
  destruct l as [|c l].
  - cbn [sem_vazias_inicio]. destruct r as [|l2 r]; [reflexivity|].
    change (join_nl ([] :: l2 :: r)) with (chr 10 :: join_nl (l2 :: r)).
    cbn [lstrip_by]. change (is_nl (chr 10)) with true. cbv iota.
    exact (IH Hq).
  - cbn [sem_vazias_inicio].
    unfold sem_quebra in Hl. simpl in Hl. apply andb_true_iff in Hl as [Hc _].
    apply sem_quebra_nl in Hc.
    destruct r as [|l2 r]; cbn [join_nl app lstrip_by]; rewrite Hc; reflexivity.
Qed.

Lemma rstrip_by_app (p : ascii -> bool) (s t : str) :
  rstrip_by p (s ++ t)
  = match rstrip_by p t with [] => rstrip_by p s | r => s ++ r end.
Proof.
  induction s as [|c s IH]; [simpl; destruct (rstrip_by p t); reflexivity|].
  cbn [app rstrip_by]. rewrite IH.
  destruct (rstrip_by p t); [reflexivity|].
  destruct s; reflexivity.
Qed.

Lemma join_nl_snoc (xs : list str) (l : str) :
  xs <> [] -> join_nl (xs ++ [l]) = join_nl xs ++ nl ++ l.
Proof.
  induction xs as [|x xs IH]; intros Hx; [contradiction|].
  destruct xs as [|y xs]; [reflexivity|].
  change (join_nl ((x :: y :: xs) ++ [l]))
    with (x ++ nl ++ join_nl ((y :: xs) ++ [l])).
  rewrite IH by discriminate.
  change (join_nl (x :: y :: xs)) with (x ++ nl ++ join_nl (y :: xs)).
  rewrite <- !app_assoc. reflexivity.
Qed.

Lemma rstrip_nl_join_nl (ls : list str) :
  forallb sem_quebra ls = true ->
  rstrip_by is_nl (join_nl ls) = join_nl (rev (sem_vazias_inicio (rev ls))).
Proof.
  induction ls as [|l xs IH] using rev_ind; intros Hq; [reflexivity|].
  rewrite forallb_app in Hq. apply andb_true_iff in Hq as [Hx Hl].
  simpl in Hl. rewrite andb_true_r in Hl.
  rewrite rev_app_distr. cbn [rev app].
  destruct l as [|c l].
  - cbn [sem_vazias_inicio]. rewrite <- (IH Hx).
    destruct xs as [|x xs]; [reflexivity|].
    rewrite join_nl_snoc by discriminate.
    rewrite app_nil_r, rstrip_by_app. reflexivity.
  - cbn [sem_vazias_inicio rev]. rewrite rev_involutive.
    assert (Hr : rstrip_by is_nl (c :: l) = c :: l).
    { apply rstrip_by_todos. revert Hl. unfold sem_quebra.
      apply forallb_impl. intros d Hd.
      rewrite (sem_quebra_nl d Hd). reflexivity. }
    destruct xs as [|x xs]; [exact Hr|].
    rewrite join_nl_snoc by discriminate.
    rewrite app_assoc, rstrip_by_app, Hr. reflexivity.
Qed.

Lemma sem_vazias_inicio_sufixo (ls : list str) :
  exists k, sem_vazias_inicio ls = skipn k ls.
Proof.
  induction ls as [|l r [k IH]]; [exists 0; reflexivity|].
  destruct l; [exists (S k); exact IH|exists 0; reflexivity].
Qed.

Lemma forallb_skipn {A} (p : A -> bool) (k : nat) (l : list A) :
  forallb p l = true -> forallb p (skipn k l) = true.
Proof.
  revert l. induction k as [|k IH]; intros l H; [exact H|].
  destruct l as [|x l]; [reflexivity|].
  simpl in H. apply andb_true_iff in H as [_ H]. exact (IH l H).
Qed.

Lemma forallb_rev_true {A} (p : A -> bool) (l : list A) :
  forallb p l = true -> forallb p (rev l) = true.
Proof.
  intros H. apply forallb_forall. intros x Hx.
  apply in_rev in Hx. exact (proj1 (forallb_forall p l) H x Hx).
Qed.

Lemma sem_vazias_inicio_hd (ls : list str) :
  hd nl (sem_vazias_inicio ls) <> [].
Proof.
  induction ls as [|l r IH]; [discriminate|].
  destruct l; [exact IH|discriminate].
Qed.

Lemma last_rev {A} (l : list A) (d : A) : last (rev l) d = hd d l.
Proof.
  destruct l as [|x l]; [reflexivity|].
  simpl. apply last_last.
Qed.

Lemma sem_quebra_sem_vazias_inicio (ls : list str) :
  forallb sem_quebra ls = true ->
  forallb sem_quebra (sem_vazias_inicio ls) = true.
Proof.
  intros Hq. destruct (sem_vazias_inicio_sufixo ls) as [k ->].
  apply forallb_skipn. exact Hq.
Qed.

Lemma strip_nl_join_nl (ls : list str) :
  forallb sem_quebra ls = true ->
  strip_nl (join_nl ls) = join_nl (aparar_vazias ls).
Proof.
  intros Hq. unfold strip_nl, strip_by, aparar_vazias.
  rewrite (lstrip_nl_join_nl ls Hq).
  apply rstrip_nl_join_nl, sem_quebra_sem_vazias_inicio, Hq.
Qed.

Lemma splitlines_aparar_vazias (ls : list str) :
  forallb sem_quebra ls = true ->
  splitlines (join_nl (aparar_vazias ls)) = aparar_vazias ls.
Proof.
  intros Hq. unfold aparar_vazias. apply splitlines_join_nl.
  - apply forallb_rev_true, sem_quebra_sem_vazias_inicio, forallb_rev_true,
      sem_quebra_sem_vazias_inicio, Hq.
  - rewrite last_rev. apply sem_vazias_inicio_hd.
Qed.

(** X13. What [main] joins, [parse_bloco] splits again: when no line
    typed holds a line boundary of [str.splitlines], the lines that
    [parse_bloco] works on are the lines typed, in order, without the
    empty lines at the start and at the end. *)
Theorem linhas_de_join_nl (ls : list str) :
  forallb sem_quebra ls = true ->
  linhas_de (join_nl ls) = aparar_vazias ls.
Proof.
  intros Hq. unfold linhas_de.
  rewrite (strip_nl_join_nl ls Hq).
  exact (splitlines_aparar_vazias ls Hq).
Qed.

(** The theorem at lines with empty lines at the start, inside and at the
    end. *)
Lemma linhas_de_join_nl_exemplo :
  linhas_de (join_nl [[]; lit "P1: Q"; []; lit "A) x"; []; []])
  = [lit "P1: Q"; []; lit "A) x"].
Proof.
  apply (linhas_de_join_nl [[]; lit "P1: Q"; []; lit "A) x"; []; []]).
  vm_compute. reflexivity.
Defined.

Lemma escrever_todas_eq (linhas : list str) srv e :
  escrever_todas linhas srv e = (map Print linhas, e, Retorna tt).
Proof.
  induction linhas as [|l r IH]; [reflexivity|].
  cbn [escrever_todas]. unfold seguir, escreve. rewrite IH. reflexivity.
Qed.

(** What [main] has done when it calls [parse_bloco]. *)
Lemma main_ate_o_texto (n : nat) (srv : Servidor) (e0 : list str)
      ev1 e1 turma ev2 resposta e2 topic e3 linhas :
  escolher_turma n srv e0 = (ev1, e1, Retorna turma) ->
  escolher_tema turma srv e1 = (ev2, resposta :: e2, Retorna topic) ->
  ler_linhas_bloco e2 [] = ([], e3, Retorna linhas) ->
  let titulo :=
    if vazio (strip resposta) then py "Avalia\xe7\xe3o" else strip resposta in
  main n srv e0
  = (let '(ev, e', r) :=
       (questoes <- de_proc (parse_bloco (join_nl linhas)) ;;
        par <- criar_quiz_forms titulo questoes ;;
        let '(form_id, link) := par in
        coursework_id <- criar_atividade_classroom turma titulo link topic ;;
        escreve (py "\nProcesso conclu\xeddo.") ;;
        escreve (py "Link da avalia\xe7\xe3o (para fins de verifica\xe7\xe3o): "
                 ++ str_de link) ;;
        escreve (lit "ID do Form: " ++ form_id) ;;
        escreve (lit "ID do trabalho no Classroom (courseWorkId): "
                 ++ coursework_id))%prog srv e3 in
     (ev1 ++ ev2 ++ Prompt (py "\nT\xedtulo da avalia\xe7\xe3o: ")
          :: map Print instrucoes ++ ev, e', r)).
Proof.
  intros H1 H2 H3 titulo. unfold main.
  rewrite (seguir_retorna _ _ _ _ _ _ _ H1).
  rewrite (seguir_retorna _ _ _ _ _ _ _ H2).
  unfold ler_titulo.
  unfold seguir at 1. unfold seguir at 1. unfold input, retorna. cbv iota beta.
  fold titulo.
  unfold seguir at 1. rewrite escrever_todas_eq.
  unfold seguir at 1. rewrite H3.
  match goal with
  | |- context [seguir ?m ?f srv e3] => destruct (seguir m f srv e3) as [[ev e'] r]
  end.
  cbn [app]. reflexivity.
Qed.

(** X14. A text that [parse_bloco] refuses ends [main] before any form or
    assignment is made: after the course, the topic and the title are
    chosen and the text is read, the run prints the message of the
    failure and exits with code 1, and the only requests executed are
    those of the choice of the course and of the topic. *)
Theorem main_texto_recusado (n : nat) (srv : Servidor) (e0 : list str)
        ev1 e1 turma ev2 resposta e2 topic e3 linhas (f : Failure) :
  escolher_turma n srv e0 = (ev1, e1, Retorna turma) ->
  escolher_tema turma srv e1 = (ev2, resposta :: e2, Retorna topic) ->
  ler_linhas_bloco e2 [] = ([], e3, Retorna linhas) ->
  parse_bloco (join_nl linhas) = falha f ->
  main n srv e0
  = (ev1 ++ ev2 ++ Prompt (py "\nT\xedtulo da avalia\xe7\xe3o: ")
         :: map Print instrucoes ++ [Print (mensagem f)],
     e3, Levanta (SysExit 1)) /\
  chamadas (fst (fst (main n srv e0))) = chamadas ev1 ++ chamadas ev2.
Proof.
  intros H1 H2 H3 Hp.
  assert (E : main n srv e0
              = (ev1 ++ ev2 ++ Prompt (py "\nT\xedtulo da avalia\xe7\xe3o: ")
                     :: map Print instrucoes ++ [Print (mensagem f)],
                 e3, Levanta (SysExit 1))).
  { rewrite (main_ate_o_texto n srv e0 _ _ _ _ _ _ _ _ _ H1 H2 H3).
    unfold seguir at 1. unfold de_proc. rewrite Hp. reflexivity. }
  split; [exact E|].
  rewrite E. cbn [fst]. unfold chamadas.
  rewrite !flat_map_app. cbn [flat_map]. rewrite flat_map_app.
  replace (flat_map _ (map Print instrucoes)) with (@nil chamada)
    by reflexivity.
  cbn [flat_map app]. rewrite app_nil_r. reflexivity.
Qed.

(** The theorem at a run whose question has one alternative. *)
Lemma main_texto_recusado_exemplo :
  snd (main 5 servidor_exemplo entrada_recusada) = Levanta (SysExit 1) /\
  chamadas (fst (fst (main 5 servidor_exemplo entrada_recusada)))
  = [courses_list 100 [lit "ACTIVE"] None;
     courses_list 100 [lit "ACTIVE"] (Some (lit "p2"));
     topics_list (lit "c2")].
Proof.
  destruct (main_texto_recusado 5 servidor_exemplo entrada_recusada
              (fst (fst (escolher_turma 5 servidor_exemplo entrada_recusada)))
              (skipn 1 entrada_recusada) turma_b
              (fst (fst (escolher_tema turma_b servidor_exemplo
                           (skipn 1 entrada_recusada))))
              (lit "Prova") (skipn 3 entrada_recusada) None []
              [lit "P1: Q"; lit "A) x"] (InsufficientChoices (lit "Q")))
    as [E Hc]; try (vm_compute; reflexivity).
  split; [rewrite E; reflexivity|rewrite Hc; vm_compute; reflexivity].
Defined.

(** X15. A text that [parse_bloco] accepts is carried through to the
    assignment.  When the services answer, [main] returns after exactly
    these requests, in this order, after those of the choices: the form is
    created with the title typed (or the default title when the line
    typed is blank); it is opened to anyone with the link; it is updated
    with the settings and one item for each question; its link is read;
    and the assignment is created in the course chosen, with the same
    title, that link (even when the form has none) and the topic
    chosen. *)
Theorem main_texto_aceito (n : nat) (srv : Servidor) (e0 : list str)
        ev1 e1 turma ev2 resposta e2 topic e3 linhas
        (qs : list Question) (fid : str) (uri : option str) (wid : str) :
  let titulo :=
    if vazio (strip resposta) then py "Avalia\xe7\xe3o" else strip resposta in
  escolher_turma n srv e0 = (ev1, e1, Retorna turma) ->
  escolher_tema turma srv e1 = (ev2, resposta :: e2, Retorna topic) ->
  ler_linhas_bloco e2 [] = ([], e3, Retorna linhas) ->
  snd (parse_bloco (join_nl linhas)) = Value qs ->
  ao_forms_create srv (JDict [(lit "info", JDict [(lit "title", JStr titulo)])])
  = Corpo fid ->
  (forall corpo, ao_forms_batchUpdate srv fid corpo = Corpo tt) ->
  ao_forms_get srv fid = Corpo uri ->
  (forall corpo, ao_courseWork_create srv (curso_id turma) corpo = Corpo wid) ->
  exists reqs,
    snd (main n srv e0) = Retorna tt /\
    snd (fst (main n srv e0)) = e3 /\
    chamadas (fst (fst (main n srv e0)))
    = chamadas ev1 ++ chamadas ev2 ++
      [forms_create (JDict [(lit "info", JDict [(lit "title", JStr titulo)])]);
       permissions_create fid
         (JDict [(lit "type", JStr (lit "anyone"));
                 (lit "role", JStr (lit "reader"))]) (lit "id");
       forms_batchUpdate fid
         (JDict [(lit "requests", JList (updateSettings :: reqs))]);
       forms_get fid;
       courseWork_create (curso_id turma) (corpo_atividade titulo uri topic)] /\
    length reqs = length qs /\
    forall j q, nth_error qs j = Some q ->
      exists c, nth_error (alternativas q) (correta_idx q) = Some c /\
                nth_error reqs j = Some (createItem j q c).
Proof.
  intros titulo H1 H2 H3 Hp Hc Hb Hg Hw.
  destruct (parse_bloco_value _ _ Hp) as (Hr & _ & _).
  destruct (criar_quiz_forms_ok titulo qs srv e3 fid uri
              (parse_bloco_indices _ _ Hp) Hc Hb Hg)
    as (reqs & aviso & Hq & Hl & Hn).
  exists reqs.
  assert (E : exists ev,
             main n srv e0 = (ev, e3, Retorna tt) /\
             chamadas ev
             = chamadas ev1 ++ chamadas ev2 ++
               [forms_create
                  (JDict [(lit "info", JDict [(lit "title", JStr titulo)])]);
                permissions_create fid
                  (JDict [(lit "type", JStr (lit "anyone"));
                          (lit "role", JStr (lit "reader"))]) (lit "id");
                forms_batchUpdate fid
                  (JDict [(lit "requests", JList (updateSettings :: reqs))]);
                forms_get fid;
                courseWork_create (curso_id turma)
                                  (corpo_atividade titulo uri topic)]).
  { rewrite (main_ate_o_texto n srv e0 _ _ _ _ _ _ _ _ _ H1 H2 H3).
    fold titulo.
    unfold seguir at 1. unfold de_proc. rewrite Hr.
    cbn [fst snd ret map].
    unfold seguir at 1. rewrite Hq.
    unfold criar_atividade_classroom, seguir, execute, escreve, retorna.
    rewrite Hw. cbn [fst snd app].
    eexists. split; [reflexivity|].
    unfold chamadas.
    rewrite !flat_map_app. cbn [flat_map]. rewrite flat_map_app.
    replace (flat_map _ (map Print instrucoes)) with (@nil chamada)
      by reflexivity.
    reflexivity. }
  destruct E as (ev & E & Hcs). rewrite E. cbn [fst snd].
  repeat split; assumption.
Qed.

(** The theorem at a run with a blank title and one question. *)
Lemma main_texto_aceito_exemplo :
  exists reqs,
    snd (main 5 servidor_exemplo entrada_exemplo) = Retorna tt /\
    snd (fst (main 5 servidor_exemplo entrada_exemplo)) = [lit "extra"] /\
    chamadas (fst (fst (main 5 servidor_exemplo entrada_exemplo)))
    = [courses_list 100 [lit "ACTIVE"] None;
       courses_list 100 [lit "ACTIVE"] (Some (lit "p2"));
       topics_list (lit "c2");
       forms_create
         (JDict [(lit "info", JDict [(lit "title", JStr (py "Avalia\xe7\xe3o"))])]);
       permissions_create (lit "F1")
         (JDict [(lit "type", JStr (lit "anyone"));
                 (lit "role", JStr (lit "reader"))]) (lit "id");
       forms_batchUpdate (lit "F1")
         (JDict [(lit "requests", JList (updateSettings :: reqs))]);
       forms_get (lit "F1");
       courseWork_create (lit "c2")
         (corpo_atividade (py "Avalia\xe7\xe3o")
                          (Some (lit "https://forms/F1")) (Some (lit "t1")))] /\
    length reqs = 1.
Proof.
  destruct (main_texto_aceito 5 servidor_exemplo entrada_exemplo
              (fst (fst (escolher_turma 5 servidor_exemplo entrada_exemplo)))
              (skipn 3 entrada_exemplo) turma_b
              (fst (fst (escolher_tema turma_b servidor_exemplo
                           (skipn 3 entrada_exemplo))))
              [] (skipn 5 entrada_exemplo) (Some (lit "t1"))
              [lit "extra"]
              [lit "P1: Q"; lit "A) x"; lit "b) y"; lit "G: b"]
              [pergunta_exemplo] (lit "F1") (Some (lit "https://forms/F1"))
              (lit "W1"))
    as (reqs & Hr & He & Hc & Hl & _);
    try (vm_compute; reflexivity); try (intros corpo; reflexivity).
  exists reqs. split; [exact Hr|]. split; [exact He|].
  split; [rewrite Hc; reflexivity|exact Hl].
Defined.

Lemma montar_requests_V3_V5 (qs : list Question) :
  forall i acc, Script_V3.montar_requests i qs acc = montar_requests i qs acc.
Proof.
  induction qs as [|q qs IH]; intros i acc; [reflexivity|].
  cbn [Script_V3.montar_requests montar_requests].
  destruct (nth_error (alternativas q) (correta_idx q)); [|reflexivity].
  apply IH.
Qed.

Lemma montar_requests_puro (qs : list Question) :
  forall i acc srv e,
    fst (montar_requests i qs acc srv e) = ([], e).
Proof.
  induction qs as [|q qs IH]; intros i acc srv e; [reflexivity|].
  cbn [montar_requests].
  destruct (nth_error (alternativas q) (correta_idx q)); [apply IH|reflexivity].
Qed.

(** X16. The quiz of version 5 is the quiz of version 3 with the Drive
    request added.  For every title, list of questions, service and
    input, [criar_quiz_forms] ends the same way in both versions (the same
    result or the same exception), leaves the same input, and executes
    the same requests in the same order once the Drive request of
    version 5 is left out. *)
Theorem criar_quiz_forms_V3_V5 (titulo : str) (qs : list Question)
        (srv : Servidor) (e : list str) :
  snd (criar_quiz_forms titulo qs srv e)
  = snd (Script_V3.criar_quiz_forms titulo qs srv e) /\
  snd (fst (criar_quiz_forms titulo qs srv e))
  = snd (fst (Script_V3.criar_quiz_forms titulo qs srv e)) /\
  sem_permissao (chamadas (fst (fst (criar_quiz_forms titulo qs srv e))))
  = chamadas (fst (fst (Script_V3.criar_quiz_forms titulo qs srv e))).
Proof.
  unfold criar_quiz_forms, Script_V3.criar_quiz_forms.
  unfold seguir, execute, tentar, escreve, retorna.
  destruct (ao_forms_create srv _) as [fid|x]; [|repeat split].
  rewrite (montar_requests_V3_V5 qs 0 [Script_V3.updateSettings]).
  change Script_V3.updateSettings with updateSettings.
  pose proof (montar_requests_puro qs 0 [updateSettings] srv e) as Hm.
  destruct (ao_permissions_create srv fid _) as [[]|x]; cbv beta iota zeta;
    (destruct (montar_requests 0 qs [updateSettings] srv e) as [[evm em] rm];
     cbn [fst] in Hm; injection Hm as -> ->;
     destruct rm as [reqs|x'|]; [|repeat split; fail..]);
    (destruct (ao_forms_batchUpdate srv fid _) as [[]|x']; [|repeat split]);
    destruct (ao_forms_get srv fid) as [uri|x']; repeat split.
Qed.

Lemma etapas_app (ev ev' : list evento) :
  etapas (ev ++ ev') = etapas ev ++ etapas ev'.
Proof. unfold etapas, chamadas. rewrite flat_map_app, map_app. reflexivity. Qed.

Lemma etapas_listar_paginas (n : nat) :
  forall t acc srv e,
  exists k, etapas (fst (fst (listar_paginas n t acc srv e))) = repeat 0 k.
Proof.
  induction n as [|n IH]; intros t acc srv e; [exists 0; reflexivity|].
  cbn [listar_paginas]. unfold seguir, execute.
  destruct (ao_courses_list srv t) as [[cs nxt]|x]; [|exists 1; reflexivity].
  cbn [fst snd]. destruct (negb (verdadeiro nxt)); [exists 1; reflexivity|].
  destruct (IH nxt (acc ++ cs) srv e) as [k Hk].
  destruct (listar_paginas n nxt (acc ++ cs) srv e) as [[ev e'] r].
  exists (S k). cbn [fst] in *. rewrite etapas_app, Hk. reflexivity.
Qed.

Lemma etapas_imprimir_turmas (cursos : list Curso) :
  forall i srv e, etapas (fst (fst (imprimir_turmas i cursos srv e))) = [].
Proof.
  induction cursos as [|c cursos IH]; intros i srv e; [reflexivity|].
  cbn [imprimir_turmas]. unfold seguir, escreve.
  rewrite (imprimir_turmas_eq (S i) cursos srv e). cbn [fst].
  rewrite etapas_app. exact (IH (S i) srv e).
Qed.

Lemma etapas_imprimir_temas (temas : list Tema) :
  forall i srv e, etapas (fst (fst (imprimir_temas i temas srv e))) = [].
Proof.
  induction temas as [|c temas IH]; intros i srv e; [reflexivity|].
  cbn [imprimir_temas]. unfold seguir, escreve.
  rewrite (imprimir_temas_eq (S i) temas srv e). cbn [fst].
  rewrite etapas_app. exact (IH (S i) srv e).
Qed.

Lemma etapas_perguntar_turma (cursos : list Curso) (entrada : list str) :
  etapas (fst (fst (perguntar_turma cursos entrada))) = [].
Proof.
  induction entrada as [|linha entrada IH]; [reflexivity|].
  cbn [perguntar_turma].
  destruct (perguntar_turma cursos entrada) as [[ev0 e0] r0].
  destruct (py_int (strip linha)) as [x|]; [|exact IH].
  destruct ((1 <=? x)%Z && (x <=? Z.of_nat (length cursos))%Z); [|exact IH].
  destruct (nth_error cursos (Z.to_nat (x - 1))); reflexivity.
Qed.

Lemma etapas_perguntar_tema (temas : list Tema) (entrada : list str) :
  etapas (fst (fst (perguntar_tema temas entrada))) = [].
Proof.
  induction entrada as [|linha entrada IH]; [reflexivity|].
  cbn [perguntar_tema].
  destruct (perguntar_tema temas entrada) as [[ev0 e0] r0].
  destruct (py_int (strip linha)) as [x|]; [|exact IH].
  destruct (x =? 0)%Z; [reflexivity|].
  destruct ((1 <=? x)%Z && (x <=? Z.of_nat (length temas))%Z); [|exact IH].
  destruct (nth_error temas (Z.to_nat (x - 1))); reflexivity.
Qed.

Lemma etapas_escolher_turma (n : nat) srv e :
  exists k, etapas (fst (fst (escolher_turma n srv e))) = repeat 0 k.
Proof.
  unfold escolher_turma. unfold seguir at 1.
  destruct (etapas_listar_paginas n None [] srv e) as [k Hk].
  destruct (listar_paginas n None [] srv e) as [[ev e'] [cursos|x|]];
    cbn [fst] in Hk; try (exists k; exact Hk).
  exists k.
  destruct cursos as [|c cs]; cbn [vazio].
  - unfold seguir, escreve, levanta. cbn [fst]. rewrite etapas_app, Hk.
    apply app_nil_r.
  - unfold seguir at 1. unfold retorna at 1.
    unfold seguir at 1. unfold escreve at 1.
    unfold seguir at 1. rewrite (imprimir_turmas_eq 1 (c :: cs) srv e').
    pose proof (etapas_imprimir_turmas (c :: cs) 1 srv e') as Hi.
    pose proof (etapas_perguntar_turma (c :: cs) e') as Hq.
    destruct (perguntar_turma (c :: cs) e') as [[ev0 e0] r0].
    cbn [fst] in *. rewrite !etapas_app, Hk, Hi, Hq. apply app_nil_r.
Qed.

Lemma etapas_escolher_tema (curso : Curso) srv e :
  etapas (fst (fst (escolher_tema curso srv e))) = [1].
Proof.
  unfold escolher_tema. unfold seguir at 1. unfold execute.
  destruct (ao_topics_list srv (curso_id curso)) as [temas|x]; [|reflexivity].
  destruct temas as [|t ts]; cbn [vazio]; [reflexivity|].
  unfold seguir at 1. unfold escreve at 1.
  unfold seguir at 1. unfold escreve at 1.
  unfold seguir at 1. rewrite (imprimir_temas_eq 1 (t :: ts) srv e).
  pose proof (etapas_imprimir_temas (t :: ts) 1 srv e) as Hi.
  pose proof (etapas_perguntar_tema (t :: ts) e) as Hq.
  destruct (perguntar_tema (t :: ts) e) as [[ev0 e0] r0].
  cbn [fst] in *. rewrite !etapas_app, Hi, Hq. reflexivity.
Qed.

Ltac etapas_ate m :=
  exists m; split;
  [lia|split; [reflexivity|first [discriminate|intros; reflexivity]]].

Lemma etapas_criar_quiz_forms (titulo : str) (qs : list Question) srv e :
  exists m, m <= 4 /\
            etapas (fst (fst (criar_quiz_forms titulo qs srv e)))
            = firstn m [2; 3; 4; 5] /\
            (forall par, snd (criar_quiz_forms titulo qs srv e) = Retorna par ->
                         m = 4).
Proof.
  unfold criar_quiz_forms.
  unfold seguir, execute, tentar, escreve, retorna.
  destruct (ao_forms_create srv _) as [fid|x]; [|etapas_ate 1].
  pose proof (montar_requests_puro qs 0 [updateSettings] srv e) as Hm.
  destruct (ao_permissions_create srv fid _) as [[]|x]; cbv beta iota zeta;
    destruct (montar_requests 0 qs [updateSettings] srv e) as [[evm em] rm];
    cbn [fst] in Hm; injection Hm as -> ->;
    (destruct rm as [reqs|x'|]; [|etapas_ate 2..]);
    (destruct (ao_forms_batchUpdate srv fid _) as [[]|x']; [|etapas_ate 3]);
    destruct (ao_forms_get srv fid) as [uri|x']; etapas_ate 4.
Qed.

Lemma ler_linhas_bloco_retorna (entrada : list str) :
  forall acc, exists resto linhas,
    ler_linhas_bloco entrada acc = ([], resto, Retorna linhas).
Proof.
  induction entrada as [|l entrada IH]; intros acc.
  - exists [], acc. reflexivity.
  - cbn [ler_linhas_bloco].
    destruct (list_eq_dec ascii_dec (lower (strip l)) (lit "fim")).
    + exists entrada, acc. reflexivity.
    + apply IH.
Qed.

(** X17. Whatever the services answer and whatever is typed, [main]
    executes its requests in one order and each step at most once: any
    number of requests for a page of courses, then the topics of the
    course, the creation of the form, its permission, its update, its
    reading, and the creation of the assignment, the run stopping after
    any of them.  So no assignment is created before the form is created,
    updated and read, and no second form or assignment is made. *)
Theorem main_ordem (n : nat) (srv : Servidor) (e : list str) :
  exists k m,
    etapas (fst (fst (main n srv e)))
    = repeat 0 k ++ firstn m [1; 2; 3; 4; 5; 6].
Proof.
  unfold main.
  destruct (etapas_escolher_turma n srv e) as [k Hk]. exists k.
  unfold seguir at 1.
  destruct (escolher_turma n srv e) as [[ev1 e1] [turma|x|]]; cbn [fst] in Hk;
    try (exists 0; cbn [fst]; rewrite Hk; symmetry; apply app_nil_r).
  pose proof (etapas_escolher_tema turma srv e1) as Ht.
  unfold seguir at 1.
  destruct (escolher_tema turma srv e1) as [[ev2 e2] [topic|x|]];
    cbn [fst] in Ht;
    try (exists 1; cbn [fst]; rewrite etapas_app, Hk, Ht; reflexivity).
  unfold seguir at 1. unfold ler_titulo, seguir at 1, input, retorna.
  destruct e2 as [|resposta e2];
    [exists 1; cbn [fst]; rewrite !etapas_app, Hk, Ht; reflexivity|].
  cbv beta iota zeta.
  set (titulo := if vazio (strip resposta) then _ else _).
  unfold seguir at 1. rewrite escrever_todas_eq.
  unfold seguir at 1.
  destruct (ler_linhas_bloco_retorna e2 []) as (e3 & linhas & E3).
  rewrite E3.
  assert (Hi : etapas (map Print instrucoes) = []) by reflexivity.
  unfold seguir at 1. unfold de_proc at 1.
  assert (Hp : forall out : list str, etapas (map Print out) = []).
  { clear. intros out. induction out as [|o out IH]; [reflexivity|exact IH]. }
  destruct (parse_bloco (join_nl linhas)) as [out [qs|code|]]; cbn [fst snd];
    try (exists 1; rewrite !etapas_app, Hk, Ht, Hi, Hp; reflexivity).
  destruct (etapas_criar_quiz_forms titulo qs srv e3) as (m & Hm4 & Hq & Hm).
  assert (H5 : firstn m [2; 3; 4; 5] = firstn m [2; 3; 4; 5; 6])
    by (do 5 (destruct m as [|m]; [reflexivity|]); lia).
  unfold seguir at 1.
  destruct (criar_quiz_forms titulo qs srv e3) as [[ev4 e4] [[fid uri]|x|]];
    cbn [fst snd] in Hq, Hm;
    try (exists (S m); cbn [fst]; rewrite !etapas_app, Hk, Ht, Hi, Hp, Hq, H5;
         reflexivity).
  rewrite (Hm _ eq_refl) in Hq.
  unfold criar_atividade_classroom, seguir, execute, escreve, retorna.
  destruct (ao_courseWork_create srv (curso_id turma) _) as [wid|x];
    exists 6; cbn [fst]; rewrite !etapas_app, Hk, Ht, Hi, Hp, Hq;
    reflexivity.
Qed.

(** X18. The title that [main] gives to the form and to the assignment is
    never empty and has no white space at its ends: it is the line typed,
    trimmed, or the default title when that line is blank. *)
Theorem ler_titulo_nao_vazio (srv : Servidor) (e : list str) ev e' (t : str) :
  ler_titulo srv e = (ev, e', Retorna t) ->
  t <> [] /\ strip t = t /\
  exists resposta, e = resposta :: e' /\
    (strip resposta <> [] -> t = strip resposta) /\
    (strip resposta = [] -> t = py "Avalia\xe7\xe3o").
Proof.
  unfold ler_titulo, seguir, input, retorna.
  destruct e as [|resposta e]; [discriminate|].
  intros H. injection H as _ <- <-.
  destruct (strip resposta) as [|c s] eqn:Es; cbn [vazio].
  - split; [discriminate|]. split; [reflexivity|].
    exists resposta. split; [reflexivity|].
    split; [intros Hn; contradiction|reflexivity].
  - split; [discriminate|]. split; [rewrite <- Es; apply strip_idem|].
    exists resposta. split; [reflexivity|].
    split; [rewrite Es; reflexivity|rewrite Es; discriminate].
Qed.

(** The theorem at a title typed between spaces. *)
Lemma ler_titulo_nao_vazio_exemplo :
  let t := lit "Prova 1" in
  t <> [] /\ strip t = t /\
  exists resposta, [lit " Prova 1 "; lit "fim"] = resposta :: [lit "fim"] /\
    (strip resposta <> [] -> t = strip resposta) /\
    (strip resposta = [] -> t = py "Avalia\xe7\xe3o").
Proof.
  apply (ler_titulo_nao_vazio servidor_exemplo [lit " Prova 1 "; lit "fim"]
           [Prompt (py "\nT\xedtulo da avalia\xe7\xe3o: ")] [lit "fim"]).
  vm_compute. reflexivity.
Defined.

Lemma ate_inicio_nao_brancas (ls : list str) :
  linhas_uteis (ate_inicio (filter nao_branca ls)) = linhas_uteis (ate_inicio ls).
Proof.
  induction ls as [|l r IH]; [reflexivity|].
  cbn [filter]. unfold nao_branca at 1.
  destruct (vazio (strip l)) eqn:El; cbn [negb].
  - cbn [ate_inicio]. rewrite (branco_nao_inicio l El).
    rewrite (linhas_uteis_branco l _ El). exact IH.
  - cbn [ate_inicio]. destruct (e_inicio l); [reflexivity|].
    rewrite !(linhas_uteis_cons l _ El), IH. reflexivity.
Qed.

Lemma segmentos_nao_brancas (ls : list str) :
  map linhas_uteis (segmentos (filter nao_branca ls))
  = map linhas_uteis (segmentos ls).
Proof.
  induction ls as [|l r IH]; [reflexivity|].
  cbn [filter]. unfold nao_branca at 1.
  destruct (vazio (strip l)) eqn:El; cbn [negb].
  - cbn [segmentos]. rewrite (branco_nao_inicio l El). exact IH.
  - cbn [segmentos]. destruct (e_inicio l); [|exact IH].
    cbn [map]. rewrite IH. f_equal.
    change (depois_de l :: ate_inicio (filter nao_branca r))
      with ([depois_de l] ++ ate_inicio (filter nao_branca r)).
    change (depois_de l :: ate_inicio r) with ([depois_de l] ++ ate_inicio r).
    rewrite !linhas_uteis_app, ate_inicio_nao_brancas. reflexivity.
Qed.

Lemma map_resumo_uteis (bs bs' : list (list str)) :
  map linhas_uteis bs = map linhas_uteis bs' -> map resumo bs = map resumo bs'.
Proof.
  revert bs'. induction bs as [|b bs IH]; intros [|b' bs'] H;
    try discriminate H; [reflexivity|].
  cbn [map] in *. injection H as Hb Hbs.
  rewrite (resumo_uteis b b' Hb), (IH bs' Hbs). reflexivity.
Qed.

Lemma separar_blocos_nao_brancas (ls : list str) :
  map resumo (separar_blocos (filter nao_branca ls))
  = map resumo (separar_blocos ls).
Proof.
  apply map_resumo_uteis.
  rewrite !separar_blocos_uteis, <- !nao_vazias_uteis.
  cbn [map]. rewrite ate_inicio_nao_brancas, segmentos_nao_brancas.
  reflexivity.
Qed.

Lemma nao_brancas_sem_vazias_inicio (ls : list str) :
  filter nao_branca (sem_vazias_inicio ls) = filter nao_branca ls.
Proof.
  induction ls as [|l r IH]; [reflexivity|].
  destruct l; [exact IH|reflexivity].
Qed.

Lemma filter_rev_comm {A} (p : A -> bool) (l : list A) :
  filter p (rev l) = rev (filter p l).
Proof.
  induction l as [|x l IH]; [reflexivity|].
  cbn [rev filter]. rewrite filter_app, IH. cbn [filter].
  destruct (p x); [reflexivity|apply app_nil_r].
Qed.

Lemma nao_brancas_aparar_vazias (ls : list str) :
  filter nao_branca (aparar_vazias ls) = filter nao_branca ls.
Proof.
  unfold aparar_vazias.
  rewrite filter_rev_comm, nao_brancas_sem_vazias_inicio, filter_rev_comm.
  rewrite rev_involutive. apply nao_brancas_sem_vazias_inicio.
Qed.

Lemma nao_brancas_idem (ls : list str) :
  filter nao_branca (filter nao_branca ls) = filter nao_branca ls.
Proof.
  induction ls as [|l r IH]; [reflexivity|].
  cbn [filter]. destruct (nao_branca l) eqn:E; [|exact IH].
  cbn [filter]. rewrite E, IH. reflexivity.
Qed.

Lemma forallb_filter_true {A} (p q : A -> bool) (l : list A) :
  forallb p l = true -> forallb p (filter q l) = true.
Proof.
  induction l as [|x l IH]; [reflexivity|].
  simpl. intros H. apply andb_true_iff in H as [Hx Hl].
  destruct (q x); simpl; [rewrite Hx|]; exact (IH Hl).
Qed.

Lemma is_nl_isspace (c : ascii) : is_nl c = true -> isspace c = true.
Proof. por_caracter c. Qed.

Lemma join_nl_com_texto (ls : list str) :
  existsb nao_branca ls = true -> vazio (strip_nl (join_nl ls)) = false.
Proof.
  unfold strip_nl. rewrite vazio_strip_by.
  induction ls as [|l r IH]; [discriminate|].
  cbn [existsb]. intros H.
  assert (Hl : nao_branca l = true -> forallb is_nl l = false).
  { unfold nao_branca. intros Hn.
    destruct (forallb is_nl l) eqn:E; [|reflexivity].
    apply (forallb_impl _ isspace _ is_nl_isspace) in E.
    apply (proj2 (strip_by_nil isspace l)) in E.
    unfold strip in Hn. rewrite E in Hn. discriminate Hn. }
  destruct r as [|l2 r].
  - cbn [existsb] in H. rewrite orb_false_r in H. exact (Hl H).
  - change (join_nl (l :: l2 :: r)) with (l ++ nl ++ join_nl (l2 :: r)).
    rewrite !forallb_app.
    destruct (nao_branca l) eqn:En.
    + rewrite (Hl eq_refl). reflexivity.
    + cbn [orb] in H. rewrite (IH H). rewrite !andb_false_r. reflexivity.
Qed.

Lemma existsb_filter_mesmo {A} (p : A -> bool) (l : list A) :
  existsb p (filter p l) = existsb p l.
Proof.
  induction l as [|x l IH]; [reflexivity|].
  cbn [filter existsb]. destruct (p x) eqn:E; [|exact IH].
  cbn [existsb]. rewrite E. reflexivity.
Qed.

(** X19. Blank lines never count.  For lines typed without a line
    boundary inside, of which one at least is not blank, [parse_bloco]
    does with the text that [main] joins what it does with the same lines
    without the blank ones: the same questions or the same failure. *)
Theorem linhas_em_branco_nao_contam (ls : list str) :
  forallb sem_quebra ls = true ->
  existsb nao_branca ls = true ->
  parse_bloco (join_nl ls) = parse_bloco (join_nl (filter nao_branca ls)).
Proof.
  intros Hq Hn.
  assert (Hq' : forallb sem_quebra (filter nao_branca ls) = true)
    by (apply forallb_filter_true; exact Hq).
  assert (Hn' : existsb nao_branca (filter nao_branca ls) = true)
    by (rewrite existsb_filter_mesmo; exact Hn).
  assert (Hr : map resumo (blocos_de (join_nl ls))
               = map resumo (blocos_de (join_nl (filter nao_branca ls)))).
  { unfold blocos_de.
    unfold linhas_de.
    rewrite (strip_nl_join_nl ls Hq), (splitlines_aparar_vazias ls Hq).
    rewrite (strip_nl_join_nl _ Hq'), (splitlines_aparar_vazias _ Hq').
    rewrite <- (separar_blocos_nao_brancas (aparar_vazias ls)).
    rewrite <- (separar_blocos_nao_brancas (aparar_vazias (filter _ ls))).
    rewrite !nao_brancas_aparar_vazias, nao_brancas_idem. reflexivity. }
  rewrite !parse_bloco_eq.
  rewrite (join_nl_com_texto ls Hn), (join_nl_com_texto _ Hn').
  rewrite (montar_resumo _ _ Hr []).
  assert (Hv : vazio (blocos_de (join_nl ls))
               = vazio (blocos_de (join_nl (filter nao_branca ls)))).
  { apply (f_equal (@length _)) in Hr. rewrite !length_map in Hr.
    destruct (blocos_de (join_nl ls)),
             (blocos_de (join_nl (filter nao_branca ls)));
      try discriminate Hr; reflexivity. }
  rewrite Hv. reflexivity.
Qed.

(** The theorem at a text with blank lines between its lines. *)
Lemma linhas_em_branco_nao_contam_exemplo :
  let ls := [[]; lit "P1: Q"; lit "  "; lit "A) x"; []; lit "B) y";
             lit "G: a"; []] in
  parse_bloco (join_nl ls) = parse_bloco (join_nl (filter nao_branca ls)).
Proof.
  apply (linhas_em_branco_nao_contam
           [[]; lit "P1: Q"; lit "  "; lit "A) x"; []; lit "B) y";
            lit "G: a"; []]); vm_compute; reflexivity.
Defined.

(** * The letter case of the markers beyond U+00FF *)


(** The two runs. *)
Example parse_bloco_alternativa_U0130 :
  Unicode.parse_bloco alternativa_U0130
  = Unicode.ret [ {| Unicode.title := Unicode.ulit "Q";
                     Unicode.alternativas := [Unicode.ulit "x"; Unicode.ulit "y"];
                     Unicode.correta_idx := 1 |} ] /\
  Unicode.canonica_texto alternativa_U0130
  = Unicode.join_nl [Unicode.ulit "p1: Q";
                     105%N :: 775%N :: Unicode.ulit ") x";
                     Unicode.ulit "b) y"; Unicode.ulit "g: b"] /\
  Unicode.parse_bloco (Unicode.canonica_texto alternativa_U0130)
  = ([Unicode.ulit "ERRO: pergunta sem alternativas suficientes -> Q"],
     SystemExit 1).
Proof. repeat split; vm_compute; reflexivity. Qed.

(** ** The wide model on U+0000-U+00FF is the narrow one *)













Lemma de_latin1_app (a b : str) : Unicode.de_latin1 (a ++ b) = Unicode.de_latin1 a ++ Unicode.de_latin1 b.
Proof. apply map_app. Qed.




Section Aparar.

Variable P : N -> bool.
Variable p : ascii -> bool.
Hypothesis HP : forall c, P (N_of_ascii c) = p c.




End Aparar.



























Lemma de_latin1_lit_app (s : string) (x : str) :
  Unicode.ulit s ++ Unicode.de_latin1 x = Unicode.de_latin1 (lit s ++ x).
Proof. unfold Unicode.ulit. symmetry. apply de_latin1_app. Qed.
















